(** * url-to-pdf-tool: the conversion pipeline, embedded and verified

    Shallow embedding of [src/services/pdfService.js] (parseUrls,
    convertUrlToPdf, downloadPdf, processUrls),
    [src/services/googleDriveService.js] (uploadPdfsToSharedFolder) and the
    mail service (sendPdfsViaEmail).

    JavaScript strings are sequences of UTF-16 code units, JSON values are an
    inductive type, [undefined] is [None].  What the host (Node, V8) supplies
    -- [JSON.parse], [path.join], the text of engine-raised TypeErrors, number
    formatting -- is gathered in the class [Host].  The network, the remote
    services, the paths that cannot be opened and the order in which
    concurrent promises settle are oracles. *)

From Stdlib Require Import List NArith Arith Bool Lia String Ascii.
From Stdlib Require Import Permutation DecimalString DecimalNat SpecFloat.
Import ListNotations.

Set Warnings "-register-all".

(** ** JavaScript values *)

Module JS.

(** A string is its sequence of UTF-16 code units. *)
Definition jsstring := list N.

(** An ASCII literal as a JavaScript string. *)
Definition js (s : string) : jsstring :=
  map N_of_ascii (list_ascii_of_string s).
Arguments js s%_string.

Definition str_eqb (a b : jsstring) : bool :=
  if list_eq_dec N.eq_dec a b then true else false.

(** What [JSON.parse] produces.  A number is an IEEE double; an object keeps
    its members in source order. *)
Inductive json : Type :=
| JNull
| JBool (b : bool)
| JNum (x : spec_float)
| JStr (s : jsstring)
| JArr (items : list json)
| JObj (members : list (jsstring * json)).

(** A value that may be [undefined]. *)
Definition jsval := option json.
Definition undefined : jsval := None.

(** ToBoolean. *)
Definition truthy_json (v : json) : bool :=
  match v with
  | JNull => false
  | JBool b => b
  | JNum (S754_zero _) => false
  | JNum S754_nan => false
  | JNum _ => true
  | JStr s => match s with [] => false | _ => true end
  | JArr _ => true
  | JObj _ => true
  end.

Definition truthy (v : jsval) : bool :=
  match v with
  | None => false
  | Some j => truthy_json j
  end.

(** [a || b]. *)
Definition js_or (a b : jsval) : jsval := if truthy a then a else b.

(** [a || b] where [b] is a string literal or template. *)
Definition or_else (a : jsval) (b : json) : json :=
  match a with
  | Some j => if truthy_json j then j else b
  | None => b
  end.

(** The last member named [k]: [JSON.parse] keeps the last of duplicate
    names. *)
Fixpoint lookup_member (k : jsstring) (ms : list (jsstring * json)) : jsval :=
  match ms with
  | [] => None
  | (k', v) :: rest =>
      match lookup_member k rest with
      | Some w => Some w
      | None => if str_eqb k k' then Some v else None
      end
  end.

(** A completion: a normal value, or a thrown [Error] given by its
    [message]. *)
Inductive completion (A : Type) : Type :=
| Normal (a : A)
| Throws (message : jsstring).
Arguments Normal {A} a.
Arguments Throws {A} message.

Definition bind {A B} (c : completion A) (k : A -> completion B)
  : completion B :=
  match c with
  | Normal a => k a
  | Throws m => Throws m
  end.

(** Faults the engine itself raises; the host gives their message.  A
    property read of [null] and one of [undefined] are different faults, and
    so are a header value that is [undefined] and one that holds a code unit
    no header may hold. *)
Inductive engine_fault : Type :=
| NullRead (property : jsstring)
| UndefinedRead (property : jsstring)
| NotAFunction (callee : jsstring)
| PathArgument (received : json)
| NoSuchFile (path : jsstring)
| InvalidHeaderValue (name : jsstring)
| InvalidHeaderChar (name : jsstring).

(** [String(n)] for a non-negative integer. *)
Definition String_of_nat (n : nat) : jsstring :=
  js (NilEmpty.string_of_uint (Nat.to_uint n)).

Definition String_of_N (n : N) : jsstring := String_of_nat (N.to_nat n).

(** [s.padStart(width, '0')]. *)
Definition padStart0 (width : nat) (s : jsstring) : jsstring :=
  repeat (N_of_ascii "0"%char) (width - List.length s) ++ s.

Fixpoint startsWith (prefix s : jsstring) : bool :=
  match prefix, s with
  | [], _ => true
  | _ :: _, [] => false
  | p :: prefix', c :: s' => N.eqb p c && startsWith prefix' s'
  end.

(** ECMAScript WhiteSpace and LineTerminator code units, the ones
    [String.prototype.trim] strips. *)
Definition is_space (c : N) : bool :=
  ((9 <=? c) && (c <=? 13) || (c =? 32) || (c =? 160) || (c =? 5760)
   || (8192 <=? c) && (c <=? 8202) || (c =? 8232) || (c =? 8233)
   || (c =? 8239) || (c =? 8287) || (c =? 12288) || (c =? 65279))%N.

Fixpoint trimStart (s : jsstring) : jsstring :=
  match s with
  | [] => []
  | c :: r => if is_space c then trimStart r else s
  end.

Definition trim (s : jsstring) : jsstring :=
  rev (trimStart (rev (trimStart s))).

(** [s.split(sep)] for a one-unit separator: always at least one piece. *)
Fixpoint split_on (sep : N) (s : jsstring) : list jsstring :=
  match s with
  | [] => [[]]
  | c :: r =>
      if N.eqb c sep then [] :: split_on sep r
      else match split_on sep r with
           | p :: ps => (c :: p) :: ps
           | [] => [[c]]
           end
  end.

Definition is_crlf (c : N) : bool := (N.eqb c 10 || N.eqb c 13)%bool.

(** [s.split(/[\r\n]+/)]: the pieces between maximal runs of CR and LF.
    [in_run] says that the previous unit belonged to a run. *)
Fixpoint split_crlf (in_run : bool) (s : jsstring) : list jsstring :=
  match s with
  | [] => [[]]
  | c :: r =>
      if is_crlf c then
        if in_run then split_crlf true r else [] :: split_crlf true r
      else match split_crlf false r with
           | p :: ps => (c :: p) :: ps
           | [] => [[c]]
           end
  end.

Definition split_lines (s : jsstring) : list jsstring := split_crlf false s.

(** [Array.prototype.forEach] with a callback that updates captured state and
    may throw; [idx] is the index of the head of [l]. *)
Fixpoint forEach {A St : Type} (f : A -> nat -> St -> completion St)
  (idx : nat) (l : list A) (s : St) : completion St :=
  match l with
  | [] => Normal s
  | a :: rest => bind (f a idx s) (forEach f (S idx) rest)
  end.

(** [arr.slice(from, to)]. *)
Definition slice {A : Type} (from to : nat) (l : list A) : list A :=
  firstn (to - from) (skipn from l).

End JS.
Export JS.

(** ** The host *)

Class Host : Type := {
  (** [JSON.parse]: the decoded value, or the SyntaxError's message. *)
  JSON_parse : jsstring -> completion json;
  (** The message of an engine-raised TypeError. *)
  engine_message : engine_fault -> jsstring;
  (** [path.join] on two strings. *)
  path_join : jsstring -> jsstring -> jsstring;
  (** [(bytes / 1024 / 1024).toFixed(2)]. *)
  megabytes_toFixed2 : N -> jsstring
}.

(** ** pdfService.js: parseUrls *)

Module PdfService.

(** The objects [parseUrls] pushes and [processUrls] reads. *)
Record WorkItem : Type := {
  url : jsval;
  label : jsval;
  fileName : jsval
}.

(** [`PDF_${String(n).padStart(3, '0')}.pdf`]. *)
Definition default_name (n : nat) : jsstring :=
  js "PDF_" ++ padStart0 3 (String_of_nat n) ++ js ".pdf".

(** Reading property [k] of a decoded value: [null] throws, an object is
    looked up, every other value has no such property. *)
Definition get_prop `{Host} (v : json) (k : jsstring) : completion jsval :=
  match v with
  | JNull => Throws (engine_message (NullRead k))
  | JObj ms => Normal (lookup_member k ms)
  | _ => Normal undefined
  end.

Section ParseUrls.
Context `{Host}.

(** The callback of [data.forEach] (lines 223-233). *)
Definition json_element (item : json) (idx : nat) (urls : list WorkItem)
  : completion (list WorkItem) :=
  match item with
  | JStr _ =>
      Normal (urls ++ [ {| url := Some item;
                           label := undefined;
                           fileName := Some (JStr (default_name (idx + 1))) |} ])
  | _ =>
      bind (get_prop item (js "url")) (fun u =>
      if truthy u then
        bind (get_prop item (js "fileName")) (fun fn =>
        bind (get_prop item (js "name")) (fun nm =>
        bind (get_prop item (js "label")) (fun lb =>
        bind (get_prop item (js "description")) (fun ds =>
        Normal (urls ++ [ {| url := u;
                             label := Some (or_else (js_or lb ds) (JStr []));
                             fileName :=
                               Some (or_else (js_or fn nm)
                                       (JStr (default_name (idx + 1)))) |} ])))))
      else Normal urls)
  end.

(** The callback of [lines.forEach] (lines 242-254). *)
Definition text_line (line : jsstring) (idx : nat) (urls : list WorkItem)
  : completion (list WorkItem) :=
  let parts := map trim (split_on (N_of_ascii ","%char) line) in
  let url0 := nth 0 parts [] in
  if truthy (Some (JStr url0))
     && (startsWith (js "http://") url0 || startsWith (js "https://") url0)
  then
    Normal (urls ++ [ {| url := Some (JStr url0);
                         label := Some (or_else (option_map JStr (nth_error parts 1))
                                          (JStr []));
                         fileName := Some (or_else (option_map JStr (nth_error parts 2))
                                             (JStr (default_name (idx + 1)))) |} ])
  else Normal urls.

(** [input.split(/[\r\n]+/).filter(line => line.trim())]. *)
Definition nonblank_lines (input : jsstring) : list jsstring :=
  filter (fun line => truthy (Some (JStr (trim line)))) (split_lines input).

Definition parseUrls (input : jsstring) (format : jsstring)
  : completion (list WorkItem) :=
  if str_eqb format (js "json") then
    match
      bind (JSON_parse input) (fun data =>
      match data with
      | JArr items => forEach json_element 0 items []
      | _ => Normal []
      end)
    with
    | Normal urls => Normal urls
    | Throws _ => Throws (js "Invalid JSON format")
    end
  else
    forEach text_line 0 (nonblank_lines input) [].

End ParseUrls.

(** ** pdfService.js: convertUrlToPdf *)

(** How an awaited promise ends.  [Uncaught]: an exception escaped an event
    callback, or a stream emitted an ['error'] that has no listener, so the
    promise is never settled and the process receives an uncaught exception.
    [Pending]: no handler that settles the promise ever runs. *)
Inductive settled (A : Type) : Type :=
| Fulfilled (a : A)
| Rejected (message : jsstring)
| Uncaught (message : jsstring)
| Pending.
Arguments Fulfilled {A} a.
Arguments Rejected {A} message.
Arguments Uncaught {A} message.
Arguments Pending {A}.

(** What follows the request to the rendering service, once it is made: the
    response ended (['end'], with the status line's code and the accumulated
    body), the response was cut before its end (neither ['end'] nor the
    request's ['error'] nor the timer fires), the request failed (['error']),
    or the 60000 ms timer fired. *)
Inductive api_event : Type :=
| ApiResponse (statusCode : N) (data : jsstring)
| ApiAborted
| ApiError (message : jsstring)
| ApiTimeout.

(** [{success: true, fileUrl, fileName}] or [{success: false, error, fileName}]. *)
Inductive ConversionOutcome : Type :=
| ConvSuccess (fileUrl : json) (fileName : json)
| ConvFailure (error : json) (fileName : json).

Definition conv_success (o : ConversionOutcome) : bool :=
  match o with
  | ConvSuccess _ _ => true
  | ConvFailure _ _ => false
  end.

(** The code units a header value may hold: the tab, and [0x20-0x7e] and
    [0x80-0xff]. *)
Definition header_unit (c : N) : bool :=
  ((c =? 9) || (32 <=? c) && (c <=? 126) || (128 <=? c) && (c <=? 255))%N.

(** What [https.request] throws for a header, if it does: the value is
    [undefined], or holds a code unit no header may hold. *)
Definition header_fault (name : jsstring) (value : option jsstring)
  : option engine_fault :=
  match value with
  | None => Some (InvalidHeaderValue name)
  | Some v => if forallb header_unit v then None else Some (InvalidHeaderChar name)
  end.

Section ConvertUrlToPdf.
Context `{Host}.

(** [const API_KEY = process.env.API2PDF_API_KEY] (line 6). *)
Variable API_KEY : option jsstring.

(** The [else] branch of the ['end'] handler (lines 46-50). *)
Definition api_failure (response : json) (fileName : json)
  : completion ConversionOutcome :=
  bind (get_prop response (js "Error")) (fun e1 =>
  bind (get_prop response (js "error")) (fun e2 =>
  Normal (ConvFailure (or_else (js_or e1 e2) (JStr (js "Unknown API error")))
            fileName))).

(** The body of the ['end'] handler's [try] block (lines 42-51). *)
Definition on_end_try (data : jsstring) (fileName : json)
  : completion ConversionOutcome :=
  bind (JSON_parse data) (fun response =>
  bind (get_prop response (js "FileUrl")) (fun fu =>
  match fu with
  | Some fileUrl =>
      if truthy_json fileUrl then Normal (ConvSuccess fileUrl fileName)
      else api_failure response fileName
  | None => api_failure response fileName
  end)).

(** What the promise ends as.  [https.request] is called in the executor:
    when it throws at the [Authorization] header the promise is rejected and
    no handler is installed.  Every handler that runs calls [resolve]; when
    the response is cut before its end none runs. *)
Definition convertUrlToPdf (ev : api_event) (url : jsval) (fileName : json)
  : settled ConversionOutcome :=
  match header_fault (js "Authorization") API_KEY with
  | Some f => Rejected (engine_message f)
  | None =>
      match ev with
      | ApiResponse _ data =>
          match on_end_try data fileName with
          | Normal r => Fulfilled r
          | Throws m =>
              Fulfilled (ConvFailure (JStr (js "JSON parse error: " ++ m)) fileName)
          end
      | ApiAborted => Pending
      | ApiError m => Fulfilled (ConvFailure (JStr m) fileName)
      | ApiTimeout => Fulfilled (ConvFailure (JStr (js "Request timeout")) fileName)
      end
  end.

End ConvertUrlToPdf.

(** ** pdfService.js: downloadPdf *)

(** What a GET of one URL ends in: [get] itself throws (the string is not a
    URL the module accepts), a response (status code, [Location] header if
    any, body), a response whose body is cut before its end (the part
    received), an ['error'] event, or no answer before the 120000 ms timer
    fires.  The timer is set on the first request only; on the redirected
    request [HttpTimeout] stands for that same timer firing before the
    transfer ends. *)
Inductive http_reply : Type :=
| HttpResponse (statusCode : N) (location : option jsstring) (body : list N)
| HttpAborted (statusCode : N) (location : option jsstring) (received : list N)
| HttpError (message : jsstring)
| HttpTimeout
| HttpRefused (message : jsstring).

Definition network := jsstring -> http_reply.

(** The staging directory: path to file content. *)
Definition disk := jsstring -> option (list N).

(** The paths [fs.createWriteStream] cannot open (a missing directory, a
    name that is too long, a directory at the path), each with the error its
    stream emits.  A stream that has opened its path is taken to write
    without error. *)
Definition opener := jsstring -> option jsstring.

(** The file at [p] holds [content]: what a stream that has opened [p]
    leaves when [content] was written to it. *)
Definition disk_write (p : jsstring) (content : list N) (d : disk) : disk :=
  fun q => if str_eqb q p then Some content else d q.

Definition disk_unlink (p : jsstring) (d : disk) : disk :=
  fun q => if str_eqb q p then None else d q.

(** A download: how its promise ends, the URLs requested, the staging
    directory once the file operations issued so far are done, and the
    ['error'] of the write stream, if the path cannot be opened: no listener
    takes it, so the process receives it as an uncaught exception once the
    current job is done.  [lingers]: the response to the first request was
    left unread (a redirect, or a status the code rejects), so that request
    may still be open when the promise settles; should its timer fire or its
    connection fail afterwards, the handler unlinks [localPath] once more. *)
Record Download : Type := {
  outcome : settled jsstring;
  requested : list jsstring;
  written : disk;
  fault : option jsstring;
  lingers : bool
}.

Section DownloadPdf.
Context `{Host}.
Variable net : network.
Variable open_error : opener.

(** [response.pipe(file)] with the ['finish'] handler: what was received is
    in the file; the promise resolves when the body came to its end. *)
Definition piped (localPath : jsstring) (urls : list jsstring) (body : list N)
  (complete : bool) (created : disk) (unread : bool) : Download :=
  {| outcome := if complete then Fulfilled localPath else Pending;
     requested := urls;
     written := disk_write localPath body created;
     fault := None;
     lingers := unread |}.

(** [fs.unlink(localPath, () => {}); reject(err)]. *)
Definition unlinked (localPath : jsstring) (urls : list jsstring)
  (message : jsstring) (created : disk) (unread : bool) : Download :=
  {| outcome := Rejected message;
     requested := urls;
     written := disk_unlink localPath created;
     fault := None;
     lingers := unread |}.

(** An exception thrown in the response callback: it is outside the
    executor, nothing catches it. *)
Definition escaped (urls : list jsstring) (message : jsstring) (created : disk)
  : Download :=
  {| outcome := Uncaught message;
     requested := urls;
     written := created;
     fault := None;
     lingers := false |}.

(** The redirect branch (lines 82-96), once [redirectUrl] is a string.  The
    response of the redirected request is piped whatever its status code.
    The first response is not read: the first request stays open, unless it
    is its timer that ends the download. *)
Definition follow (u redirectUrl localPath : jsstring) (created : disk)
  : Download :=
  match net redirectUrl with
  | HttpRefused m => escaped [u] m created
  | HttpResponse _ _ body =>
      piped localPath [u; redirectUrl] body true created true
  | HttpAborted _ _ received =>
      piped localPath [u; redirectUrl] received false created true
  | HttpError m => unlinked localPath [u; redirectUrl] m created true
  | HttpTimeout =>
      unlinked localPath [u; redirectUrl] (js "Download timeout") created false
  end.

(** The response callback of the first request (lines 81-107).  A 301 or
    302 without [Location] throws at [redirectUrl.startsWith].  Only a 200
    is read. *)
Definition on_response (u localPath : jsstring) (statusCode : N)
  (location : option jsstring) (body : list N) (complete : bool)
  (created : disk) : Download :=
  if (statusCode =? 301)%N || (statusCode =? 302)%N then
    match location with
    | Some redirectUrl => follow u redirectUrl localPath created
    | None =>
        escaped [u] (engine_message (UndefinedRead (js "startsWith"))) created
    end
  else if (statusCode =? 200)%N
  then piped localPath [u] body complete created false
  else unlinked localPath [u] (js "HTTP " ++ String_of_N statusCode) created
         true.

(** The executor (lines 77-118).  A [pdfUrl] that is not a string makes it
    throw at [pdfUrl.startsWith], before the file is created.  A string that
    [get] refuses makes it throw after [fs.createWriteStream]: the promise is
    rejected, no request is made and the empty file stays.  When the path
    cannot be opened the file is not created and the stream's ['error'] ends
    the process: after the rejection when [get] refused the URL, before any
    response otherwise. *)
Definition downloadPdf (pdfUrl : json) (localPath : jsstring) (d : disk)
  : Download :=
  match pdfUrl with
  | JStr u =>
      match open_error localPath with
      | Some e =>
          match net u with
          | HttpRefused m =>
              {| outcome := Rejected m;
                 requested := [];
                 written := d;
                 fault := Some e;
                 lingers := false |}
          | _ =>
              {| outcome := Uncaught e;
                 requested := [u];
                 written := d;
                 fault := Some e;
                 lingers := false |}
          end
      | None =>
          let created := disk_write localPath [] d in
          match net u with
          | HttpRefused m =>
              {| outcome := Rejected m;
                 requested := [];
                 written := created;
                 fault := None;
                 lingers := false |}
          | HttpResponse statusCode location body =>
              on_response u localPath statusCode location body true created
          | HttpAborted statusCode location received =>
              on_response u localPath statusCode location received false created
          | HttpError m => unlinked localPath [u] m created false
          | HttpTimeout =>
              unlinked localPath [u] (js "Download timeout") created false
          end
      end
  | JNull =>
      {| outcome := Rejected (engine_message (NullRead (js "startsWith")));
         requested := [];
         written := d;
         fault := None;
         lingers := false |}
  | _ =>
      {| outcome := Rejected (engine_message (NotAFunction (js "pdfUrl.startsWith")));
         requested := [];
         written := d;
         fault := None;
         lingers := false |}
  end.

End DownloadPdf.

(** ** pdfService.js: processUrls *)

Module Artifact.
(** An entry of [results.success]. *)
Record t : Type := {
  index : nat;
  url : jsval;
  fileName : json;
  localPath : jsstring;
  label : json
}.
End Artifact.

Module Failure.
(** An entry of [results.failed]. *)
Record t : Type := {
  index : nat;
  url : jsval;
  fileName : json;
  error : json;
  label : json
}.
End Failure.

Record BatchResult : Type := {
  success : list Artifact.t;
  failed : list Failure.t;
  total : nat
}.

(** The argument of an [onProgress] call. *)
Inductive progress : Type :=
| BatchStart (current total processed totalUrls : nat)
| ItemSuccess (index : nat) (fileName : json) (url : jsval)
| ItemFailed (index : nat) (fileName : json) (url : jsval) (error : json).

(** The caller's callback: [None] when it returns, [Some m] when it throws
    an error with message [m]. *)
Definition callback := progress -> option jsstring.

(** What a run does, in order. *)
Inductive event : Type :=
| Progress (p : progress)   (* onProgress was called with p *)
| Request (index : nat)     (* convertUrlToPdf was called for the item *)
| Settled (index : nat)     (* the item's promise settled *)
| Sleep (ms : nat).         (* a setTimeout of ms was awaited *)

(** The run so far: the result object, the staging directory once the file
    operations issued so far are done, what the run did, and the paths of
    the downloads whose first request may still be open (see [lingers]). *)
Record state : Type := {
  results : BatchResult;
  files : disk;
  log : list event;
  lingering : list jsstring
}.

(** How [processUrls] ends: it returns, it throws (its promise is
    rejected), the process receives an uncaught exception, or the promise of
    a batch is never settled and the run waits for ever. *)
Inductive run : Type :=
| Returned (r : BatchResult)
| Threw (message : jsstring)
| Crashed (message : jsstring)
| Stalled
| OutOfFuel.

(** The world a run meets: the API key of the environment, what follows the
    request of each item (by index) to the rendering service, the network the
    artifacts are fetched from, the paths that cannot be opened, and the
    instant at which each item's promise settles -- or at which what keeps it
    from settling happens --, which orders the items of a batch. *)
Record World : Type := {
  key : option jsstring;
  api : nat -> api_event;
  web : network;
  opening : opener;
  finish : nat -> nat
}.

Definition batchSize : nat := 5.
Definition delayBetweenBatches : nat := 2000.

(** [Math.ceil(a / b)] on non-negative integers. *)
Definition ceil_div (a b : nat) : nat := (a + b - 1) / b.

Definition record (e : event) (st : state) : state :=
  {| results := results st; files := files st; log := log st ++ [e];
     lingering := lingering st |}.

Definition push_success (a : Artifact.t) (st : state) : state :=
  {| results := {| success := success (results st) ++ [a];
                   failed := failed (results st);
                   total := total (results st) |};
     files := files st; log := log st; lingering := lingering st |}.

Definition push_failed (f : Failure.t) (st : state) : state :=
  {| results := {| success := success (results st);
                   failed := failed (results st) ++ [f];
                   total := total (results st) |};
     files := files st; log := log st; lingering := lingering st |}.

(** The staging directory and the open requests after a download to [p]. *)
Definition fetched (p : jsstring) (d : Download) (st : state) : state :=
  {| results := results st; files := written d; log := log st;
     lingering := if lingers d then lingering st ++ [p] else lingering st |}.

(** [if (onProgress) onProgress(p)]. *)
Definition emit (onProgress : option callback) (p : progress) (st : state)
  : completion unit * state :=
  match onProgress with
  | None => (Normal tt, st)
  | Some f =>
      match f p with
      | None => (Normal tt, record (Progress p) st)
      | Some m => (Throws m, record (Progress p) st)
      end
  end.

(** Stable insertion sort by a key: the order in which promises that settle
    at the given instants are resumed, request order breaking ties. *)
Fixpoint insert_by {A : Type} (key : A -> nat) (a : A) (l : list A) : list A :=
  match l with
  | [] => [a]
  | b :: rest =>
      if key a <=? key b then a :: l else b :: insert_by key a rest
  end.

Fixpoint sort_by {A : Type} (key : A -> nat) (l : list A) : list A :=
  match l with
  | [] => []
  | a :: rest => insert_by key a (sort_by key rest)
  end.

Section ProcessUrls.
Context `{Host}.
Variable W : World.
Variable urls : list WorkItem.
Variable outputDir : jsstring.
Variable onProgress : option callback.

(** The [catch] block (lines 187-199); a throw of the callback in it
    rejects the item's promise. *)
Definition on_catch (index : nat) (fileName : json) (item : WorkItem)
  (message : jsstring) (st : state) : settled unit * state :=
  let st1 :=
    push_failed {| Failure.index := index;
                   Failure.url := url item;
                   Failure.fileName := fileName;
                   Failure.error := JStr message;
                   Failure.label := or_else (label item) (JStr []) |} st in
  match emit onProgress (ItemFailed index fileName (url item) (JStr message)) st1 with
  | (Normal _, st2) => (Fulfilled tt, st2)
  | (Throws m, st2) => (Rejected m, st2)
  end.

(** The callback of [batch.map] (lines 150-200), run from the item's
    request to the settling of its promise.  What follows the last [await]
    runs without interruption, so the pushes and the callback of one item
    are not interleaved with another item's.  A rejection of either awaited
    promise is caught (lines 187-199); when the write stream of the download
    could not open its path, its ['error'] ends the process after that. *)
Definition process_item (i idx : nat) (item : WorkItem) (st : state)
  : settled unit * state :=
  let index := i + idx + 1 in
  let fileName := or_else (fileName item) (JStr (default_name index)) in
  match convertUrlToPdf (key W) (api W index) (url item) fileName with
  | Fulfilled (ConvSuccess fileUrl _) =>
      match fileName with
      | JStr name =>
          let localPath := path_join outputDir name in
          let d := downloadPdf (web W) (opening W) fileUrl localPath (files st) in
          let st1 := fetched localPath d st in
          let after :=
            match outcome d with
            | Fulfilled _ =>
                let st2 :=
                  push_success {| Artifact.index := index;
                                  Artifact.url := url item;
                                  Artifact.fileName := fileName;
                                  Artifact.localPath := localPath;
                                  Artifact.label := or_else (label item) (JStr []) |}
                    st1 in
                match emit onProgress (ItemSuccess index fileName (url item)) st2 with
                | (Normal _, st3) => (Fulfilled tt, st3)
                | (Throws m, st3) => on_catch index fileName item m st3
                end
            | Rejected m => on_catch index fileName item m st1
            | Uncaught m => (Uncaught m, st1)
            | Pending => (Pending, st1)
            end in
          match fault d with
          | None => after
          | Some e => (Uncaught e, snd after)
          end
      | _ => on_catch index fileName item
               (engine_message (PathArgument fileName)) st
      end
  | Fulfilled (ConvFailure error _) =>
      let st1 :=
        push_failed {| Failure.index := index;
                       Failure.url := url item;
                       Failure.fileName := fileName;
                       Failure.error := error;
                       Failure.label := or_else (label item) (JStr []) |} st in
      match emit onProgress (ItemFailed index fileName (url item) error) st1 with
      | (Normal _, st2) => (Fulfilled tt, st2)
      | (Throws m, st2) => on_catch index fileName item m st2
      end
  | Rejected m => on_catch index fileName item m st
  | Uncaught m => (Uncaught m, st)
  | Pending => (Pending, st)
  end.

(** [await Promise.all(batchPromises)]: the items settle in [order]; the
    first rejection, if any, is the one [Promise.all] rejects with; without
    a rejection it is fulfilled when every item is, and stays pending when
    one of them does ([waiting]). *)
Fixpoint settle_all (i : nat) (order : list (nat * WorkItem))
  (rejection : option jsstring) (waiting : bool) (st : state)
  : settled unit * state :=
  match order with
  | [] =>
      match rejection with
      | Some m => (Rejected m, st)
      | None => if waiting then (Pending, st) else (Fulfilled tt, st)
      end
  | (idx, item) :: rest =>
      match process_item i idx item st with
      | (Fulfilled _, st1) =>
          settle_all i rest rejection waiting (record (Settled (i + idx + 1)) st1)
      | (Rejected m, st1) =>
          settle_all i rest
            (match rejection with None => Some m | Some _ => rejection end)
            waiting (record (Settled (i + idx + 1)) st1)
      | (Uncaught m, st1) => (Uncaught m, st1)
      | (Pending, st1) => settle_all i rest rejection true st1
      end
  end.

(** The items of a batch with their index in the batch. *)
Definition entries (batch : list WorkItem) : list (nat * WorkItem) :=
  combine (seq 0 (List.length batch)) batch.

(** The [for] loop (lines 135-208) from [i] on. *)
Fixpoint batches (fuel : nat) (i : nat) (st : state) : run * state :=
  match fuel with
  | 0 => (OutOfFuel, st)
  | S fuel' =>
      if i <? List.length urls then
        let batch := slice i (i + batchSize) urls in
        let batchNumber := i / batchSize + 1 in
        let totalBatches := ceil_div (List.length urls) batchSize in
        match emit onProgress
                (BatchStart batchNumber totalBatches i (List.length urls)) st with
        | (Throws m, st1) => (Threw m, st1)
        | (Normal _, st1) =>
            let st2 :=
              fold_left (fun s e => record (Request (i + fst e + 1)) s)
                (entries batch) st1 in
            let order := sort_by (fun e => finish W (i + fst e + 1)) (entries batch) in
            match settle_all i order None false st2 with
            | (Fulfilled _, st3) =>
                let st4 :=
                  if i + batchSize <? List.length urls
                  then record (Sleep delayBetweenBatches) st3
                  else st3 in
                batches fuel' (i + batchSize) st4
            | (Rejected m, st3) => (Threw m, st3)
            | (Uncaught m, st3) => (Crashed m, st3)
            | (Pending, st3) => (Stalled, st3)
            end
        end
      else (Returned (results st), st)
  end.

Definition processUrls (d : disk) : run * state :=
  batches (S (List.length urls)) 0
    {| results := {| success := []; failed := []; total := List.length urls |};
       files := d;
       log := [];
       lingering := [] |}.

End ProcessUrls.

End PdfService.

(** ** googleDriveService.js: uploadPdfsToSharedFolder *)

Module GoogleDriveService.
Import PdfService.

(** [response.data] of a [drive.files.create] call. *)
Record FileData : Type := {
  id : jsval;
  name : jsval;
  webViewLink : jsval
}.

(** The remote storage service, as the calls of this file see it.  The
    [nat] of an upload is the number of uploads made before it. *)
Record Drive : Type := {
  initializeDrive : completion unit;
  files_create_folder : jsstring -> completion FileData;
  files_create_media : nat -> jsstring -> json -> jsval -> completion FileData;
  permissions_create : jsval -> jsstring -> jsstring -> completion unit;
  files_get : jsval -> completion jsval
}.

(** An entry of [uploadResults]. *)
Inductive UploadResult : Type :=
| Uploaded (fileName : json) (fileId : jsval) (link : jsval)
| NotUploaded (fileName : json) (error : jsstring).

Definition upload_success (r : UploadResult) : bool :=
  match r with
  | Uploaded _ _ _ => true
  | NotUploaded _ _ => false
  end.

(** What [uploadPdfsToSharedFolder] resolves to. *)
Inductive DriveDelivery : Type :=
| Shared (folderId folderName shareLink : jsval)
    (uploadedFiles failedFiles : nat) (results : list UploadResult)
| NotShared (error : jsstring).

Definition delivery_success (r : DriveDelivery) : bool :=
  match r with
  | Shared _ _ _ _ _ _ => true
  | NotShared _ => false
  end.

Section UploadPdfs.
Variable G : Drive.

Definition createFolder (folderName : jsstring) : completion FileData :=
  bind (initializeDrive G) (fun _ => files_create_folder G folderName).

Definition uploadFile (nth : nat) (filePath : jsstring) (fileName : json)
  (folderId : jsval) : completion FileData :=
  bind (initializeDrive G) (fun _ =>
    files_create_media G nth filePath fileName folderId).

Definition shareWithEmail (fileId : jsval) (email role : jsstring)
  : completion jsval :=
  bind (initializeDrive G) (fun _ =>
  bind (permissions_create G fileId email role) (fun _ =>
  files_get G fileId)).

(** The [for ... of] loop (lines 151-169); [nth] uploads were made. *)
Fixpoint upload_each (folderId : jsval) (nth : nat) (pdfFiles : list Artifact.t)
  (uploadResults : list UploadResult) : list UploadResult :=
  match pdfFiles with
  | [] => uploadResults
  | pdf :: rest =>
      let r :=
        match uploadFile nth (Artifact.localPath pdf) (Artifact.fileName pdf)
                folderId with
        | Normal result =>
            Uploaded (Artifact.fileName pdf) (id result) (webViewLink result)
        | Throws m => NotUploaded (Artifact.fileName pdf) m
        end in
      upload_each folderId (S nth) rest (uploadResults ++ [r])
  end.

Definition uploadPdfsToSharedFolder (pdfFiles : list Artifact.t)
  (folderName recipientEmail : jsstring) : DriveDelivery :=
  match createFolder folderName with
  | Throws m => NotShared m
  | Normal folder =>
      let uploadResults := upload_each (id folder) 0 pdfFiles [] in
      match shareWithEmail (id folder) recipientEmail (js "reader") with
      | Throws m => NotShared m
      | Normal shareLink =>
          Shared (id folder) (name folder) shareLink
            (List.length (filter upload_success uploadResults))
            (List.length (filter (fun r => negb (upload_success r)) uploadResults))
            uploadResults
      end
  end.

End UploadPdfs.

End GoogleDriveService.

(** ** The mail service: sendPdfsViaEmail *)

Module EmailService.
Import PdfService.

(** What [generateEmailHtml] interpolates into its template. *)
Record EmailHtml : Type := {
  heading : jsstring;
  totalCount : nat;
  successCount : nat;
  failedCount : nat;
  failedRows : list (nat * jsstring * json)
}.

Record MailOptions : Type := {
  from : jsval;
  to : jsstring;
  subject : jsstring;
  html : EmailHtml;
  attachment_filename : jsstring;
  attachment_path : jsstring
}.

(** What delivery by mail resolves to: [{success: true, messageId, response}]
    or [{success: false, error}]. *)
Inductive MailDelivery : Type :=
| Sent (messageId response : jsval)
| NotSent (error : jsstring).

Definition delivery_success (r : MailDelivery) : bool :=
  match r with
  | Sent _ _ => true
  | NotSent _ => false
  end.

(** How the writing of an archive ends: the output stream closes (['close'],
    with the size the archive reports and the bytes written), the archive
    emits an ['error'], or the output stream does, because its path cannot be
    opened: no listener takes that one. *)
Inductive zip_event : Type :=
| ZipClosed (size : N) (bytes : list N)
| ZipError (message : jsstring)
| ZipOutputError (message : jsstring).

(** The world of one delivery: whether the temp directory can be provided,
    how the writing of the archive of the entries and the index to a path
    ends, the initialisation of the mail transport, the sender address read
    from the environment, and the transport's [sendMail]. *)
Record Mailer : Type := {
  tempDir : jsstring;
  ensure_tempDir : completion unit;
  archiver : jsstring -> list (json * list N) -> jsval -> zip_event;
  initializeEmail : completion unit;
  sender : completion jsval;
  sendMail : MailOptions -> completion (jsval * jsval)
}.

Record state : Type := {
  files : disk;
  outbox : list MailOptions
}.

(** [s.replace(/[^a-z0-9]/gi, '_')]. *)
Definition is_alnum (c : N) : bool :=
  ((48 <=? c) && (c <=? 57) || (65 <=? c) && (c <=? 90)
   || (97 <=? c) && (c <=? 122))%N.

Definition sanitize (s : jsstring) : jsstring :=
  map (fun c => if is_alnum c then c else N_of_ascii "_"%char) s.

(** [25 * 1024 * 1024]. *)
Definition maxSize : N := 25 * 1024 * 1024.

Section SendPdfs.
Context `{Host}.
Variable M : Mailer.

(** [fs.unlinkSync]: it throws when there is no file at [p]; a file that is
    there is removed. *)
Definition unlinkSync (p : jsstring) (st : state) : completion unit * state :=
  match files st p with
  | Some _ => (Normal tt, {| files := disk_unlink p (files st); outbox := outbox st |})
  | None => (Throws (engine_message (NoSuchFile p)), st)
  end.

(** The entries [createZipFromPdfs] hands to the archiver: the PDFs
    present on disk, under their file names. *)
Definition zip_entries (pdfFiles : list Artifact.t) (d : disk)
  : list (json * list N) :=
  flat_map (fun pdf =>
              match d (Artifact.localPath pdf) with
              | Some content => [(Artifact.fileName pdf, content)]
              | None => []
              end) pdfFiles.

(** [createZipFromPdfs]: the output file is created, then holds what the
    archiver wrote; the promise resolves with the archive's byte count when
    the output closes and is rejected by the archive's ['error'].  The
    output stream has no ['error'] listener: when its path cannot be opened
    the file is not created and the process receives an uncaught
    exception. *)
Definition createZipFromPdfs (pdfFiles : list Artifact.t)
  (outputPath : jsstring) (indexContent : jsval) (st : state)
  : settled N * state :=
  let index := if truthy indexContent then indexContent else undefined in
  match archiver M outputPath (zip_entries pdfFiles (files st)) index with
  | ZipClosed size bytes =>
      (Fulfilled size,
       {| files := disk_write outputPath bytes (files st); outbox := outbox st |})
  | ZipError m =>
      (Rejected m,
       {| files := disk_write outputPath [] (files st); outbox := outbox st |})
  | ZipOutputError m => (Uncaught m, st)
  end.

(** One row of the failure table: [item.url.substring(0, 50)] needs a
    string. *)
Definition failed_row (item : Failure.t) : completion (nat * jsstring * json) :=
  match Failure.url item with
  | Some (JStr u) => Normal (Failure.index item, firstn 50 u, Failure.error item)
  | Some JNull => Throws (engine_message (NullRead (js "substring")))
  | None => Throws (engine_message (UndefinedRead (js "substring")))
  | Some _ => Throws (engine_message (NotAFunction (js "item.url.substring")))
  end.

Fixpoint failed_rows (items : list Failure.t)
  : completion (list (nat * jsstring * json)) :=
  match items with
  | [] => Normal []
  | item :: rest =>
      bind (failed_row item) (fun r =>
      bind (failed_rows rest) (fun rs => Normal (r :: rs)))
  end.

Definition generateEmailHtml (results : BatchResult) (folderName : jsstring)
  : completion EmailHtml :=
  bind (failed_rows (failed results)) (fun rows =>
  Normal {| heading := folderName;
            totalCount := total results;
            successCount := List.length (success results);
            failedCount := List.length (failed results);
            failedRows := rows |}).

(** [sendEmailWithZip]: a failure to initialise the transport is thrown, a
    failure of [sendMail] is returned. *)
Definition sendEmailWithZip (recipientEmail subject : jsstring)
  (htmlBody : EmailHtml) (zipPath zipFileName : jsstring) (st : state)
  : completion MailDelivery * state :=
  match bind (initializeEmail M) (fun _ => sender M) with
  | Throws m => (Throws m, st)
  | Normal fromEmail =>
      let mailOptions :=
        {| from := fromEmail; to := recipientEmail; subject := subject;
           html := htmlBody; attachment_filename := zipFileName;
           attachment_path := zipPath |} in
      let st1 := {| files := files st; outbox := outbox st ++ [mailOptions] |} in
      match sendMail M mailOptions with
      | Normal (messageId, response) => (Normal (Sent messageId response), st1)
      | Throws m => (Normal (NotSent m), st1)
      end
  end.

Definition too_large_message (size : N) : jsstring :=
  js "ZIP file too large (" ++ megabytes_toFixed2 size
  ++ js " MB). Maximum is 25MB. Consider using Google Drive delivery instead.".

(** The [catch] block (lines 288-297). *)
Definition on_catch (zipPath : jsstring) (message : jsstring) (st : state)
  : settled MailDelivery * state :=
  match files st zipPath with
  | Some _ =>
      match unlinkSync zipPath st with
      | (Normal _, st1) => (Fulfilled (NotSent message), st1)
      | (Throws m, st1) => (Rejected m, st1)
      end
  | None => (Fulfilled (NotSent message), st)
  end.

Definition zipFileName_of (folderName : jsstring) : jsstring :=
  sanitize folderName ++ js ".zip".

Definition zipPath_of (folderName : jsstring) : jsstring :=
  path_join (tempDir M) (zipFileName_of folderName).

Definition sendPdfsViaEmail (pdfFiles : list Artifact.t)
  (recipientEmail folderName : jsstring) (results : BatchResult)
  (indexContent : jsval) (st : state) : settled MailDelivery * state :=
  match ensure_tempDir M with
  | Throws m => (Rejected m, st)
  | Normal _ =>
      let zipFileName := zipFileName_of folderName in
      let zipPath := zipPath_of folderName in
      match createZipFromPdfs pdfFiles zipPath indexContent st with
      | (Rejected m, st1) => on_catch zipPath m st1
      | (Uncaught m, st1) => (Uncaught m, st1)
      | (Pending, st1) => (Pending, st1)
      | (Fulfilled size, st1) =>
          if (maxSize <? size)%N then
            match unlinkSync zipPath st1 with
            | (Normal _, st2) => (Fulfilled (NotSent (too_large_message size)), st2)
            | (Throws m, st2) => on_catch zipPath m st2
            end
          else
            match generateEmailHtml results folderName with
            | Throws m => on_catch zipPath m st1
            | Normal htmlBody =>
                match sendEmailWithZip recipientEmail
                        (js "Your PDFs are Ready: " ++ folderName)
                        htmlBody zipPath zipFileName st1 with
                | (Throws m, st2) => on_catch zipPath m st2
                | (Normal emailResult, st2) =>
                    match unlinkSync zipPath st2 with
                    | (Normal _, st3) => (Fulfilled emailResult, st3)
                    | (Throws m, st3) => on_catch zipPath m st3
                    end
                end
            end
      end
  end.

End SendPdfs.

End EmailService.

(** ** googleDriveService.js: initializeDrive *)

Module DriveClient.
Import PdfService.

(** The [auth] handed to [google.drive]: a service account key file with its
    scopes, or an OAuth2 client with the token set as its credentials. *)
Inductive Auth : Type :=
| GoogleAuth (keyFile : jsstring) (scopes : list jsstring)
| OAuth2 (client_id client_secret redirect_uri : jsval) (credentials : json).

(** [google.drive({ version, auth })]. *)
Record Client : Type := {
  version : jsstring;
  auth : Auth
}.

(** What [initializeDrive] reads: the environment variable, the files, and
    [path.dirname]. *)
Record Machine : Type := {
  GOOGLE_CREDENTIALS_PATH : option jsstring;
  files : disk;
  path_dirname : jsstring -> jsstring
}.

(** [v[0]]. *)
Definition get_first `{Host} (v : jsval) : completion jsval :=
  match v with
  | None => Throws (engine_message (UndefinedRead (js "0")))
  | Some JNull => Throws (engine_message (NullRead (js "0")))
  | Some (JArr items) => Normal (nth_error items 0)
  | Some (JStr s) =>
      Normal (match s with [] => undefined | c :: _ => Some (JStr [c]) end)
  | Some (JObj ms) => Normal (lookup_member (js "0") ms)
  | Some _ => Normal undefined
  end.

(** [v === 'literal']. *)
Definition is_string (literal : jsstring) (v : jsval) : bool :=
  match v with
  | Some (JStr s) => str_eqb s literal
  | _ => false
  end.

Section InitializeDrive.
Context `{Host}.
Variable M : Machine.

(** [process.env.GOOGLE_CREDENTIALS_PATH || './credentials.json']. *)
Definition credentialsPath : jsstring :=
  match GOOGLE_CREDENTIALS_PATH M with
  | Some (c :: p) => c :: p
  | _ => js "./credentials.json"
  end.

(** [JSON.parse(fs.readFileSync(path, 'utf8'))] of a file known to exist. *)
Definition read_json (path : jsstring) : completion json :=
  match files M path with
  | Some content => JSON_parse content
  | None => Throws (engine_message (NoSuchFile path))
  end.

(** The OAuth2 branch (lines 32-49). *)
Definition oauth_client (installed web : jsval) : completion Auth :=
  let tokenPath := path_join (path_dirname M credentialsPath) (js "token.json") in
  match files M tokenPath with
  | None =>
      Throws (js "OAuth token not found. Run the setup script first to authorize.")
  | Some _ =>
      bind (read_json tokenPath) (fun token =>
      match js_or installed web with
      | Some clientConfig =>
          bind (get_prop clientConfig (js "client_id")) (fun client_id =>
          bind (get_prop clientConfig (js "client_secret")) (fun client_secret =>
          bind (get_prop clientConfig (js "redirect_uris")) (fun redirect_uris =>
          bind (get_first redirect_uris) (fun redirect_uri =>
          Normal (OAuth2 client_id client_secret redirect_uri token)))))
      | None => Throws (engine_message (UndefinedRead (js "client_id")))
      end)
  end.

(** The body of [initializeDrive] after the cache test (lines 14-54). *)
Definition build_client : completion Client :=
  match files M credentialsPath with
  | None =>
      Throws (js "Google credentials file not found at: " ++ credentialsPath)
  | Some _ =>
      bind (read_json credentialsPath) (fun credentials =>
      bind (get_prop credentials (js "type")) (fun type =>
      bind
        (if is_string (js "service_account") type then
           Normal (GoogleAuth credentialsPath
                     [js "https://www.googleapis.com/auth/drive.file"])
         else
           bind (get_prop credentials (js "installed")) (fun installed =>
           bind (get_prop credentials (js "web")) (fun web =>
           if truthy (js_or installed web) then oauth_client installed web
           else Throws (js "Invalid credentials format"))))
        (fun auth => Normal {| version := js "v3"; auth := auth |})))
  end.

(** [initializeDrive], on the module variable [driveClient]: the result and
    the variable afterwards. *)
Definition initializeDrive (driveClient : option Client)
  : completion Client * option Client :=
  match driveClient with
  | Some client => (Normal client, driveClient)
  | None =>
      match build_client with
      | Normal client => (Normal client, Some client)
      | Throws m => (Throws m, None)
      end
  end.

End InitializeDrive.

End DriveClient.

(** ** The page script: counting URLs and polling the job status *)

Module Frontend.
Import PdfService.

(** [countUrls] (lines 29-35). *)
Definition countUrls (text : jsstring) : nat :=
  List.length
    (filter (fun line =>
               let url := trim (nth 0 (split_on (N_of_ascii ","%char) line) []) in
               startsWith (js "http://") url || startsWith (js "https://") url)
       (split_lines text)).

(** The count [handleFileSelect] shows for the content of a file whose
    extension is [ext] (lines 84-97). *)
Definition detected `{Host} (ext content : jsstring) : nat :=
  if str_eqb ext (js "json") then
    match JSON_parse content with
    | Normal (JArr data) => List.length data
    | Normal _ => 0
    | Throws _ => 0
    end
  else countUrls content.

(** What the page does while it polls. *)
Inductive action : Type :=
| Fetch (attempt : nat)       (* fetch of the status URL; attempt counts from 0 *)
| Update (job : json)         (* updateProgress(job) returned *)
| Success (job : json)        (* showSuccess(job) returned *)
| Error (message : json)      (* showError(message) *)
| Wait (ms : nat).            (* setTimeout(poll, ms) *)

(** The status endpoint and the two rendering functions that can throw on a
    job that lacks what they read. *)
Record Page : Type := {
  status_response : nat -> completion json;
  updateProgress : json -> completion unit;
  showSuccess : json -> completion unit
}.

Definition pollInterval : nat := 2000.
Definition maxAttempts : nat := 300.

(** How one call of [poll] leaves: polling again, or done. *)
Inductive next : Type :=
| Again
| Done.

Section PollJobStatus.
Context `{Host}.
Variable P : Page.

(** The [try] block of [poll] (lines 183-197) at the given [attempts]. *)
Definition poll_try (attempts : nat) (seen : list action)
  : completion next * list action :=
  let seen1 := seen ++ [Fetch attempts] in
  match status_response P attempts with
  | Throws m => (Throws m, seen1)
  | Normal job =>
      match updateProgress P job with
      | Throws m => (Throws m, seen1)
      | Normal _ =>
          let seen2 := seen1 ++ [Update job] in
          match get_prop job (js "status") with
          | Throws m => (Throws m, seen2)
          | Normal status =>
              if DriveClient.is_string (js "completed") status then
                match showSuccess P job with
                | Throws m => (Throws m, seen2)
                | Normal _ => (Normal Done, seen2 ++ [Success job])
                end
              else if DriveClient.is_string (js "failed") status then
                match get_prop job (js "error") with
                | Throws m => (Throws m, seen2)
                | Normal error =>
                    (Normal Done,
                     seen2 ++ [Error (or_else error (JStr (js "Conversion failed")))])
                end
              else if attempts <? maxAttempts then
                (Normal Again, seen2 ++ [Wait pollInterval])
              else
                (Normal Done, seen2 ++ [Error (JStr (js "Conversion timed out"))])
          end
      end
  end.

(** [poll] and the calls of itself it schedules; [None] when the fuel runs
    out. *)
Fixpoint poll (fuel attempts : nat) (seen : list action) : option (list action) :=
  match fuel with
  | 0 => None
  | S fuel' =>
      match poll_try attempts seen with
      | (Normal Again, seen1) => poll fuel' (S attempts) seen1
      | (Normal Done, seen1) => Some seen1
      | (Throws m, seen1) => Some (seen1 ++ [Error (JStr m)])
      end
  end.

Definition pollJobStatus : option (list action) :=
  poll (S maxAttempts) 0 [].

End PollJobStatus.

End Frontend.

(** ** Views used by the statements *)

Module Views.
Import PdfService.

(** The first comma-separated field of a line, trimmed. *)
Definition first_field (line : jsstring) : jsstring :=
  trim (hd [] (split_on (N_of_ascii ","%char) line)).

(** The line's first field begins with a recognised scheme. *)
Definition accepted (line : jsstring) : bool :=
  startsWith (js "http://") (first_field line)
  || startsWith (js "https://") (first_field line).

(** The [n]-th comma-separated field, trimmed, when present and not empty. *)
Definition field (n : nat) (line : jsstring) : option jsstring :=
  match nth_error (map trim (split_on (N_of_ascii ","%char) line)) n with
  | Some (c :: s) => Some (c :: s)
  | _ => None
  end.

(** What a callback that pushes zero or more items leaves behind, element by
    element. *)
Fixpoint collect {A B : Type} (g : A -> nat -> list B) (idx : nat) (l : list A)
  : list B :=
  match l with
  | [] => []
  | a :: rest => g a idx ++ collect g (S idx) rest
  end.

(** The item of an accepted line at position [idx] among the non-blank
    lines. *)
Definition line_item (line : jsstring) (idx : nat) : WorkItem :=
  {| url := Some (JStr (first_field line));
     label := Some (JStr (match field 1 line with Some s => s | None => [] end));
     fileName := Some (JStr (match field 2 line with
                             | Some s => s
                             | None => default_name (idx + 1)
                             end)) |}.

Definition line_items (line : jsstring) (idx : nat) : list WorkItem :=
  if accepted line then [line_item line idx] else [].

(** A decoded element that [parseUrls] keeps: a string, or an object whose
    [url] is truthy. *)
Definition usable (item : json) : bool :=
  match item with
  | JStr _ => true
  | JObj ms => truthy (lookup_member (js "url") ms)
  | _ => false
  end.

(** A decoded element that names its file itself. *)
Definition named (item : json) : bool :=
  match item with
  | JObj ms => truthy (js_or (lookup_member (js "fileName") ms)
                         (lookup_member (js "name") ms))
  | _ => false
  end.

Definition is_array (v : json) : bool :=
  match v with
  | JArr _ => true
  | _ => false
  end.

Definition is_null (v : json) : bool :=
  match v with
  | JNull => true
  | _ => false
  end.

(** The item of a usable element at position [idx] of the decoded array. *)
Definition element_item (item : json) (idx : nat) : WorkItem :=
  match item with
  | JObj ms =>
      {| url := lookup_member (js "url") ms;
         label := Some (or_else (js_or (lookup_member (js "label") ms)
                                   (lookup_member (js "description") ms))
                          (JStr []));
         fileName := Some (or_else (js_or (lookup_member (js "fileName") ms)
                                      (lookup_member (js "name") ms))
                             (JStr (default_name (idx + 1)))) |}
  | _ =>
      {| url := Some item;
         label := undefined;
         fileName := Some (JStr (default_name (idx + 1))) |}
  end.

Definition element_items (item : json) (idx : nat) : list WorkItem :=
  if usable item then [element_item item idx] else [].

(** The callback, if there is one, returns normally on every event. *)
Definition returns (onProgress : option callback) : Prop :=
  forall f p, onProgress = Some f -> f p = None.

(** The promise of the item at [index] settles and nothing ends the process
    on its way: the request to the rendering service is refused, answered to
    its end, fails or times out; and the download, when there is one, is
    fulfilled or rejected, on a path that can be opened.  What this leaves
    out is a response cut before its end, a redirect without [Location] or
    to a string [get] refuses, and a path that cannot be opened.  The
    outcome of a download does not depend on the staging directory, so it is
    read on an empty one. *)
Definition settles `{Host} (W : World) (outputDir : jsstring) (index : nat)
  (item : WorkItem) : bool :=
  let name := or_else (fileName item) (JStr (default_name index)) in
  match convertUrlToPdf (key W) (api W index) (url item) name with
  | Fulfilled (ConvSuccess fileUrl _) =>
      match name with
      | JStr n =>
          let d := downloadPdf (web W) (opening W) fileUrl
                     (path_join outputDir n) (fun _ => None) in
          match fault d, outcome d with
          | None, Fulfilled _ => true
          | None, Rejected _ => true
          | _, _ => false
          end
      | _ => true
      end
  | Fulfilled (ConvFailure _ _) => true
  | Rejected _ => true
  | Uncaught _ => false
  | Pending => false
  end.

(** Every item of the input settles. *)
Definition steady `{Host} (W : World) (outputDir : jsstring)
  (urls : list WorkItem) : Prop :=
  forall k item, nth_error urls k = Some item ->
    settles W outputDir (k + 1) item = true.

(** The record an item ends as, when it [settles]: an entry of [success] or
    of [failed]. *)
Definition verdict `{Host} (W : World) (outputDir : jsstring) (index : nat)
  (item : WorkItem) : Artifact.t + Failure.t :=
  let name := or_else (fileName item) (JStr (default_name index)) in
  let failure error :=
    inr {| Failure.index := index;
           Failure.url := url item;
           Failure.fileName := name;
           Failure.error := error;
           Failure.label := or_else (label item) (JStr []) |} in
  match convertUrlToPdf (key W) (api W index) (url item) name with
  | Fulfilled (ConvSuccess fileUrl _) =>
      match name with
      | JStr n =>
          match outcome (downloadPdf (web W) (opening W) fileUrl
                           (path_join outputDir n) (fun _ => None)) with
          | Fulfilled _ =>
              inl {| Artifact.index := index;
                     Artifact.url := url item;
                     Artifact.fileName := name;
                     Artifact.localPath := path_join outputDir n;
                     Artifact.label := or_else (label item) (JStr []) |}
          | Rejected m => failure (JStr m)
          | Uncaught m => failure (JStr m)
          | Pending => failure (JStr [])
          end
      | _ => failure (JStr (engine_message (PathArgument name)))
      end
  | Fulfilled (ConvFailure error _) => failure error
  | Rejected m => failure (JStr m)
  | Uncaught m => failure (JStr m)
  | Pending => failure (JStr [])
  end.

Definition verdict_index (v : Artifact.t + Failure.t) : nat :=
  match v with
  | inl a => Artifact.index a
  | inr f => Failure.index f
  end.

Fixpoint lefts {A B : Type} (l : list (A + B)) : list A :=
  match l with
  | [] => []
  | inl a :: rest => a :: lefts rest
  | inr _ :: rest => lefts rest
  end.

Fixpoint rights {A B : Type} (l : list (A + B)) : list B :=
  match l with
  | [] => []
  | inl _ :: rest => rights rest
  | inr b :: rest => b :: rights rest
  end.

(** The values [i] takes in the loop over [n] items from [i] on. *)
Definition starts_from (n i : nat) : list nat :=
  map (fun k => i + batchSize * k) (seq 0 (ceil_div (n - i) batchSize)).

Definition starts (n : nat) : list nat := starts_from n 0.

(** The 1-based indices of the batch that begins at [i]. *)
Definition batch_indices (n i : nat) : list nat :=
  seq (i + 1) (Nat.min batchSize (n - i)).

Definition is_progress (e : event) : bool :=
  match e with
  | Progress _ => true
  | _ => false
  end.

Definition is_sleep (e : event) : bool :=
  match e with
  | Sleep _ => true
  | _ => false
  end.

(** The log without the calls of the callback. *)
Definition skeleton (l : list event) : list event :=
  filter (fun e => negb (is_progress e)) l.

(** What the batch that begins at [i] does: every request is issued, then
    every item settles, in the order of the instants [finish] gives, then
    the run sleeps unless the batch is the last. *)
Definition batch_schedule (W : World) (n i : nat) : list event :=
  map Request (batch_indices n i)
  ++ map Settled (sort_by (finish W) (batch_indices n i))
  ++ (if i + batchSize <? n then [Sleep delayBetweenBatches] else []).

Definition schedule (W : World) (n : nat) : list event :=
  flat_map (batch_schedule W n) (starts n).

(** The items of the batch that begins at [i], with their 1-based index, in
    the order in which they settle. *)
Definition batch_settled (W : World) (urls : list WorkItem) (i : nat)
  : list (nat * WorkItem) :=
  sort_by (fun e => finish W (fst e))
    (combine (batch_indices (List.length urls) i) (slice i (i + batchSize) urls)).

Definition settled_order (W : World) (urls : list WorkItem)
  : list (nat * WorkItem) :=
  flat_map (batch_settled W urls) (starts (List.length urls)).

(** The records of the batch that begins at [i], and of the run, in the order
    in which they are pushed. *)
Definition batch_verdicts `{Host} (W : World) (urls : list WorkItem)
  (outputDir : jsstring) (i : nat) : list (Artifact.t + Failure.t) :=
  map (fun e => verdict W outputDir (fst e) (snd e)) (batch_settled W urls i).

Definition verdicts `{Host} (W : World) (urls : list WorkItem)
  (outputDir : jsstring) : list (Artifact.t + Failure.t) :=
  map (fun e => verdict W outputDir (fst e) (snd e)) (settled_order W urls).

(** From [st] to [st'] the records [vs] were pushed, in this order, and the
    events [evs] logged besides the calls of the callback. *)
Definition adds (st st' : state) (vs : list (Artifact.t + Failure.t))
  (evs : list event) : Prop :=
  success (results st') = success (results st) ++ lefts vs
  /\ failed (results st') = failed (results st) ++ rights vs
  /\ total (results st') = total (results st)
  /\ skeleton (log st') = skeleton (log st) ++ evs.

(** The entry of [uploadResults] for the [nth] upload. *)
Definition upload_result (G : GoogleDriveService.Drive) (folderId : jsval)
  (nth : nat) (pdf : Artifact.t) : GoogleDriveService.UploadResult :=
  match GoogleDriveService.uploadFile G nth (Artifact.localPath pdf)
          (Artifact.fileName pdf) folderId with
  | Normal result =>
      GoogleDriveService.Uploaded (Artifact.fileName pdf)
        (GoogleDriveService.id result) (GoogleDriveService.webViewLink result)
  | Throws m => GoogleDriveService.NotUploaded (Artifact.fileName pdf) m
  end.

(** The [nth] upload fails. *)
Definition upload_fails (G : GoogleDriveService.Drive) (folderId : jsval)
  (e : nat * Artifact.t) : bool :=
  match GoogleDriveService.uploadFile G (fst e) (Artifact.localPath (snd e))
          (Artifact.fileName (snd e)) folderId with
  | Normal _ => false
  | Throws _ => true
  end.

Definition result_fileName (r : GoogleDriveService.UploadResult) : json :=
  match r with
  | GoogleDriveService.Uploaded f _ _ => f
  | GoogleDriveService.NotUploaded f _ => f
  end.

(** The path an item is downloaded to, when its file name is a string. *)
Definition item_targets `{Host} (outputDir : jsstring) (e : nat * WorkItem)
  : list jsstring :=
  match or_else (fileName (snd e)) (JStr (default_name (fst e))) with
  | JStr name => [path_join outputDir name]
  | _ => []
  end.

(** The paths a run may write, in input order. *)
Definition targets `{Host} (outputDir : jsstring) (urls : list WorkItem)
  : list jsstring :=
  flat_map (item_targets outputDir) (combine (seq 1 (List.length urls)) urls).

(** Every artifact recorded so far is on disk, and none of the paths in
    [rest] is the path of one. *)
Definition staged (st : state) (rest : list jsstring) : Prop :=
  forall a, In a (success (results st)) ->
    files st (Artifact.localPath a) <> None /\ ~ In (Artifact.localPath a) rest.

(** The arguments the callback was called with, in order. *)
Definition calls (l : list event) : list progress :=
  flat_map (fun e => match e with Progress p => [p] | _ => [] end) l.

(** What a callback hears of [ps]: all of it, or nothing when there is no
    callback. *)
Definition heard (onProgress : option callback) (ps : list progress)
  : list progress :=
  match onProgress with
  | Some _ => ps
  | None => []
  end.

(** The event that goes with a record. *)
Definition item_event (v : Artifact.t + Failure.t) : progress :=
  match v with
  | inl a => ItemSuccess (Artifact.index a) (Artifact.fileName a) (Artifact.url a)
  | inr f =>
      ItemFailed (Failure.index f) (Failure.fileName f) (Failure.url f)
        (Failure.error f)
  end.

Definition success_calls (ps : list progress) : list (nat * json * jsval) :=
  flat_map (fun p => match p with
                     | ItemSuccess index fileName url => [(index, fileName, url)]
                     | _ => []
                     end) ps.

Definition failed_calls (ps : list progress) : list (nat * json * jsval * json) :=
  flat_map (fun p => match p with
                     | ItemFailed index fileName url error =>
                         [(index, fileName, url, error)]
                     | _ => []
                     end) ps.

Definition batch_calls (ps : list progress) : list (nat * nat * nat * nat) :=
  flat_map (fun p => match p with
                     | BatchStart current total processed totalUrls =>
                         [(current, total, processed, totalUrls)]
                     | _ => []
                     end) ps.

(** The value is not a string. *)
Definition not_string (v : jsval) : bool :=
  match v with
  | Some (JStr _) => false
  | _ => true
  end.

Definition is_fetch (a : Frontend.action) : bool :=
  match a with
  | Frontend.Fetch _ => true
  | _ => false
  end.

Definition is_wait (a : Frontend.action) : bool :=
  match a with
  | Frontend.Wait _ => true
  | _ => false
  end.

(** The page shows the end of the job: success or an error. *)
Definition is_shown (a : Frontend.action) : bool :=
  match a with
  | Frontend.Success _ | Frontend.Error _ => true
  | _ => false
  end.

(** The fetches and the waits of a log. *)
Definition is_paced (a : Frontend.action) : bool := is_fetch a || is_wait a.

(** [n] fetches from attempt [from] on, each followed by a wait, and one
    more fetch. *)
Definition paced (from n : nat) : list Frontend.action :=
  flat_map (fun k => [Frontend.Fetch k; Frontend.Wait Frontend.pollInterval])
    (seq from n)
  ++ [Frontend.Fetch (from + n)].

(** The mail [sendPdfsViaEmail] composes for the address [fromEmail] and the
    body [htmlBody]. *)
Definition composed `{Host} (M : EmailService.Mailer)
  (recipientEmail folderName : jsstring) (fromEmail : jsval)
  (htmlBody : EmailService.EmailHtml) : EmailService.MailOptions :=
  {| EmailService.from := fromEmail;
     EmailService.to := recipientEmail;
     EmailService.subject := js "Your PDFs are Ready: " ++ folderName;
     EmailService.html := htmlBody;
     EmailService.attachment_filename := EmailService.zipFileName_of folderName;
     EmailService.attachment_path := EmailService.zipPath_of M folderName |}.

(** The job neither completes nor fails at any of the attempts, and the
    page can render it. *)
Definition pending `{Host} (P : Frontend.Page) : Prop :=
  forall k, k <= Frontend.maxAttempts ->
    exists job status,
      Frontend.status_response P k = Normal job
      /\ Frontend.updateProgress P job = Normal tt
      /\ get_prop job (js "status") = Normal status
      /\ DriveClient.is_string (js "completed") status = false
      /\ DriveClient.is_string (js "failed") status = false.

(** The number a sequence of decimal digits denotes, after [acc]. *)
Fixpoint digits_value (digits : jsstring) (acc : nat) : nat :=
  match digits with
  | [] => acc
  | c :: rest => digits_value rest (10 * acc + N.to_nat (c - 48))
  end.

(** The position a default file name was made from: the digits between
    [PDF_] and [.pdf]. *)
Definition name_index (name : jsstring) : option nat :=
  if startsWith (js "PDF_") name && startsWith (rev (js ".pdf")) (rev name) then
    Some (digits_value (firstn (List.length name - 8) (skipn 4 name)) 0)
  else None.

End Views.

(** ** Sample documents and a host that decodes them *)

Module Samples.
Import PdfService.

Definition lf : string := String "010"%char EmptyString.
Definition dq : string := String "034"%char EmptyString.

(** [["https://a.com", {"url":"https://b.com","fileName":"b.pdf"}]] *)
Definition two_items_text : jsstring :=
  js ("[" ++ dq ++ "https://a.com" ++ dq ++ ", {" ++ dq ++ "url" ++ dq ++ ":"
      ++ dq ++ "https://b.com" ++ dq ++ "," ++ dq ++ "fileName" ++ dq ++ ":"
      ++ dq ++ "b.pdf" ++ dq ++ "}]")%string.

Definition two_items : json :=
  JArr [ JStr (js "https://a.com");
         JObj [ (js "url", JStr (js "https://b.com"));
                (js "fileName", JStr (js "b.pdf")) ] ].

(** [[{"label":"x"}, null]] *)
Definition with_null_text : jsstring :=
  js ("[{" ++ dq ++ "label" ++ dq ++ ":" ++ dq ++ "x" ++ dq ++ "}, null]")%string.

Definition with_null : json :=
  JArr [ JObj [ (js "label", JStr (js "x")) ]; JNull ].

(** [[{"label":"x"}, "https://a.com"]] *)
Definition with_gap_text : jsstring :=
  js ("[{" ++ dq ++ "label" ++ dq ++ ":" ++ dq ++ "x" ++ dq ++ "}, "
      ++ dq ++ "https://a.com" ++ dq ++ "]")%string.

Definition with_gap : json :=
  JArr [ JObj [ (js "label", JStr (js "x")) ]; JStr (js "https://a.com") ].

(** [{"url":"https://a.com"}] *)
Definition lone_object_text : jsstring :=
  js ("{" ++ dq ++ "url" ++ dq ++ ":" ++ dq ++ "https://a.com" ++ dq ++ "}")%string.

Definition lone_object : json :=
  JObj [ (js "url", JStr (js "https://a.com")) ].

(** [{"FileUrl":"https://cdn.example/out.pdf"}] *)
Definition file_url_text : jsstring :=
  js ("{" ++ dq ++ "FileUrl" ++ dq ++ ":" ++ dq ++ "https://cdn.example/out.pdf"
      ++ dq ++ "}")%string.

Definition file_url : json :=
  JObj [ (js "FileUrl", JStr (js "https://cdn.example/out.pdf")) ].

(** [{"FileUrl":"https://cdn.example/gone.pdf"}] *)
Definition gone_url_text : jsstring :=
  js ("{" ++ dq ++ "FileUrl" ++ dq ++ ":" ++ dq ++ "https://cdn.example/gone.pdf"
      ++ dq ++ "}")%string.

Definition gone_url : json :=
  JObj [ (js "FileUrl", JStr (js "https://cdn.example/gone.pdf")) ].

Definition documents : list (jsstring * json) :=
  [ (two_items_text, two_items);
    (gone_url_text, gone_url);
    (with_null_text, with_null);
    (with_gap_text, with_gap);
    (lone_object_text, lone_object);
    (file_url_text, file_url) ].

Fixpoint decode (table : list (jsstring * json)) (text : jsstring)
  : completion json :=
  match table with
  | [] => Throws (js "Unexpected token")
  | (t, v) :: rest => if str_eqb text t then Normal v else decode rest text
  end.

(** A host that decodes the sample documents as [JSON.parse] does and
    rejects any other text, joins paths with a slash, names a fault by the
    property, callee or header involved, and rounds a size in megabytes to
    the nearest hundredth. *)
Definition host : Host := {|
  JSON_parse := decode documents;
  engine_message := fun f =>
    match f with
    | NullRead p => js "Cannot read properties of null (reading '" ++ p ++ js "')"
    | UndefinedRead p =>
        js "Cannot read properties of undefined (reading '" ++ p ++ js "')"
    | NotAFunction c => c ++ js " is not a function"
    | PathArgument _ => js "The path argument must be of type string"
    | NoSuchFile p => js "ENOENT: no such file or directory, unlink '" ++ p ++ js "'"
    | InvalidHeaderValue n =>
        js "Invalid value " ++ js dq ++ js "undefined" ++ js dq ++ js " for header "
        ++ js dq ++ n ++ js dq
    | InvalidHeaderChar n =>
        js "Invalid character in header content [" ++ js dq ++ n ++ js dq ++ js "]"
    end;
  path_join := fun a b => a ++ js "/" ++ b;
  megabytes_toFixed2 := fun n =>
    let hundredths := ((n * 100 + 524288) / 1048576)%N in
    String_of_N (hundredths / 100) ++ js "."
    ++ padStart0 2 (String_of_N (hundredths mod 100))
|}.

(** A rendered artifact that has moved twice: the first address redirects
    to a second one, which redirects again. *)
Definition artifact_url : jsstring := js "https://cdn.example/out.pdf".
Definition moved_url : jsstring := js "https://cdn.example/moved".

Definition twice_moved : network := fun u =>
  if str_eqb u artifact_url then
    HttpResponse 302 (Some moved_url) (js "Found")
  else if str_eqb u moved_url then
    HttpResponse 302 (Some (js "https://cdn.example/moved-again")) (js "Found again")
  else HttpResponse 200 None (js "%PDF-1.7").

(** The same first hop, with a target that is gone. *)
Definition moved_and_gone : network := fun u =>
  if str_eqb u artifact_url then
    HttpResponse 302 (Some moved_url) (js "Found")
  else HttpResponse 404 None (js "Not Found").

Definition empty_disk : disk := fun _ => None.

(** Every path can be opened. *)
Definition open_paths : opener := fun _ => None.

Definition page (n : nat) : WorkItem :=
  {| url := Some (JStr (js "https://a.com/" ++ String_of_nat n));
     label := undefined;
     fileName := undefined |}.

Definition twelve_pages : list WorkItem := map page (seq 1 12).

(** A world in which the conversion of the third item times out, the
    artifact of the seventh is gone when it is fetched, and within a batch
    the later an item is requested the sooner it settles. *)
Definition world : World :=
  {| key := Some (js "sample-key");
     api := fun index =>
       if Nat.eqb index 3 then ApiTimeout
       else if Nat.eqb index 7 then ApiResponse 200 gone_url_text
       else ApiResponse 200 file_url_text;
     web := fun u =>
       if str_eqb u (js "https://cdn.example/gone.pdf")
       then HttpResponse 404 None (js "Not Found")
       else HttpResponse 200 None (js "%PDF-1.7");
     opening := open_paths;
     finish := fun index => 20 - index |}.

(** A world in which every conversion succeeds and the artifact has moved
    without leaving an address: a 302 with no [Location]. *)
Definition astray : World :=
  {| key := Some (js "sample-key");
     api := fun _ => ApiResponse 200 file_url_text;
     web := fun _ => HttpResponse 302 None [];
     opening := open_paths;
     finish := fun index => index |}.

(** A world in which every conversion succeeds and the artifact has moved
    to a relative address, which [get] refuses. *)
Definition relative_url : jsstring := js "/files/out.pdf".

Definition moved_nearby : World :=
  {| key := Some (js "sample-key");
     api := fun _ => ApiResponse 200 file_url_text;
     web := fun u =>
       if str_eqb u relative_url then HttpRefused (js "Invalid URL")
       else HttpResponse 302 (Some relative_url) [];
     opening := open_paths;
     finish := fun index => index |}.

(** A callback that returns on every event. *)
Definition listener : option callback := Some (fun _ => None).

(** A callback that throws when it hears of a success. *)
Definition touchy : option callback :=
  Some (fun p => match p with
                 | ItemSuccess _ _ _ => Some (js "listener failed")
                 | _ => None
                 end).

Definition artifact (n : nat) : Artifact.t :=
  {| Artifact.index := n;
     Artifact.url := Some (JStr (js "https://a.com"));
     Artifact.fileName := JStr (default_name n);
     Artifact.localPath := js "out/" ++ default_name n;
     Artifact.label := JStr [] |}.

Definition ten_artifacts : list Artifact.t := map artifact (seq 1 10).

Definition folder_data : GoogleDriveService.FileData :=
  {| GoogleDriveService.id := Some (JStr (js "folder-1"));
     GoogleDriveService.name := Some (JStr (js "Batch"));
     GoogleDriveService.webViewLink := Some (JStr (js "https://drive.example/folder-1")) |}.

(** A storage service on which the fourth and the eighth upload fail. *)
Definition flaky_drive : GoogleDriveService.Drive :=
  {| GoogleDriveService.initializeDrive := Normal tt;
     GoogleDriveService.files_create_folder := fun _ => Normal folder_data;
     GoogleDriveService.files_create_media := fun nth _ fileName _ =>
       if Nat.eqb nth 3 || Nat.eqb nth 7 then Throws (js "Rate limit exceeded")
       else Normal {| GoogleDriveService.id := Some (JStr (String_of_nat nth));
                      GoogleDriveService.name := Some fileName;
                      GoogleDriveService.webViewLink := undefined |};
     GoogleDriveService.permissions_create := fun _ _ _ => Normal tt;
     GoogleDriveService.files_get := fun _ =>
       Normal (Some (JStr (js "https://drive.example/folder-1"))) |}.

(** A mail world whose archiver reports [size] bytes. *)
Definition mailer (size : N) : EmailService.Mailer :=
  {| EmailService.tempDir := js "temp";
     EmailService.ensure_tempDir := Normal tt;
     EmailService.archiver := fun _ _ _ => EmailService.ZipClosed size (js "PK");
     EmailService.initializeEmail := Normal tt;
     EmailService.sender := Normal (Some (JStr (js "noreply@example.com")));
     EmailService.sendMail := fun _ =>
       Normal (Some (JStr (js "<1@example.com>")), Some (JStr (js "250 OK"))) |}.

Definition no_results : BatchResult :=
  {| success := []; failed := []; total := 0 |}.

Definition fresh : EmailService.state :=
  {| EmailService.files := empty_disk; EmailService.outbox := [] |}.

End Samples.

(** ** A machine with OAuth credentials and a page that waits *)

Module Fixtures.
Import PdfService.

(** [{"installed":{"client_id":"id","client_secret":"s","redirect_uris":["http://localhost"]}}] *)
Definition credentials_text : jsstring :=
  js ("{" ++ Samples.dq ++ "installed" ++ Samples.dq ++ ":{"
      ++ Samples.dq ++ "client_id" ++ Samples.dq ++ ":"
      ++ Samples.dq ++ "id" ++ Samples.dq ++ ","
      ++ Samples.dq ++ "client_secret" ++ Samples.dq ++ ":"
      ++ Samples.dq ++ "s" ++ Samples.dq ++ ","
      ++ Samples.dq ++ "redirect_uris" ++ Samples.dq ++ ":["
      ++ Samples.dq ++ "http://localhost" ++ Samples.dq ++ "]}}")%string.

Definition credentials : json :=
  JObj [ (js "installed",
          JObj [ (js "client_id", JStr (js "id"));
                 (js "client_secret", JStr (js "s"));
                 (js "redirect_uris", JArr [JStr (js "http://localhost")]) ]) ].

(** [{"refresh_token":"r"}] *)
Definition token_text : jsstring :=
  js ("{" ++ Samples.dq ++ "refresh_token" ++ Samples.dq ++ ":"
      ++ Samples.dq ++ "r" ++ Samples.dq ++ "}")%string.

Definition token : json := JObj [ (js "refresh_token", JStr (js "r")) ].

(** A host that decodes the two files above and is the sample host
    otherwise. *)
Definition host : Host := {|
  JSON_parse := Samples.decode [ (credentials_text, credentials);
                                 (token_text, token) ];
  engine_message := @engine_message Samples.host;
  path_join := @path_join Samples.host;
  megabytes_toFixed2 := @megabytes_toFixed2 Samples.host
|}.

(** A machine with both files beside each other. *)
Definition machine : DriveClient.Machine :=
  {| DriveClient.GOOGLE_CREDENTIALS_PATH := None;
     DriveClient.files := fun p =>
       if str_eqb p (js "./credentials.json") then Some credentials_text
       else if str_eqb p (js "./token.json") then Some token_text
       else None;
     DriveClient.path_dirname := fun _ => js "." |}.

(** A machine without any file. *)
Definition bare_machine : DriveClient.Machine :=
  {| DriveClient.GOOGLE_CREDENTIALS_PATH := Some (js "/etc/creds.json");
     DriveClient.files := fun _ => None;
     DriveClient.path_dirname := fun _ => js "/etc" |}.

(** A job that is still processing, and a page whose job never ends. *)
Definition processing_job : json :=
  JObj [ (js "status", JStr (js "processing")); (js "logs", JArr []) ].

Definition waiting_page : Frontend.Page :=
  {| Frontend.status_response := fun _ => Normal processing_job;
     Frontend.updateProgress := fun _ => Normal tt;
     Frontend.showSuccess := fun _ => Normal tt |}.

(** A failed record whose url is a number, as [{"url": 5}] leaves it. *)
Definition numbered_url : Failure.t :=
  {| Failure.index := 1;
     Failure.url := Some (JNum (S754_finite false 5%positive Z0));
     Failure.fileName := JStr (js "PDF_001.pdf");
     Failure.error := JStr (js "Unknown API error");
     Failure.label := JStr [] |}.

Definition one_failed : BatchResult :=
  {| success := []; failed := [numbered_url]; total := 1 |}.

End Fixtures.

(** * Properties *)

(** ** Strings *)

Section Strings.

Lemma str_eqb_refl (s : jsstring) : str_eqb s s = true.
Proof. unfold str_eqb. destruct (list_eq_dec N.eq_dec s s); congruence. Qed.

Lemma trimStart_blank (s : jsstring) :
  forallb is_space s = true -> trimStart s = [].
Proof.
  induction s as [|c s IH]; simpl; [reflexivity|].
  intros Hs. apply andb_true_iff in Hs as [Hc Hs]. rewrite Hc. auto.
Qed.

Lemma trim_blank (s : jsstring) : forallb is_space s = true -> trim s = [].
Proof. intros Hs. unfold trim. rewrite (trimStart_blank s Hs). reflexivity. Qed.

Lemma trimStart_nil (s : jsstring) :
  trimStart s = [] -> forallb is_space s = true.
Proof.
  induction s as [|c s IH]; simpl; [reflexivity|].
  destruct (is_space c); [auto | discriminate].
Qed.

Lemma trim_nil (s : jsstring) : trim s = [] -> forallb is_space s = true.
Proof.
  unfold trim. intros Ht.
  assert (Hr : trimStart (rev (trimStart s)) = []).
  { rewrite <- (rev_involutive (trimStart _)), Ht. reflexivity. }
  apply trimStart_nil in Hr. rewrite forallb_forall in Hr.
  destruct (trimStart s) as [|c r] eqn:E; [now apply trimStart_nil|].
  exfalso.
  assert (Hc : is_space c = true) by (apply Hr, in_rev; rewrite rev_involutive; now left).
  clear Hr Ht. induction s as [|x s IH]; simpl in E; [discriminate|].
  destruct (is_space x) eqn:Ex; [auto|]. congruence.
Qed.

Lemma split_on_hd_incl (sep : N) (s : jsstring) (c : N) :
  In c (hd [] (split_on sep s)) -> In c s.
Proof.
  induction s as [|x s IH]; simpl; [tauto|].
  destruct (N.eqb x sep); simpl; [tauto|].
  destruct (split_on sep s) as [|p ps]; simpl in *; intuition.
Qed.

Lemma nth0_map_trim (parts : list jsstring) :
  nth 0 (map trim parts) [] = trim (hd [] parts).
Proof. destruct parts; reflexivity. Qed.

Lemma startsWith_nonempty (p s : jsstring) :
  p <> [] -> startsWith p s = true -> s <> [].
Proof. destruct p, s; simpl; congruence. Qed.

End Strings.

(** ** parseUrls, plain text *)

Section ParseText.
Import PdfService Views.
Context `{Host}.

Lemma forEach_collect {A B : Type} (f : A -> nat -> list B -> completion (list B))
  (g : A -> nat -> list B) (P : A -> Prop) :
  (forall a i s, P a -> f a i s = Normal (s ++ g a i)) ->
  forall l idx s, Forall P l ->
    forEach f idx l s = Normal (s ++ collect g idx l).
Proof.
  intros Hf. induction l as [|a l IH]; intros idx s Hl; simpl.
  - now rewrite app_nil_r.
  - inversion Hl; subst. rewrite Hf by assumption. simpl.
    rewrite IH by assumption. now rewrite app_assoc.
Qed.

Lemma collect_app {A B : Type} (g : A -> nat -> list B) (l1 l2 : list A) (idx : nat) :
  collect g idx (l1 ++ l2)
  = collect g idx l1 ++ collect g (idx + List.length l1) l2.
Proof.
  revert idx. induction l1 as [|a l1 IH]; intros idx; simpl.
  - now rewrite Nat.add_0_r.
  - rewrite IH, app_assoc. do 2 f_equal. lia.
Qed.

(** When every element contributes one item or none, the item of the
    element at [idx] sits after the items of the kept elements before it. *)
Lemma collect_nth {A B : Type} (g : A -> nat -> list B) (keeps : A -> bool)
  (h : A -> nat -> B) :
  (forall a i, g a i = if keeps a then [h a i] else []) ->
  forall l i0 idx a,
    nth_error l idx = Some a -> keeps a = true ->
    nth_error (collect g i0 l) (List.length (filter keeps (firstn idx l)))
    = Some (h a (i0 + idx)).
Proof.
  intros Hg. induction l as [|x l IH]; intros i0 idx a Hn Hk.
  - destruct idx; discriminate.
  - destruct idx as [|idx]; simpl in *.
    + injection Hn as ->. rewrite Hg, Hk, Nat.add_0_r. reflexivity.
    + rewrite Hg. destruct (keeps x); simpl.
      * rewrite (IH (S i0) idx a Hn Hk). f_equal. f_equal. lia.
      * rewrite (IH (S i0) idx a Hn Hk). f_equal. f_equal. lia.
Qed.

Lemma accepted_first_field (line : jsstring) :
  accepted line = true -> first_field line <> [].
Proof.
  unfold accepted. intros Ha. apply orb_true_iff in Ha as [Ha|Ha];
    eapply startsWith_nonempty; try exact Ha; discriminate.
Qed.

Lemma accepted_nonblank (line : jsstring) :
  accepted line = true -> truthy (Some (JStr (trim line))) = true.
Proof.
  intros Ha. apply accepted_first_field in Ha. simpl.
  destruct (trim line) eqn:E; [|reflexivity].
  exfalso. apply Ha. apply trim_nil in E. unfold first_field.
  apply trim_blank. rewrite forallb_forall in *. intros c Hc.
  apply E. eapply split_on_hd_incl, Hc.
Qed.

Lemma text_line_items (line : jsstring) (idx : nat) (urls : list WorkItem) :
  text_line line idx urls = Normal (urls ++ line_items line idx).
Proof.
  unfold text_line, line_items, line_item, accepted, first_field, field.
  rewrite nth0_map_trim.
  set (parts := split_on _ line).
  destruct (trim (hd [] parts)) as [|c u] eqn:Eu.
  - simpl. now rewrite app_nil_r.
  - cbn [truthy truthy_json andb].
    destruct (startsWith _ (c :: u) || startsWith _ (c :: u)); [|now rewrite app_nil_r].
    do 3 f_equal. f_equal.
    + destruct (nth_error (map trim parts) 1) as [[|? ?]|]; reflexivity.
    + destruct (nth_error (map trim parts) 2) as [[|? ?]|]; reflexivity.
Qed.

Lemma filter_accepted_nonblank (lines : list jsstring) :
  filter accepted (filter (fun line => truthy (Some (JStr (trim line)))) lines)
  = filter accepted lines.
Proof.
  induction lines as [|l ls IH]; cbn [filter]; [reflexivity|].
  destruct (accepted l) eqn:Ea.
  - rewrite (accepted_nonblank l Ea). cbn [filter]. rewrite Ea, IH. reflexivity.
  - destruct (truthy _); cbn [filter]; [rewrite Ea|]; exact IH.
Qed.

Lemma collect_line_items_url (lines : list jsstring) (idx : nat) :
  map url (collect line_items idx lines)
  = map (fun l => Some (JStr (first_field l))) (filter accepted lines).
Proof.
  revert idx. induction lines as [|l ls IH]; intros idx; simpl; [reflexivity|].
  rewrite map_app, IH. unfold line_items. destruct (accepted l); reflexivity.
Qed.

Lemma parseUrls_text (input format : jsstring) :
  str_eqb format (js "json") = false ->
  parseUrls input format = Normal (collect line_items 0 (nonblank_lines input)).
Proof.
  intros Hf. unfold parseUrls. rewrite Hf.
  apply (forEach_collect text_line line_items (fun _ => True)).
  - intros. apply text_line_items.
  - apply Forall_forall. trivial.
Qed.

End ParseText.

(** ** parseUrls, structured list *)

Section ParseJson.
Import PdfService Views.
Context `{Host}.

Lemma json_element_items (item : json) (idx : nat) (urls : list WorkItem) :
  is_null item = false ->
  json_element item idx urls = Normal (urls ++ element_items item idx).
Proof.
  intros Hn. unfold json_element, element_items, element_item, usable.
  destruct item as [| b | x | s | l | ms]; try discriminate; simpl;
    rewrite ?app_nil_r; try reflexivity.
  destruct (truthy (lookup_member (js "url") ms)); [reflexivity|].
  now rewrite app_nil_r.
Qed.

Lemma no_null_Forall (items : list json) :
  forallb (fun e => negb (is_null e)) items = true ->
  Forall (fun e => is_null e = false) items.
Proof.
  rewrite forallb_forall. intros Hall. apply Forall_forall. intros e He.
  apply Hall in He. now apply negb_true_iff in He.
Qed.

Lemma forEach_elements (items : list json) (idx : nat) (urls : list WorkItem) :
  forallb (fun e => negb (is_null e)) items = true ->
  forEach json_element idx items urls
  = Normal (urls ++ collect element_items idx items).
Proof.
  intros Hn.
  apply (forEach_collect json_element element_items (fun e => is_null e = false)).
  - intros a i s Ha. now apply json_element_items.
  - now apply no_null_Forall.
Qed.

Lemma forEach_null (items : list json) (idx : nat) (urls : list WorkItem) :
  In JNull items -> exists m, forEach json_element idx items urls = Throws m.
Proof.
  revert idx urls. induction items as [|e items IH]; intros idx urls Hin.
  - destruct Hin.
  - destruct (is_null e) eqn:En.
    + destruct e; try discriminate. simpl. eexists. reflexivity.
    + simpl. rewrite (json_element_items e idx urls En). simpl.
      destruct Hin as [->|Hin]; [discriminate|]. now apply IH.
Qed.

Lemma parseUrls_json (input : jsstring) :
  parseUrls input (js "json")
  = match
      bind (JSON_parse input) (fun data =>
        match data with
        | JArr items => forEach json_element 0 items []
        | _ => Normal []
        end)
    with
    | Normal urls => Normal urls
    | Throws _ => Throws (js "Invalid JSON format")
    end.
Proof. reflexivity. Qed.

End ParseJson.

(** ** Claims about parseUrls *)

Section ParseClaims.
Import PdfService Views.

(** C9. In plain/delimited parsing (any format other than ['json']) the
    parse never fails, and the work items are, in order, exactly those of
    the lines whose first comma-separated field, trimmed, begins with
    [http://] or [https://]: every other line, blank or not, contributes
    nothing.  The line [not-a-url, label, file.pdf] yields no item, the line
    [https://x.com, L, f.pdf] yields url [https://x.com], label [L] and file
    name [f.pdf]. *)
Theorem parseUrls_text_accepts_scheme_lines `{Host} (input format : jsstring) :
  str_eqb format (js "json") = false ->
  (exists items,
      parseUrls input format = Normal items
      /\ items = collect line_items 0 (nonblank_lines input)
      /\ map url items
         = map (fun l => Some (JStr (first_field l)))
             (filter accepted (split_lines input)))
  /\ parseUrls (js "not-a-url, label, file.pdf") format = Normal []
  /\ parseUrls (js "https://x.com, L, f.pdf") format
     = Normal [ {| url := Some (JStr (js "https://x.com"));
                   label := Some (JStr (js "L"));
                   fileName := Some (JStr (js "f.pdf")) |} ].
Proof.
  intros Hf. repeat split.
  - eexists. split; [now apply parseUrls_text|]. split; [reflexivity|].
    rewrite collect_line_items_url. unfold nonblank_lines.
    now rewrite filter_accepted_nonblank.
  - now rewrite parseUrls_text.
  - now rewrite parseUrls_text.
Qed.

Lemma parseUrls_text_accepts_scheme_lines_witness :
  parseUrls (H := Samples.host)
    (js ("https://x.com, L, f.pdf" ++ Samples.lf ++ "not-a-url, label, file.pdf"
         ++ Samples.lf ++ Samples.lf ++ "  http://y.org"))
    (js "text")
  = Normal [ {| url := Some (JStr (js "https://x.com"));
                label := Some (JStr (js "L"));
                fileName := Some (JStr (js "f.pdf")) |};
             {| url := Some (JStr (js "http://y.org"));
                label := Some (JStr []);
                fileName := Some (JStr (js "PDF_003.pdf")) |} ].
Proof.
  destruct (parseUrls_text_accepts_scheme_lines (H := Samples.host)
              (js ("https://x.com, L, f.pdf" ++ Samples.lf
                   ++ "not-a-url, label, file.pdf"
                   ++ Samples.lf ++ Samples.lf ++ "  http://y.org"))
              (js "text") eq_refl) as [[items [Hp [Hi _]]] _].
  rewrite Hp, Hi. reflexivity.
Defined.

(** C4 as stated fails: the only accepted item of a text whose first line
    is not a URL, and the only accepted item of an array whose first
    element has no url, are first in the accepted sequence, carry no file
    name of their own, and are named [PDF_002.pdf]. *)
Lemma default_name_not_by_accepted_position :
  (exists item,
      parseUrls (H := Samples.host)
        (js ("foo" ++ Samples.lf ++ "https://a.com")) (js "text") = Normal [item]
      /\ field 2 (js "https://a.com") = None
      /\ fileName item = Some (JStr (js "PDF_002.pdf"))
      /\ fileName item <> Some (JStr (default_name 1)))
  /\ (exists item,
        parseUrls (H := Samples.host) Samples.with_gap_text (js "json")
        = Normal [item]
        /\ fileName item = Some (JStr (js "PDF_002.pdf"))
        /\ fileName item <> Some (JStr (default_name 1))).
Proof.
  split; eexists; repeat split; try reflexivity; simpl; discriminate.
Qed.

(** C4, amended.  An accepted work item that carries no file name of its
    own is named [PDF_<n>.pdf], zero-padded to three digits, where [n] is
    the 1-based position of its line among the non-blank lines (plain
    text) or of its element in the decoded array (structured list),
    dropped lines and elements included; the item itself sits in the
    output after the items of the accepted lines or elements before it.
    The structured input [["https://a.com",
    {"url":"https://b.com","fileName":"b.pdf"}]] yields [PDF_001.pdf] for
    its first item and [b.pdf] for its second. *)
Theorem default_name_by_source_position `{Host} (input format : jsstring)
  (idx : nat) :
  (str_eqb format (js "json") = false ->
   forall line,
     nth_error (nonblank_lines input) idx = Some line ->
     accepted line = true -> field 2 line = None ->
     exists items item,
       parseUrls input format = Normal items
       /\ nth_error items
            (List.length (filter accepted (firstn idx (nonblank_lines input))))
          = Some item
       /\ url item = Some (JStr (first_field line))
       /\ fileName item = Some (JStr (default_name (idx + 1))))
  /\ (forall elems e,
        JSON_parse input = Normal (JArr elems) ->
        forallb (fun x => negb (is_null x)) elems = true ->
        nth_error elems idx = Some e ->
        usable e = true -> named e = false ->
        exists items item,
          parseUrls input (js "json") = Normal items
          /\ nth_error items (List.length (filter usable (firstn idx elems)))
             = Some item
          /\ fileName item = Some (JStr (default_name (idx + 1))))
  /\ (JSON_parse input = Normal Samples.two_items ->
      parseUrls input (js "json")
      = Normal [ {| url := Some (JStr (js "https://a.com"));
                    label := undefined;
                    fileName := Some (JStr (js "PDF_001.pdf")) |};
                 {| url := Some (JStr (js "https://b.com"));
                    label := Some (JStr []);
                    fileName := Some (JStr (js "b.pdf")) |} ]).
Proof.
  split; [|split].
  - intros Hf line Hn Ha Hf2.
    exists (collect line_items 0 (nonblank_lines input)), (line_item line (0 + idx)).
    split; [now apply parseUrls_text|]. split.
    + apply (collect_nth line_items accepted line_item); auto.
    + unfold line_item. simpl. now rewrite Hf2.
  - intros elems e Hp Hnn Hn Hu Hnm.
    exists (collect element_items 0 elems), (element_item e (0 + idx)).
    split; [|split].
    + rewrite parseUrls_json, Hp. simpl. now rewrite forEach_elements.
    + apply (collect_nth element_items usable element_item); auto.
    + destruct e as [| b | x | s | l | ms]; try discriminate; [reflexivity|].
      unfold named in Hnm. unfold element_item. simpl fileName.
      unfold or_else, js_or in *.
      destruct (truthy (lookup_member (js "fileName") ms)) eqn:E1.
      * congruence.
      * destruct (lookup_member (js "name") ms) as [j|]; [|reflexivity].
        simpl in Hnm. now rewrite Hnm.
  - intros Hp. rewrite parseUrls_json, Hp. reflexivity.
Qed.

Lemma default_name_by_source_position_witness :
  (exists items item,
      parseUrls (H := Samples.host)
        (js ("foo" ++ Samples.lf ++ "https://a.com")) (js "text") = Normal items
      /\ nth_error items 0 = Some item
      /\ url item = Some (JStr (js "https://a.com"))
      /\ fileName item = Some (JStr (default_name 2)))
  /\ (exists items item,
        parseUrls (H := Samples.host) Samples.with_gap_text (js "json")
        = Normal items
        /\ nth_error items 0 = Some item
        /\ fileName item = Some (JStr (default_name 2)))
  /\ parseUrls (H := Samples.host) Samples.two_items_text (js "json")
     = Normal [ {| url := Some (JStr (js "https://a.com"));
                   label := undefined;
                   fileName := Some (JStr (js "PDF_001.pdf")) |};
                {| url := Some (JStr (js "https://b.com"));
                   label := Some (JStr []);
                   fileName := Some (JStr (js "b.pdf")) |} ].
Proof.
  split; [|split].
  - exact (proj1 (default_name_by_source_position (H := Samples.host)
                    (js ("foo" ++ Samples.lf ++ "https://a.com")) (js "text") 1)
             eq_refl (js "https://a.com") eq_refl eq_refl eq_refl).
  - exact (proj1 (proj2 (default_name_by_source_position (H := Samples.host)
                           Samples.with_gap_text (js "json") 1))
             _ (JStr (js "https://a.com")) eq_refl eq_refl eq_refl eq_refl eq_refl).
  - exact (proj2 (proj2 (default_name_by_source_position (H := Samples.host)
                           Samples.two_items_text (js "json") 0)) eq_refl).
Defined.

(** C10. In structured-list parsing a [null] element of the decoded array
    makes the whole parse fail with [Invalid JSON format], wherever it
    stands; an object element without a usable url is dropped and the
    elements before and after it are parsed at their own positions; a
    decoded value that is not an array yields the empty sequence and no
    error. *)
Theorem parseUrls_json_null_rejects_submission `{Host} (input : jsstring) :
  (forall elems,
      JSON_parse input = Normal (JArr elems) -> In JNull elems ->
      parseUrls input (js "json") = Throws (js "Invalid JSON format"))
  /\ (forall before ms after,
        JSON_parse input = Normal (JArr (before ++ JObj ms :: after)) ->
        truthy (lookup_member (js "url") ms) = false ->
        forallb (fun x => negb (is_null x)) (before ++ after) = true ->
        parseUrls input (js "json")
        = Normal (collect element_items 0 before
                  ++ collect element_items (S (List.length before)) after))
  /\ (forall v,
        JSON_parse input = Normal v -> is_array v = false ->
        parseUrls input (js "json") = Normal []).
Proof.
  split; [|split].
  - intros elems Hp Hin. rewrite parseUrls_json, Hp. simpl.
    destruct (forEach_null elems 0 [] Hin) as [m ->]. reflexivity.
  - intros before ms after Hp Hu Hnn. rewrite parseUrls_json, Hp. simpl.
    rewrite forallb_app in Hnn. apply andb_true_iff in Hnn as [Hb Ha].
    rewrite forEach_elements.
    + simpl. rewrite collect_app. simpl.
      unfold element_items at 2. simpl. rewrite Hu. reflexivity.
    + rewrite forallb_app. simpl. now rewrite Hb, Ha.
  - intros v Hp Hv. rewrite parseUrls_json, Hp.
    destruct v; try reflexivity. discriminate.
Qed.

Lemma parseUrls_json_null_rejects_submission_witness :
  parseUrls (H := Samples.host) Samples.with_null_text (js "json")
  = Throws (js "Invalid JSON format")
  /\ parseUrls (H := Samples.host) Samples.with_gap_text (js "json")
     = Normal [ {| url := Some (JStr (js "https://a.com"));
                   label := undefined;
                   fileName := Some (JStr (js "PDF_002.pdf")) |} ]
  /\ parseUrls (H := Samples.host) Samples.lone_object_text (js "json")
     = Normal [].
Proof.
  split; [|split].
  - apply (proj1 (parseUrls_json_null_rejects_submission (H := Samples.host)
                    Samples.with_null_text)
             [JObj [(js "label", JStr (js "x"))]; JNull] eq_refl).
    right. left. reflexivity.
  - exact (proj1 (proj2 (parseUrls_json_null_rejects_submission (H := Samples.host)
                           Samples.with_gap_text))
             [] [(js "label", JStr (js "x"))] [JStr (js "https://a.com")]
             eq_refl eq_refl eq_refl).
  - exact (proj2 (proj2 (parseUrls_json_null_rejects_submission (H := Samples.host)
                           Samples.lone_object_text))
             Samples.lone_object eq_refl eq_refl).
Defined.

End ParseClaims.

(** ** convertUrlToPdf *)

Section ConvertClaims.
Import PdfService Views.

(** C5 as stated fails.  A response with status 500 whose body carries a
    [FileUrl] is a success: the status code is never read.  With the API key
    unset [https.request] throws in the executor: the promise is rejected,
    with neither variant.  And a response cut before its end emits neither
    ['end'] nor an error of the request: the promise stays pending. *)
Lemma convertUrlToPdf_success_on_status_500 :
  convertUrlToPdf (H := Samples.host) (Some (js "sample-key"))
    (ApiResponse 500 Samples.file_url_text)
    (Some (JStr (js "https://a.com"))) (JStr (js "a.pdf"))
  = Fulfilled (ConvSuccess (JStr Samples.artifact_url) (JStr (js "a.pdf")))
  /\ convertUrlToPdf (H := Samples.host) None
       (ApiResponse 200 Samples.file_url_text)
       (Some (JStr (js "https://a.com"))) (JStr (js "a.pdf"))
     = Rejected (js ("Invalid value " ++ Samples.dq ++ "undefined" ++ Samples.dq
                     ++ " for header " ++ Samples.dq ++ "Authorization"
                     ++ Samples.dq))
  /\ convertUrlToPdf (H := Samples.host) (Some (js "sample-key")) ApiAborted
       (Some (JStr (js "https://a.com"))) (JStr (js "a.pdf"))
     = Pending.
Proof. repeat split. Qed.

Lemma api_failure_fails `{Host} (response fileName : json) (o : ConversionOutcome) :
  api_failure response fileName = Normal o -> conv_success o = false.
Proof.
  unfold api_failure. destruct (get_prop response (js "Error")); simpl; [|discriminate].
  destruct (get_prop response (js "error")); simpl; [|discriminate].
  intros [= <-]. reflexivity.
Qed.

(** Closes the direction of C5 in which a success is claimed of an outcome
    that is a failure. *)
Ltac not_a_success :=
  let Ho := fresh "Ho" in
  intros (? & ? & ? & ? & ? & ? & ? & ? & Ho);
  first [ discriminate | subst; discriminate | congruence ].

(** The promise once the request is made. *)
Lemma convertUrlToPdf_requested `{Host} (API_KEY : option jsstring)
  (ev : api_event) (url : jsval) (fileName : json) :
  header_fault (js "Authorization") API_KEY = None ->
  convertUrlToPdf API_KEY ev url fileName
  = match ev with
    | ApiResponse _ data =>
        match on_end_try data fileName with
        | Normal r => Fulfilled r
        | Throws m =>
            Fulfilled (ConvFailure (JStr (js "JSON parse error: " ++ m)) fileName)
        end
    | ApiAborted => Pending
    | ApiError m => Fulfilled (ConvFailure (JStr m) fileName)
    | ApiTimeout => Fulfilled (ConvFailure (JStr (js "Request timeout")) fileName)
    end.
Proof. intros Hk. unfold convertUrlToPdf. now rewrite Hk. Qed.

(** C5, amended.  When the API key is a value the [Authorization] header
    accepts and the response is not cut before its end, the promise of
    [convertUrlToPdf] is fulfilled, with one of the two variants.  It is a
    success exactly when the response ended with a body that decodes to a
    value whose [FileUrl] is truthy, whatever the status code; a network
    error, the 60-second timeout and a body that does not decode are
    failures with the reasons the code gives them. *)
Theorem convertUrlToPdf_settles_by_body `{Host} (API_KEY : option jsstring)
  (ev : api_event) (url : jsval) (fileName : json) :
  header_fault (js "Authorization") API_KEY = None ->
  ev <> ApiAborted ->
  exists o,
    convertUrlToPdf API_KEY ev url fileName = Fulfilled o
    /\ (conv_success o = true <->
        exists statusCode data response fileUrl,
          ev = ApiResponse statusCode data
          /\ JSON_parse data = Normal response
          /\ get_prop response (js "FileUrl") = Normal (Some fileUrl)
          /\ truthy_json fileUrl = true
          /\ o = ConvSuccess fileUrl fileName)
    /\ (forall m, ev = ApiError m -> o = ConvFailure (JStr m) fileName)
    /\ (ev = ApiTimeout -> o = ConvFailure (JStr (js "Request timeout")) fileName)
    /\ (forall statusCode data m,
          ev = ApiResponse statusCode data -> JSON_parse data = Throws m ->
          o = ConvFailure (JStr (js "JSON parse error: " ++ m)) fileName).
Proof.
  intros Hk Hev. rewrite (convertUrlToPdf_requested _ _ _ _ Hk).
  destruct ev as [statusCode data | | m | ]; [| congruence | |].
  - unfold on_end_try.
    destruct (JSON_parse data) as [response | m] eqn:Ep; simpl.
    + destruct (get_prop response (js "FileUrl")) as [fu | m] eqn:Eg; simpl.
      * destruct fu as [fileUrl|]; [destruct (truthy_json fileUrl) eqn:Et|].
        -- eexists. split; [reflexivity|]. repeat split; try discriminate.
           ++ intros _. exists statusCode, data, response, fileUrl. auto.
           ++ intros; congruence.
        -- destruct (api_failure response fileName) as [o|m] eqn:Ea;
             (eexists; split; [reflexivity|]);
             try pose proof (api_failure_fails _ _ _ Ea) as Hf;
             repeat split; try discriminate; try congruence; not_a_success.
        -- destruct (api_failure response fileName) as [o|m] eqn:Ea;
             (eexists; split; [reflexivity|]);
             try pose proof (api_failure_fails _ _ _ Ea) as Hf;
             repeat split; try discriminate; try congruence; not_a_success.
      * eexists. split; [reflexivity|].
        repeat split; try discriminate; try congruence; not_a_success.
    + eexists. split; [reflexivity|].
      repeat split; try discriminate; try not_a_success.
      intros s d m' [= <- <-] Hm. congruence.
  - eexists. split; [reflexivity|]. repeat split; try discriminate.
    + not_a_success.
    + intros m' [= <-]. reflexivity.
  - eexists. split; [reflexivity|]. repeat split; try discriminate.
    not_a_success.
Qed.

Lemma convertUrlToPdf_settles_by_body_witness :
  header_fault (js "Authorization") (Some (js "sample-key")) = None
  /\ ApiResponse 200 Samples.file_url_text <> ApiAborted
  /\ exists o,
       convertUrlToPdf (H := Samples.host) (Some (js "sample-key"))
         (ApiResponse 200 Samples.file_url_text)
         (Some (JStr (js "https://a.com"))) (JStr (js "a.pdf"))
       = Fulfilled o
       /\ conv_success o = true.
Proof.
  split; [reflexivity|]. split; [discriminate|].
  destruct (convertUrlToPdf_settles_by_body (H := Samples.host)
              (Some (js "sample-key")) (ApiResponse 200 Samples.file_url_text)
              (Some (JStr (js "https://a.com"))) (JStr (js "a.pdf"))
              eq_refl ltac:(discriminate))
    as (o & Ho & Hs & _).
  exists o. split; [exact Ho|]. apply Hs.
  exists 200%N, Samples.file_url_text, Samples.file_url,
    (JStr Samples.artifact_url).
  repeat split. vm_compute in Ho. injection Ho as <-. reflexivity.
Defined.

End ConvertClaims.

(** ** downloadPdf *)

(** Case analysis along the branches of [downloadPdf]. *)
Ltac download_cases :=
  unfold PdfService.downloadPdf, PdfService.on_response, PdfService.follow,
    PdfService.piped, PdfService.unlinked, PdfService.escaped;
  repeat match goal with
         | |- context [match ?x with _ => _ end] => destruct x eqn:?; simpl
         | |- context [if ?x then _ else _] => destruct x eqn:?; simpl
         end.

Section DownloadClaims.
Import PdfService Views.

(** The redirect target is requested once and never followed further. *)
Lemma downloadPdf_at_most_two_requests `{Host} (net : network)
  (open_error : opener) (pdfUrl : json) (localPath : jsstring) (d : disk) :
  List.length (requested (downloadPdf net open_error pdfUrl localPath d)) <= 2.
Proof. download_cases; lia. Qed.

(** On the first hop every status other than 200, 301 and 302 is rejected
    and the partial file is removed. *)
Lemma downloadPdf_first_hop_status `{Host} (net : network) (open_error : opener)
  (u localPath : jsstring) (d : disk) (statusCode : N)
  (location : option jsstring) (body : list N) :
  open_error localPath = None ->
  net u = HttpResponse statusCode location body ->
  statusCode <> 200%N -> statusCode <> 301%N -> statusCode <> 302%N ->
  outcome (downloadPdf net open_error (JStr u) localPath d)
  = Rejected (js "HTTP " ++ String_of_N statusCode)
  /\ written (downloadPdf net open_error (JStr u) localPath d) localPath = None.
Proof.
  intros Ho Hn H200 H301 H302. unfold downloadPdf, on_response. rewrite Ho, Hn.
  apply N.eqb_neq in H200, H301, H302. rewrite H200, H301, H302. simpl.
  split; [reflexivity|]. unfold disk_unlink. now rewrite str_eqb_refl.
Qed.

(** C6, at the failing input: the artifact address answers 302 and its
    target answers 302 again (or 404); the download is fulfilled and the
    body of the second response is stored as the artifact. *)
Theorem downloadPdf_second_hop_status_unchecked :
  (let d := downloadPdf (H := Samples.host) Samples.twice_moved Samples.open_paths
              (JStr Samples.artifact_url) (js "out/a.pdf") Samples.empty_disk in
   outcome d = Fulfilled (js "out/a.pdf")
   /\ requested d = [Samples.artifact_url; Samples.moved_url]
   /\ written d (js "out/a.pdf") = Some (js "Found again"))
  /\ (let d := downloadPdf (H := Samples.host) Samples.moved_and_gone
                 Samples.open_paths
                 (JStr Samples.artifact_url) (js "out/a.pdf") Samples.empty_disk in
      outcome d = Fulfilled (js "out/a.pdf")
      /\ written d (js "out/a.pdf") = Some (js "Not Found")).
Proof. repeat split. Qed.

End DownloadClaims.

(** ** sendPdfsViaEmail *)

Section MailClaims.
Import PdfService EmailService.
Context `{Host}.
Variable M : Mailer.


Lemma unlinkSync_present (p : jsstring) (st : state) (content : list N) :
  files st p = Some content ->
  unlinkSync p st
  = (Normal tt, {| files := disk_unlink p (files st); outbox := outbox st |}).
Proof. intros E. unfold unlinkSync. now rewrite E. Qed.


End MailClaims.

Section MailCeiling.
Import PdfService EmailService.



(** The success path is taken: a bundle under the ceiling is mailed once and
    then removed. *)
Example sendPdfsViaEmail_small_bundle :
  exists st',
    sendPdfsViaEmail (H := Samples.host) (Samples.mailer 1000)
      Samples.ten_artifacts (js "user@example.com") (js "My Batch!")
      Samples.no_results undefined Samples.fresh
    = (Fulfilled (Sent (Some (JStr (js "<1@example.com>")))
                    (Some (JStr (js "250 OK")))), st')
    /\ files st' (js "temp/My_Batch_.zip") = None
    /\ List.length (outbox st') = 1.
Proof. eexists. repeat split. Qed.

End MailCeiling.

(** ** uploadPdfsToSharedFolder *)

Section DriveClaims.
Import PdfService GoogleDriveService Views.
Variable G : Drive.

Lemma upload_each_results (folderId : jsval) (pdfFiles : list Artifact.t) :
  forall nth uploadResults,
    upload_each G folderId nth pdfFiles uploadResults
    = uploadResults
      ++ map (fun e => upload_result G folderId (fst e) (snd e))
           (combine (seq nth (List.length pdfFiles)) pdfFiles).
Proof.
  induction pdfFiles as [|pdf rest IH]; intros nth acc; simpl.
  - now rewrite app_nil_r.
  - rewrite IH, <- app_assoc. reflexivity.
Qed.

Lemma upload_result_success (folderId : jsval) (e : nat * Artifact.t) :
  upload_success (upload_result G folderId (fst e) (snd e))
  = negb (upload_fails G folderId e).
Proof.
  unfold upload_result, upload_fails.
  destruct (uploadFile G _ _ _ _); reflexivity.
Qed.

Lemma filter_split_length {A : Type} (p : A -> bool) (l : list A) :
  List.length (filter p l) + List.length (filter (fun a => negb (p a)) l)
  = List.length l.
Proof.
  induction l as [|a l IH]; simpl; [reflexivity|].
  destruct (p a); simpl; lia.
Qed.

Lemma filter_map_length {A B : Type} (f : A -> B) (p : B -> bool) (q : A -> bool)
  (l : list A) :
  (forall a, p (f a) = q a) ->
  List.length (filter p (map f l)) = List.length (filter q l).
Proof.
  intros Hpq. induction l as [|a l IH]; simpl; [reflexivity|].
  rewrite Hpq. destruct (q a); simpl; now rewrite IH.
Qed.

End DriveClaims.

Section DriveTolerance.
Import PdfService GoogleDriveService Views.

(** C8. When the folder is created and shared, the delivery resolves to
    [success: true] with the share link, whatever number of uploads fail: every
    artifact is attempted, in order, the failed-upload tally is the number of
    uploads that failed and the uploaded tally the number of the others.  With
    2 failures among 10 uploads the tallies are 8 and 2. *)
Theorem uploadPdfsToSharedFolder_tolerates_upload_failures (G : Drive)
  (pdfFiles : list Artifact.t) (folderName recipientEmail : jsstring)
  (folder : FileData) (shareLink : jsval) :
  createFolder G folderName = Normal folder ->
  shareWithEmail G (id folder) recipientEmail (js "reader") = Normal shareLink ->
  exists uploadedFiles failedFiles results,
    uploadPdfsToSharedFolder G pdfFiles folderName recipientEmail
    = Shared (id folder) (name folder) shareLink uploadedFiles failedFiles results
    /\ delivery_success
         (Shared (id folder) (name folder) shareLink uploadedFiles failedFiles results)
       = true
    /\ failedFiles
       = List.length (filter (upload_fails G (id folder))
                        (combine (seq 0 (List.length pdfFiles)) pdfFiles))
    /\ uploadedFiles + failedFiles = List.length pdfFiles
    /\ map result_fileName results = map Artifact.fileName pdfFiles.
Proof.
  intros Hc Hs. unfold uploadPdfsToSharedFolder. rewrite Hc, Hs.
  do 3 eexists. split; [reflexivity|]. split; [reflexivity|].
  rewrite upload_each_results. simpl.
  set (entries := combine (seq 0 (List.length pdfFiles)) pdfFiles).
  assert (Hlen : List.length entries = List.length pdfFiles).
  { unfold entries. rewrite length_combine, length_seq. lia. }
  split; [|split].
  - apply filter_map_length. intros e. rewrite upload_result_success.
    now rewrite negb_involutive.
  - rewrite filter_split_length, length_map. exact Hlen.
  - rewrite map_map. unfold entries. clear Hlen entries.
    generalize 0. induction pdfFiles as [|pdf rest IH]; intros n; simpl;
      [reflexivity|].
    rewrite IH. f_equal. unfold upload_result.
    destruct (uploadFile G _ _ _ _); reflexivity.
Qed.

Lemma uploadPdfsToSharedFolder_tolerates_upload_failures_witness :
  exists results,
    uploadPdfsToSharedFolder Samples.flaky_drive Samples.ten_artifacts
      (js "Batch") (js "user@example.com")
    = Shared (Some (JStr (js "folder-1"))) (Some (JStr (js "Batch")))
        (Some (JStr (js "https://drive.example/folder-1"))) 8 2 results
    /\ List.length results = 10.
Proof.
  destruct (uploadPdfsToSharedFolder_tolerates_upload_failures Samples.flaky_drive
              Samples.ten_artifacts (js "Batch") (js "user@example.com")
              Samples.folder_data (Some (JStr (js "https://drive.example/folder-1")))
              eq_refl eq_refl)
    as (up & fl & results & Hr & _ & Hf & Hu & Hn).
  exists results. split.
  - rewrite Hr. cbv in Hf. subst fl. simpl in Hu.
    assert (up = 8) by lia. subst up. reflexivity.
  - rewrite <- (length_map result_fileName), Hn. reflexivity.
Defined.

End DriveTolerance.

(** ** processUrls: one item, one batch, the loop *)

Section Bookkeeping.
Import PdfService Views.

Lemma lefts_app {A B : Type} (l1 l2 : list (A + B)) :
  lefts (l1 ++ l2) = lefts l1 ++ lefts l2.
Proof.
  induction l1 as [|[a|b] l1 IH]; simpl; [reflexivity| |]; now rewrite IH.
Qed.

Lemma rights_app {A B : Type} (l1 l2 : list (A + B)) :
  rights (l1 ++ l2) = rights l1 ++ rights l2.
Proof.
  induction l1 as [|[a|b] l1 IH]; simpl; [reflexivity| |]; now rewrite IH.
Qed.

Lemma lefts_rights_length {A B : Type} (l : list (A + B)) :
  List.length (lefts l) + List.length (rights l) = List.length l.
Proof.
  induction l as [|[a|b] l IH]; simpl; lia.
Qed.

Lemma In_lefts {A B : Type} (l : list (A + B)) (a : A) :
  In a (lefts l) <-> In (inl a) l.
Proof.
  induction l as [|[x|y] l IH]; simpl; [tauto| |].
  - rewrite IH. split; intros [E|E]; auto; left; congruence.
  - rewrite IH. split; [auto|]. intros [E|E]; [discriminate|auto].
Qed.

Lemma In_rights {A B : Type} (l : list (A + B)) (b : B) :
  In b (rights l) <-> In (inr b) l.
Proof.
  induction l as [|[x|y] l IH]; simpl; [tauto| |].
  - rewrite IH. split; [auto|]. intros [E|E]; [discriminate|auto].
  - rewrite IH. split; intros [E|E]; auto; left; congruence.
Qed.

Lemma skeleton_app (l1 l2 : list event) :
  skeleton (l1 ++ l2) = skeleton l1 ++ skeleton l2.
Proof. apply filter_app. Qed.

Lemma adds_refl (st : state) : adds st st [] [].
Proof. unfold adds. simpl. now rewrite !app_nil_r. Qed.

Lemma adds_trans {st1 st2 st3 : state} {vs evs vs' evs'} :
  adds st1 st2 vs evs -> adds st2 st3 vs' evs' ->
  adds st1 st3 (vs ++ vs') (evs ++ evs').
Proof.
  intros (S1 & F1 & T1 & L1) (S2 & F2 & T2 & L2). unfold adds.
  rewrite S2, S1, F2, F1, T2, T1, L2, L1, lefts_app, rights_app, !app_assoc.
  auto.
Qed.

Lemma adds_record (e : event) (st : state) :
  is_progress e = false -> adds st (record e st) [] [e].
Proof.
  intros He. unfold adds, record. simpl. rewrite !app_nil_r, skeleton_app.
  simpl. now rewrite He.
Qed.

Lemma adds_push_success (a : Artifact.t) (st : state) :
  adds st (push_success a st) [inl a] [].
Proof. unfold adds. simpl. now rewrite !app_nil_r. Qed.

Lemma adds_push_failed (f : Failure.t) (st : state) :
  adds st (push_failed f st) [inr f] [].
Proof. unfold adds. simpl. now rewrite !app_nil_r. Qed.

Lemma adds_fetched (p : jsstring) (d : Download) (st : state) :
  adds st (fetched p d st) [] [].
Proof. unfold adds. simpl. now rewrite !app_nil_r. Qed.

End Bookkeeping.

Section Scheduling.
Import PdfService Views.

Lemma insert_by_perm {A : Type} (key : A -> nat) (a : A) (l : list A) :
  Permutation (insert_by key a l) (a :: l).
Proof.
  induction l as [|b l IH]; simpl; [reflexivity|].
  destruct (key a <=? key b); [reflexivity|].
  rewrite IH. apply perm_swap.
Qed.

Lemma sort_by_perm {A : Type} (key : A -> nat) (l : list A) :
  Permutation (sort_by key l) l.
Proof.
  induction l as [|a l IH]; simpl; [reflexivity|].
  rewrite insert_by_perm. now constructor.
Qed.

Lemma insert_by_map {A B : Type} (f : A -> B) (key : B -> nat) (a : A) (l : list A) :
  map f (insert_by (fun x => key (f x)) a l) = insert_by key (f a) (map f l).
Proof.
  induction l as [|b l IH]; simpl; [reflexivity|].
  destruct (key (f a) <=? key (f b)); simpl; [reflexivity|]. now rewrite IH.
Qed.

Lemma sort_by_map {A B : Type} (f : A -> B) (key : B -> nat) (l : list A) :
  map f (sort_by (fun x => key (f x)) l) = sort_by key (map f l).
Proof.
  induction l as [|a l IH]; simpl; [reflexivity|].
  now rewrite insert_by_map, IH.
Qed.

Lemma ceil_div_step (m : nat) :
  0 < m -> ceil_div m batchSize = S (ceil_div (m - batchSize) batchSize).
Proof.
  intros Hm. unfold ceil_div, batchSize.
  destruct (le_lt_dec 5 m) as [Hge|Hlt].
  - replace (m + 5 - 1) with ((m - 5 + 5 - 1) + 1 * 5) by lia.
    rewrite Nat.div_add by lia. apply Nat.add_1_r.
  - replace (m - 5) with 0 by lia. simpl.
    assert (m = 1 \/ m = 2 \/ m = 3 \/ m = 4) as [->|[->|[->| ->]]] by lia;
      reflexivity.
Qed.

Lemma starts_from_done (n i : nat) : n <= i -> starts_from n i = [].
Proof.
  intros Hi. unfold starts_from. replace (n - i) with 0 by lia. reflexivity.
Qed.

Lemma starts_from_step (n i : nat) :
  i < n -> starts_from n i = i :: starts_from n (i + batchSize).
Proof.
  intros Hi. unfold starts_from. rewrite ceil_div_step by lia.
  replace (n - i - batchSize) with (n - (i + batchSize)) by lia.
  cbn [seq map]. f_equal; [lia|]. rewrite <- seq_shift, map_map.
  apply map_ext. intros k. unfold batchSize. lia.
Qed.

(** An induction along the loop: [P] holds past the end, and holds at [i]
    when it holds at [i + batchSize]. *)
Lemma loop_ind (n : nat) (P : nat -> Prop) :
  (forall i, n <= i -> P i) ->
  (forall i, i < n -> P (i + batchSize) -> P i) ->
  forall i, P i.
Proof.
  intros Hdone Hstep.
  assert (Hfuel : forall fuel i, n <= i + fuel -> P i).
  { induction fuel as [|fuel IH]; intros i Hi.
    - apply Hdone. lia.
    - destruct (le_lt_dec n i) as [Hge|Hlt]; [now apply Hdone|].
      apply Hstep; [assumption|]. apply IH. unfold batchSize. lia. }
  intros i. apply (Hfuel n). lia.
Qed.

Lemma slice_length {A : Type} (l : list A) (i : nat) :
  List.length (slice i (i + batchSize) l)
  = Nat.min batchSize (List.length l - i).
Proof.
  unfold slice. rewrite length_firstn, length_skipn. lia.
Qed.

Lemma numbered_from (i : nat) (b : list WorkItem) (k : nat) :
  map (fun e => (i + fst e + 1, snd e)) (combine (seq k (List.length b)) b)
  = combine (seq (i + k + 1) (List.length b)) b.
Proof.
  revert k. induction b as [|x b IH]; intros k; simpl; [reflexivity|].
  f_equal. rewrite IH. do 2 f_equal. lia.
Qed.

Lemma entries_numbered (urls : list WorkItem) (i : nat) :
  map (fun e => (i + fst e + 1, snd e)) (entries (slice i (i + batchSize) urls))
  = combine (batch_indices (List.length urls) i) (slice i (i + batchSize) urls).
Proof.
  unfold entries, batch_indices. rewrite <- slice_length, numbered_from.
  now rewrite Nat.add_0_r.
Qed.

Lemma entries_indices (urls : list WorkItem) (i : nat) :
  map (fun e => i + fst e + 1) (entries (slice i (i + batchSize) urls))
  = batch_indices (List.length urls) i.
Proof.
  transitivity (map fst (map (fun e : nat * WorkItem => (i + fst e + 1, snd e))
                            (entries (slice i (i + batchSize) urls)))).
  { rewrite map_map. reflexivity. }
  rewrite entries_numbered. unfold batch_indices. rewrite <- slice_length.
  generalize (i + 1). generalize (slice i (i + batchSize) urls).
  induction l as [|x l IH]; intros k; simpl; [reflexivity|]. now rewrite IH.
Qed.

End Scheduling.


Section Order.
Import PdfService Views.

Lemma combine_app_eq {A B : Type} (l1 l2 : list A) (m1 m2 : list B) :
  List.length l1 = List.length m1 ->
  combine (l1 ++ l2) (m1 ++ m2) = combine l1 m1 ++ combine l2 m2.
Proof.
  revert m1. induction l1 as [|a l1 IH]; intros [|b m1]; simpl; try discriminate;
    [reflexivity|].
  intros [= Hl]. now rewrite IH.
Qed.

Lemma flat_map_map {A B C : Type} (f : B -> C) (g : A -> list B) (l : list A) :
  flat_map (fun a => map f (g a)) l = map f (flat_map g l).
Proof.
  induction l as [|a l IH]; simpl; [reflexivity|]. now rewrite map_app, IH.
Qed.

Lemma flat_map_perm {A B : Type} (f g : A -> list B) (l : list A) :
  (forall a, Permutation (f a) (g a)) ->
  Permutation (flat_map f l) (flat_map g l).
Proof.
  intros Hfg. induction l as [|a l IH]; simpl; [constructor|].
  now apply Permutation_app.
Qed.

Lemma map_fst_combine_seq {B : Type} (a : nat) (l : list B) :
  map fst (combine (seq a (List.length l)) l) = seq a (List.length l).
Proof.
  revert a. induction l as [|x l IH]; intros a; simpl; [reflexivity|].
  now rewrite IH.
Qed.

Lemma In_combine_seq {B : Type} (l : list B) (a j : nat) (x : B) :
  In (j, x) (combine (seq a (List.length l)) l)
  <-> a <= j /\ nth_error l (j - a) = Some x.
Proof.
  revert a. induction l as [|y l IH]; intros a; simpl.
  - split; [tauto|]. intros [_ Hn]. destruct (j - a); discriminate.
  - rewrite IH. split.
    + intros [[= <- <-] | [Hle Hn]].
      * split; [lia|]. now rewrite Nat.sub_diag.
      * split; [lia|]. replace (j - a) with (S (j - S a)) by lia. exact Hn.
    + intros [Hle Hn]. destruct (Nat.eq_dec a j) as [->|Hne].
      * left. rewrite Nat.sub_diag in Hn. simpl in Hn. congruence.
      * right. split; [lia|].
        replace (j - a) with (S (j - S a)) in Hn by lia. exact Hn.
Qed.

Variable W : World.
Variable urls : list WorkItem.

Lemma numbered_batches (i : nat) :
  flat_map (fun j => combine (batch_indices (List.length urls) j)
                       (slice j (j + batchSize) urls))
    (starts_from (List.length urls) i)
  = combine (seq (i + 1) (List.length urls - i)) (skipn i urls).
Proof.
  apply (loop_ind (List.length urls)) with (i := i); clear i.
  - intros i Hi. rewrite starts_from_done by assumption.
    replace (List.length urls - i) with 0 by lia. reflexivity.
  - intros i Hi IH. rewrite starts_from_step by assumption. simpl.
    rewrite IH. unfold batch_indices, slice.
    replace (i + batchSize - i) with batchSize by lia.
    rewrite <- (firstn_skipn batchSize (skipn i urls)) at 2.
    rewrite skipn_skipn.
    replace (List.length urls - i)
      with (Nat.min batchSize (List.length urls - i)
            + (List.length urls - (i + batchSize))) at 2 by lia.
    rewrite seq_app, combine_app_eq.
    + replace (batchSize + i) with (i + batchSize) by lia.
      f_equal. destruct (le_lt_dec (i + batchSize) (List.length urls)) as [Hfull|Hpart].
      * do 2 f_equal. lia.
      * replace (List.length urls - (i + batchSize)) with 0 by lia. reflexivity.
    + rewrite length_seq, length_firstn, length_skipn. reflexivity.
Qed.

Lemma settled_order_perm :
  Permutation (settled_order W urls) (combine (seq 1 (List.length urls)) urls).
Proof.
  unfold settled_order, starts.
  rewrite (flat_map_perm _
             (fun j => combine (batch_indices (List.length urls) j)
                         (slice j (j + batchSize) urls))).
  - rewrite numbered_batches. simpl. now rewrite Nat.sub_0_r.
  - intros j. apply sort_by_perm.
Qed.

Lemma settled_order_indices :
  Permutation (map fst (settled_order W urls)) (seq 1 (List.length urls)).
Proof.
  rewrite settled_order_perm. now rewrite map_fst_combine_seq.
Qed.

Lemma settled_order_In (j : nat) (item : WorkItem) :
  In (j, item) (settled_order W urls)
  <-> 1 <= j /\ nth_error urls (j - 1) = Some item.
Proof.
  rewrite <- In_combine_seq. split; apply Permutation_in;
    [|symmetry]; apply settled_order_perm.
Qed.

Lemma starts_from_In (i0 i : nat) :
  In i (starts_from (List.length urls) i0) -> i0 <= i < List.length urls.
Proof.
  revert i. apply (loop_ind (List.length urls)) with (i := i0); clear i0.
  - intros i0 H0 i. rewrite starts_from_done by assumption. intros [].
  - intros i0 H0 IH i. rewrite starts_from_step by assumption.
    intros [<- | Hin]; [lia|]. apply IH in Hin. lia.
Qed.

Lemma batch_indices_concat (i : nat) :
  List.concat (map (batch_indices (List.length urls)) (starts_from (List.length urls) i))
  = seq (i + 1) (List.length urls - i).
Proof.
  apply (loop_ind (List.length urls)) with (i := i); clear i.
  - intros i Hi. rewrite starts_from_done by assumption.
    replace (List.length urls - i) with 0 by lia. reflexivity.
  - intros i Hi IH. rewrite starts_from_step by assumption. simpl.
    rewrite IH. unfold batch_indices.
    replace (List.length urls - i)
      with (Nat.min batchSize (List.length urls - i)
            + (List.length urls - (i + batchSize))) at 2 by lia.
    rewrite seq_app. f_equal.
    destruct (le_lt_dec (i + batchSize) (List.length urls)) as [Hfull|Hpart].
    + f_equal. lia.
    + replace (List.length urls - (i + batchSize)) with 0 by lia. reflexivity.
Qed.

Lemma batch_indices_full (i : nat) :
  Forall (fun b => List.length b = batchSize)
    (removelast (map (batch_indices (List.length urls))
                   (starts_from (List.length urls) i))).
Proof.
  apply (loop_ind (List.length urls)) with (i := i); clear i.
  - intros i Hi. rewrite starts_from_done by assumption. constructor.
  - intros i Hi IH. rewrite starts_from_step by assumption.
    destruct (le_lt_dec (List.length urls) (i + batchSize)) as [Hlast|Hmore].
    + rewrite (starts_from_done _ _ Hlast). constructor.
    + rewrite (starts_from_step _ _ Hmore) in *. cbn [map removelast] in *.
      constructor; [|exact IH].
      unfold batch_indices. rewrite length_seq. lia.
Qed.

Lemma batch_schedule_sleeps (i : nat) :
  filter is_sleep (batch_schedule W (List.length urls) i)
  = if i + batchSize <? List.length urls then [Sleep delayBetweenBatches] else [].
Proof.
  unfold batch_schedule. rewrite !filter_app.
  assert (Hr : forall l, filter is_sleep (map Request l) = []).
  { induction l; simpl; auto. }
  assert (Hs : forall l, filter is_sleep (map Settled l) = []).
  { induction l; simpl; auto. }
  rewrite Hr, Hs. simpl. destruct (i + batchSize <? List.length urls); reflexivity.
Qed.

Lemma schedule_sleeps (i : nat) :
  List.length (filter is_sleep
                 (flat_map (batch_schedule W (List.length urls))
                    (starts_from (List.length urls) i)))
  = List.length (starts_from (List.length urls) i) - 1.
Proof.
  apply (loop_ind (List.length urls)) with (i := i); clear i.
  - intros i Hi. rewrite starts_from_done by assumption. reflexivity.
  - intros i Hi IH. rewrite starts_from_step by assumption. simpl.
    rewrite filter_app, length_app, IH, batch_schedule_sleeps.
    destruct (i + batchSize <? List.length urls) eqn:E.
    + apply Nat.ltb_lt in E. rewrite (starts_from_step _ _ E). simpl. lia.
    + apply Nat.ltb_ge in E. rewrite (starts_from_done _ _ E). reflexivity.
Qed.

Lemma schedule_sleep_delay (e : event) :
  In e (schedule W (List.length urls)) -> is_sleep e = true ->
  e = Sleep delayBetweenBatches.
Proof.
  unfold schedule. rewrite in_flat_map. intros (i & _ & Hin) He.
  unfold batch_schedule in Hin. rewrite !in_app_iff, !in_map_iff in Hin.
  destruct Hin as [(x & <- & _) | [(x & <- & _) | Hin]]; try discriminate.
  destruct (i + batchSize <? List.length urls); [|destruct Hin].
  destruct Hin as [<- | []]. reflexivity.
Qed.

Lemma filter_sleep_skeleton (l : list event) :
  filter is_sleep (skeleton l) = filter is_sleep l.
Proof.
  unfold skeleton. induction l as [|e l IH]; simpl; [reflexivity|].
  destruct e; simpl; now rewrite IH.
Qed.

End Order.

Section Run.
Import PdfService Views.
Context `{Host}.
Variable W : World.
Variable urls : list WorkItem.
Variable outputDir : jsstring.
Variable onProgress : option callback.
Hypothesis Hreturns : returns onProgress.
Hypothesis Hsteady : steady W outputDir urls.

Lemma emit_returns (p : progress) (st : state) :
  exists st', emit onProgress p st = (Normal tt, st') /\ adds st st' [] [].
Proof.
  unfold emit. destruct onProgress as [f|] eqn:E.
  - rewrite (Hreturns f p eq_refl). eexists. split; [reflexivity|].
    unfold adds, record. simpl. rewrite !app_nil_r, skeleton_app. simpl.
    now rewrite app_nil_r.
  - eexists. split; [reflexivity|]. apply adds_refl.
Qed.

Lemma downloadPdf_outcome_disk (net : network) (open_error : opener)
  (pdfUrl : json) (localPath : jsstring) (d d' : disk) :
  outcome (downloadPdf net open_error pdfUrl localPath d)
  = outcome (downloadPdf net open_error pdfUrl localPath d')
  /\ fault (downloadPdf net open_error pdfUrl localPath d)
     = fault (downloadPdf net open_error pdfUrl localPath d').
Proof. download_cases; split; reflexivity. Qed.

Lemma on_catch_adds (index : nat) (name : json) (item : WorkItem)
  (m : jsstring) (st : state) :
  exists st',
    on_catch onProgress index name item m st = (Fulfilled tt, st')
    /\ adds st st'
         [inr {| Failure.index := index;
                 Failure.url := url item;
                 Failure.fileName := name;
                 Failure.error := JStr m;
                 Failure.label := or_else (label item) (JStr []) |}] [].
Proof.
  unfold on_catch.
  match goal with |- context [emit _ ?p ?s] =>
    destruct (emit_returns p s) as (st' & -> & Ha) end.
  exists st'. split; [reflexivity|].
  apply (adds_trans (adds_push_failed _ st) Ha).
Qed.

Lemma process_item_adds (i idx : nat) (item : WorkItem) (st : state) :
  settles W outputDir (i + idx + 1) item = true ->
  exists st',
    process_item W outputDir onProgress i idx item st = (Fulfilled tt, st')
    /\ adds st st' [verdict W outputDir (i + idx + 1) item] [].
Proof.
  unfold process_item, verdict, settles.
  set (index := i + idx + 1).
  set (name := or_else (fileName item) (JStr (default_name index))).
  destruct (convertUrlToPdf (key W) (api W index) (url item) name)
    as [[fileUrl fn|error fn]|m|m|]; try discriminate.
  - destruct name as [| b | x | n | l | ms] eqn:En;
      try (intros _; apply on_catch_adds).
    destruct (downloadPdf_outcome_disk (web W) (opening W) fileUrl
                (path_join outputDir n) (fun _ => None) (files st)) as [-> ->].
    destruct (fault (downloadPdf (web W) (opening W) fileUrl
                       (path_join outputDir n) (files st))); [discriminate|].
    destruct (outcome (downloadPdf (web W) (opening W) fileUrl
                         (path_join outputDir n) (files st)))
      as [p | m | m |] eqn:Eo; try discriminate; intros _.
    + match goal with |- context [emit _ ?p ?s] =>
        destruct (emit_returns p s) as (st' & -> & Ha) end.
      exists st'. split; [reflexivity|].
      apply (adds_trans (adds_trans (adds_fetched _ _ st) (adds_push_success _ _)) Ha).
    + destruct (on_catch_adds index (JStr n) item m
                  (fetched (path_join outputDir n)
                     (downloadPdf (web W) (opening W) fileUrl
                        (path_join outputDir n) (files st)) st))
        as (st' & -> & Ha).
      exists st'. split; [reflexivity|].
      apply (adds_trans (adds_fetched _ _ st) Ha).
  - intros _.
    match goal with |- context [emit _ ?p ?s] =>
      destruct (emit_returns p s) as (st' & -> & Ha) end.
    exists st'. split; [reflexivity|].
    apply (adds_trans (adds_push_failed _ st) Ha).
  - intros _. apply on_catch_adds.
Qed.

Lemma settle_all_adds (i : nat) (order : list (nat * WorkItem)) :
  (forall e, In e order -> settles W outputDir (i + fst e + 1) (snd e) = true) ->
  forall st,
  exists st',
    settle_all W outputDir onProgress i order None false st = (Fulfilled tt, st')
    /\ adds st st'
         (map (fun e => verdict W outputDir (i + fst e + 1) (snd e)) order)
         (map (fun e => Settled (i + fst e + 1)) order).
Proof.
  induction order as [|[idx item] rest IH]; intros Hs st; simpl.
  - exists st. split; [reflexivity|apply adds_refl].
  - destruct (process_item_adds i idx item st (Hs (idx, item) (or_introl eq_refl)))
      as (st1 & -> & Ha).
    destruct (IH (fun e He => Hs e (or_intror He))
                (record (Settled (i + idx + 1)) st1)) as (st2 & -> & Hb).
    exists st2. split; [reflexivity|].
    apply (adds_trans (adds_trans Ha (adds_record (Settled (i + idx + 1)) st1 eq_refl)) Hb).
Qed.

Lemma requests_adds (i : nat) (es : list (nat * WorkItem)) :
  forall st,
    adds st (fold_left (fun s e => record (Request (i + fst e + 1)) s) es st)
      [] (map (fun e => Request (i + fst e + 1)) es).
Proof.
  induction es as [|e es IH]; intros st; simpl; [apply adds_refl|].
  apply (adds_trans (adds_record (Request (i + fst e + 1)) st eq_refl) (IH _)).
Qed.

Lemma batch_settles (i : nat) (e : nat * WorkItem) :
  In e (sort_by (fun e => finish W (i + fst e + 1))
          (entries (slice i (i + batchSize) urls))) ->
  settles W outputDir (i + fst e + 1) (snd e) = true.
Proof.
  intros He. apply (Permutation_in _ (sort_by_perm _ _)) in He.
  destruct e as [idx item]. unfold entries in He.
  apply In_combine_seq in He as [_ Hn]. rewrite Nat.sub_0_r in Hn.
  unfold slice in Hn. rewrite nth_error_firstn in Hn.
  destruct (idx <? i + batchSize - i); [|discriminate].
  rewrite nth_error_skipn in Hn. apply Hsteady. exact Hn.
Qed.

Lemma batch_verdicts_eq (i : nat) :
  map (fun e => verdict W outputDir (i + fst e + 1) (snd e))
    (sort_by (fun e => finish W (i + fst e + 1))
       (entries (slice i (i + batchSize) urls)))
  = batch_verdicts W urls outputDir i.
Proof.
  unfold batch_verdicts, batch_settled. rewrite <- entries_numbered.
  rewrite <- (sort_by_map (fun e : nat * WorkItem => (i + fst e + 1, snd e))
                (fun e => finish W (fst e))).
  rewrite map_map. reflexivity.
Qed.

Lemma batch_schedule_eq (i : nat) :
  map (fun e => Request (i + fst e + 1)) (entries (slice i (i + batchSize) urls))
  ++ map (fun e => Settled (i + fst e + 1))
       (sort_by (fun e => finish W (i + fst e + 1))
          (entries (slice i (i + batchSize) urls)))
  ++ (if i + batchSize <? List.length urls then [Sleep delayBetweenBatches] else [])
  = batch_schedule W (List.length urls) i.
Proof.
  unfold batch_schedule. rewrite <- entries_indices.
  rewrite <- (sort_by_map (fun e : nat * WorkItem => i + fst e + 1) (finish W)).
  rewrite !map_map. reflexivity.
Qed.

Lemma batches_adds :
  forall fuel i st,
    i < List.length urls + batchSize ->
    List.length urls + batchSize <= i + batchSize * fuel ->
    exists st',
      batches W urls outputDir onProgress fuel i st = (Returned (results st'), st')
      /\ adds st st'
           (flat_map (batch_verdicts W urls outputDir)
              (starts_from (List.length urls) i))
           (flat_map (batch_schedule W (List.length urls))
              (starts_from (List.length urls) i)).
Proof.
  induction fuel as [|fuel IH]; intros i st Hi Hfuel.
  - exfalso. lia.
  - simpl. destruct (i <? List.length urls) eqn:Elt.
    + apply Nat.ltb_lt in Elt.
      match goal with |- context [emit _ ?p ?s] =>
        destruct (emit_returns p s) as (st1 & -> & Ha) end.
      pose proof (requests_adds i (entries (slice i (i + batchSize) urls)) st1) as Hb.
      match type of Hb with adds _ ?s _ _ =>
        destruct (settle_all_adds i
                    (sort_by (fun e => finish W (i + fst e + 1))
                       (entries (slice i (i + batchSize) urls)))
                    (batch_settles i) s)
          as (st3 & -> & Hc) end.
      assert (Hd : adds st3
                     (if i + batchSize <? List.length urls
                      then record (Sleep delayBetweenBatches) st3 else st3)
                     [] (if i + batchSize <? List.length urls
                         then [Sleep delayBetweenBatches] else [])).
      { destruct (i + batchSize <? List.length urls);
          [now apply adds_record | apply adds_refl]. }
      match type of Hd with adds _ ?s _ _ =>
        destruct (IH (i + batchSize) s) as (st5 & -> & He) end.
      * lia.
      * unfold batchSize in *. lia.
      * exists st5. split; [reflexivity|].
        rewrite (starts_from_step _ _ Elt). simpl flat_map.
        rewrite <- batch_verdicts_eq, <- batch_schedule_eq.
        pose proof (adds_trans (adds_trans (adds_trans (adds_trans Ha Hb) Hc) Hd) He)
          as Hall.
        cbn [app] in Hall. rewrite <- !app_assoc in Hall.
        rewrite <- !app_assoc. exact Hall.
    + apply Nat.ltb_ge in Elt. exists st. split; [reflexivity|].
      rewrite (starts_from_done _ _ Elt). apply adds_refl.
Qed.

End Run.

Section Returns.
Import PdfService Views.
Context `{Host}.
Variable W : World.
Variable urls : list WorkItem.
Variable outputDir : jsstring.
Variable onProgress : option callback.

(** An item whose promise is fulfilled has settled. *)
Lemma process_item_fulfilled (i idx : nat) (item : WorkItem) (st st1 : state)
  (u : unit) :
  process_item W outputDir onProgress i idx item st = (Fulfilled u, st1) ->
  settles W outputDir (i + idx + 1) item = true.
Proof.
  unfold process_item, settles.
  set (index := i + idx + 1).
  set (name := or_else (fileName item) (JStr (default_name index))).
  destruct (convertUrlToPdf (key W) (api W index) (url item) name)
    as [[fileUrl fn|error fn]|m|m|]; try reflexivity; try discriminate.
  destruct name as [| b | x | n | l | ms] eqn:En; try reflexivity.
  destruct (downloadPdf_outcome_disk (web W) (opening W) fileUrl
              (path_join outputDir n) (fun _ => None) (files st)) as [-> ->].
  destruct (fault (downloadPdf (web W) (opening W) fileUrl
                     (path_join outputDir n) (files st))); [discriminate|].
  destruct (outcome (downloadPdf (web W) (opening W) fileUrl
                       (path_join outputDir n) (files st)));
    try reflexivity; discriminate.
Qed.

Lemma settle_all_fulfilled (i : nat) (order : list (nat * WorkItem)) :
  forall rejection waiting st st1 u,
    settle_all W outputDir onProgress i order rejection waiting st
    = (Fulfilled u, st1) ->
    rejection = None /\ waiting = false
    /\ forall e, In e order -> settles W outputDir (i + fst e + 1) (snd e) = true.
Proof.
  induction order as [|[idx item] rest IH]; intros rejection waiting st st1 u; simpl.
  - destruct rejection; [discriminate|]. destruct waiting; [discriminate|].
    intros _. repeat split. intros e [].
  - destruct (process_item W outputDir onProgress i idx item st)
      as [[v|m|m|] st2] eqn:Ep; try discriminate; intros Hs;
      apply IH in Hs as (Hr & Hw & Hall); try discriminate;
      try (destruct rejection; discriminate).
    repeat split; try assumption.
    intros e [<- | He]; [|now apply Hall].
    simpl. eapply process_item_fulfilled, Ep.
Qed.

Lemma batches_returned :
  forall fuel i st r st',
    batches W urls outputDir onProgress fuel i st = (Returned r, st') ->
    forall k item, i <= k -> nth_error urls k = Some item ->
      settles W outputDir (k + 1) item = true.
Proof.
  induction fuel as [|fuel IH]; intros i st r st'; simpl; [discriminate|].
  destruct (i <? List.length urls) eqn:Elt.
  - destruct (emit onProgress _ st) as [[v|m] st1]; [|discriminate].
    destruct (settle_all W outputDir onProgress i _ None false _)
      as [[v'|m|m|] st3] eqn:Es; try discriminate.
    intros Hrun k item Hk Hn.
    destruct (le_lt_dec (i + batchSize) k) as [Hfar|Hnear].
    + eapply IH; eassumption.
    + apply settle_all_fulfilled in Es as (_ & _ & Hall).
      replace k with (i + (k - i)) by lia.
      apply (Hall (k - i, item)).
      apply (Permutation_in _ (Permutation_sym (sort_by_perm _ _))).
      unfold entries. apply In_combine_seq. split; [lia|].
      rewrite Nat.sub_0_r. unfold slice.
      rewrite nth_error_firstn.
      replace (k - i <? i + batchSize - i) with true
        by (symmetry; apply Nat.ltb_lt; lia).
      rewrite nth_error_skipn. now replace (i + (k - i)) with k by lia.
  - intros _ k item Hk Hn. apply Nat.ltb_ge in Elt.
    assert (k < List.length urls) by (apply nth_error_Some; congruence). lia.
Qed.

(** A run returns only when every item has settled. *)
Lemma processUrls_returned (d : disk) (r : BatchResult) (st : state) :
  processUrls W urls outputDir onProgress d = (Returned r, st) ->
  steady W outputDir urls.
Proof.
  intros Hrun k item Hn. unfold processUrls in Hrun.
  eapply batches_returned; [exact Hrun | lia | exact Hn].
Qed.

End Returns.

(** ** Claims about processUrls *)

Section RunClaims.
Import PdfService Views.

Lemma processUrls_runs `{Host} (W : World) (urls : list WorkItem)
  (outputDir : jsstring) (onProgress : option callback) (d : disk) :
  returns onProgress -> steady W outputDir urls ->
  exists st,
    processUrls W urls outputDir onProgress d = (Returned (results st), st)
    /\ success (results st) = lefts (verdicts W urls outputDir)
    /\ failed (results st) = rights (verdicts W urls outputDir)
    /\ total (results st) = List.length urls
    /\ skeleton (log st) = schedule W (List.length urls).
Proof.
  intros Hr Hl. unfold processUrls.
  match goal with |- context [batches _ _ _ _ ?fuel 0 ?s] =>
    destruct (batches_adds W urls outputDir onProgress Hr Hl fuel 0 s)
      as (st & Hrun & Hs & Hf & Ht & Hlog) end.
  - unfold batchSize. lia.
  - unfold batchSize. lia.
  - exists st. split; [exact Hrun|]. simpl in *.
    unfold verdicts, settled_order, schedule, starts.
    rewrite <- flat_map_map. auto.
Qed.

Lemma verdict_index_eq `{Host} (W : World) (outputDir : jsstring) (index : nat)
  (item : WorkItem) :
  verdict_index (verdict W outputDir index item) = index.
Proof.
  unfold verdict.
  destruct (convertUrlToPdf _ _ _ _) as [[fileUrl fn|error fn]|m|m|];
    try reflexivity.
  destruct (or_else (fileName item) _); try reflexivity.
  destruct (outcome _); reflexivity.
Qed.

Lemma indices_perm (vs : list (Artifact.t + Failure.t)) :
  Permutation (map Artifact.index (lefts vs) ++ map Failure.index (rights vs))
    (map verdict_index vs).
Proof.
  induction vs as [|[a|f] vs IH]; simpl; [constructor| |].
  - now constructor.
  - rewrite <- IH. symmetry. apply Permutation_middle.
Qed.

(** C1, at the failing input.  Two items are converted and their artifact
    has moved without leaving an address: the answer is a 302 with no
    [Location].  The response callback of the first download to get its
    answer throws at [redirectUrl.startsWith], outside the executor and
    outside the item's [try]: the process receives an uncaught exception,
    the run returns no result, and neither item has been classified. *)
Theorem processUrls_aborted_by_one_item :
  fst (processUrls (H := Samples.host) Samples.astray
         [Samples.page 1; Samples.page 2] (js "out") Samples.listener
         Samples.empty_disk)
  = Crashed (js "Cannot read properties of undefined (reading 'startsWith')")
  /\ success (results (snd (processUrls (H := Samples.host) Samples.astray
                              [Samples.page 1; Samples.page 2] (js "out")
                              Samples.listener Samples.empty_disk))) = []
  /\ failed (results (snd (processUrls (H := Samples.host) Samples.astray
                             [Samples.page 1; Samples.page 2] (js "out")
                             Samples.listener Samples.empty_disk))) = [].
Proof. repeat split. Qed.

(** X24. With a callback that returns, a run over N items that returns,
    returns a result whose [success] and [failed] together hold N records
    and whose [total] is N; the indices of the records are the indices 1..N,
    each once: every item is classified exactly once, whatever the outcome
    of its conversion and of its download. *)
Theorem processUrls_classifies_every_item_once `{Host} (W : World)
  (urls : list WorkItem) (outputDir : jsstring) (onProgress : option callback)
  (d : disk) (r : BatchResult) (st : state) :
  returns onProgress ->
  processUrls W urls outputDir onProgress d = (Returned r, st) ->
  List.length (success r) + List.length (failed r) = List.length urls
  /\ total r = List.length urls
  /\ Permutation
       (map Artifact.index (success r) ++ map Failure.index (failed r))
       (seq 1 (List.length urls)).
Proof.
  intros Hr Hret.
  pose proof (processUrls_returned W urls outputDir onProgress d r st Hret) as Hl.
  destruct (processUrls_runs W urls outputDir onProgress d Hr Hl)
    as (st' & Hrun & Hs & Hf & Ht & _).
  rewrite Hret in Hrun. injection Hrun as -> ->.
  assert (Hidx : Permutation (map verdict_index (verdicts W urls outputDir))
                   (seq 1 (List.length urls))).
  { unfold verdicts. rewrite map_map.
    rewrite (map_ext _ fst) by (intros e; apply verdict_index_eq).
    apply settled_order_indices. }
  split; [|split].
  - rewrite Hs, Hf, lefts_rights_length.
    rewrite <- (length_map verdict_index), (Permutation_length Hidx).
    apply length_seq.
  - exact Ht.
  - rewrite Hs, Hf, indices_perm. exact Hidx.
Qed.

Lemma listener_returns : returns Samples.listener.
Proof. intros f p [= <-]. reflexivity. Defined.

Lemma world_steady :
  steady (H := Samples.host) Samples.world (js "out") Samples.twelve_pages.
Proof.
  intros k item Hn.
  do 12 (destruct k as [|k]; [injection Hn as <-; reflexivity|]).
  destruct k; discriminate Hn.
Defined.

Lemma processUrls_classifies_every_item_once_witness :
  exists r st,
    processUrls (H := Samples.host) Samples.world Samples.twelve_pages (js "out")
      Samples.listener Samples.empty_disk = (Returned r, st)
    /\ List.length (success r) + List.length (failed r) = 12
    /\ total r = 12
    /\ Permutation
         (map Artifact.index (success r) ++ map Failure.index (failed r))
         (seq 1 12).
Proof.
  destruct (processUrls_runs (H := Samples.host) Samples.world
              Samples.twelve_pages (js "out") Samples.listener Samples.empty_disk
              listener_returns world_steady) as (st & Hrun & _).
  exists (results st), st. split; [exact Hrun|].
  exact (processUrls_classifies_every_item_once (H := Samples.host)
           Samples.world Samples.twelve_pages (js "out") Samples.listener
           Samples.empty_disk (results st) st listener_returns Hrun).
Defined.

(** C2, at the failing input.  Of twelve items whose artifacts have moved
    to a relative address the first to get its answer ends the process: the
    response callback throws at [get].  One batch of the three is started,
    its five requests are issued, no item settles and no delay occurs. *)
Theorem processUrls_schedule_cut_short :
  fst (processUrls (H := Samples.host) Samples.moved_nearby Samples.twelve_pages
         (js "out") Samples.listener Samples.empty_disk)
  = Crashed (js "Invalid URL")
  /\ log (snd (processUrls (H := Samples.host) Samples.moved_nearby
                 Samples.twelve_pages (js "out") Samples.listener
                 Samples.empty_disk))
     = [Progress (BatchStart 1 3 0 12);
        Request 1; Request 2; Request 3; Request 4; Request 5].
Proof. split; reflexivity. Qed.

(** X25. The batches are consecutive runs of the indices 1..N, all of 5
    items but the last, which has between 1 and 5; for 12 items they are 1-5,
    6-10 and 11-12.  With a callback that returns, a run that returns has
    done, besides calling the callback, exactly this: batch after batch, it
    issued the requests of all the items of the batch, then all of them
    settled, then it slept 2000 ms unless the batch was the last; the sleeps
    are one fewer than the batches, two for 12 items. *)
Theorem processUrls_batches_of_five_paced `{Host} (W : World)
  (urls : list WorkItem) (outputDir : jsstring) (onProgress : option callback)
  (d : disk) :
  returns onProgress ->
  let n := List.length urls in
  let batches := map (batch_indices n) (starts n) in
  List.concat batches = seq 1 n
  /\ Forall (fun b => List.length b = 5) (removelast batches)
  /\ Forall (fun b => 1 <= List.length b <= 5) batches
  /\ (n = 12 -> batches = [[1; 2; 3; 4; 5]; [6; 7; 8; 9; 10]; [11; 12]])
  /\ (forall r st,
        processUrls W urls outputDir onProgress d = (Returned r, st) ->
        skeleton (log st) = schedule W n
        /\ List.length (filter is_sleep (log st)) = List.length batches - 1
        /\ (forall e, In e (log st) -> is_sleep e = true -> e = Sleep 2000)
        /\ (n = 12 -> List.length (filter is_sleep (log st)) = 2)).
Proof.
  intros Hr. cbv zeta. split; [|split; [|split; [|split]]].
  - unfold starts. rewrite batch_indices_concat. simpl.
    now rewrite Nat.sub_0_r.
  - apply batch_indices_full.
  - apply Forall_forall. intros b Hb. apply in_map_iff in Hb as (i & <- & Hi).
    apply starts_from_In in Hi. unfold batch_indices. rewrite length_seq.
    unfold batchSize. lia.
  - intros Hn. rewrite Hn. reflexivity.
  - intros r st0 Hret.
    pose proof (processUrls_returned W urls outputDir onProgress d r st0 Hret)
      as Hl.
    destruct (processUrls_runs W urls outputDir onProgress d Hr Hl)
      as (st & Hrun & _ & _ & _ & Hlog).
    rewrite Hret in Hrun. injection Hrun as -> ->.
    assert (Hsleeps : List.length (filter is_sleep (log st))
                      = List.length (map (batch_indices (List.length urls))
                                       (starts (List.length urls))) - 1).
    { rewrite <- filter_sleep_skeleton, Hlog. unfold schedule, starts.
      rewrite length_map. apply schedule_sleeps. }
    split; [exact Hlog|]. split; [exact Hsleeps|]. split.
    + intros e He Hs. apply (schedule_sleep_delay W urls).
      * rewrite <- Hlog. unfold skeleton. apply filter_In. split; [exact He|].
        destruct e; try discriminate. reflexivity.
      * exact Hs.
    + intros Hn. rewrite Hsleeps, Hn. reflexivity.
Qed.

Lemma processUrls_batches_of_five_paced_witness :
  exists r st,
    processUrls (H := Samples.host) Samples.world Samples.twelve_pages (js "out")
      Samples.listener Samples.empty_disk = (Returned r, st)
    /\ skeleton (log st)
       = [Request 1; Request 2; Request 3; Request 4; Request 5;
          Settled 5; Settled 4; Settled 3; Settled 2; Settled 1; Sleep 2000;
          Request 6; Request 7; Request 8; Request 9; Request 10;
          Settled 10; Settled 9; Settled 8; Settled 7; Settled 6; Sleep 2000;
          Request 11; Request 12; Settled 12; Settled 11]
    /\ List.length (filter is_sleep (log st)) = 2.
Proof.
  destruct (processUrls_runs (H := Samples.host) Samples.world
              Samples.twelve_pages (js "out") Samples.listener Samples.empty_disk
              listener_returns world_steady) as (st & Hrun & _).
  destruct (processUrls_batches_of_five_paced (H := Samples.host) Samples.world
              Samples.twelve_pages (js "out") Samples.listener Samples.empty_disk
              listener_returns)
    as (_ & _ & _ & _ & Hsafe).
  destruct (Hsafe (results st) st Hrun) as (Hlog & _ & _ & H12).
  exists (results st), st. split; [exact Hrun|]. split; [exact Hlog|].
  exact (H12 eq_refl).
Defined.

Lemma convertUrlToPdf_fileName `{Host} (API_KEY : option jsstring)
  (ev : api_event) (url : jsval) (fileName fileUrl fn : json) :
  convertUrlToPdf API_KEY ev url fileName = Fulfilled (ConvSuccess fileUrl fn) ->
  fn = fileName.
Proof.
  unfold convertUrlToPdf, on_end_try, api_failure.
  destruct (header_fault _ _); [discriminate|].
  destruct ev as [statusCode data | | m | ]; try discriminate.
  destruct (JSON_parse data) as [response|m]; simpl; [|discriminate].
  destruct (get_prop response (js "FileUrl")) as [fu|m]; simpl; [|discriminate].
  assert (Hfail : forall c : completion ConversionOutcome,
            c = bind (get_prop response (js "Error")) (fun e1 =>
                bind (get_prop response (js "error")) (fun e2 =>
                Normal (ConvFailure
                          (or_else (js_or e1 e2) (JStr (js "Unknown API error")))
                          fileName))) ->
            match c with
            | Normal r => Fulfilled r
            | Throws m =>
                Fulfilled (ConvFailure (JStr (js "JSON parse error: " ++ m)) fileName)
            end <> Fulfilled (ConvSuccess fileUrl fn)).
  { intros c ->. destruct (get_prop response (js "Error")); simpl; [|discriminate].
    destruct (get_prop response (js "error")); simpl; discriminate. }
  destruct fu as [j|].
  - destruct (truthy_json j).
    + intros [= _ <-]. reflexivity.
    + intros E. exfalso. eapply Hfail; [reflexivity|exact E].
  - intros E. exfalso. eapply Hfail; [reflexivity|exact E].
Qed.

Lemma downloadPdf_fulfilled `{Host} (net : network) (open_error : opener)
  (pdfUrl : json) (localPath p : jsstring) (d : disk) :
  outcome (downloadPdf net open_error pdfUrl localPath d) = Fulfilled p ->
  p = localPath.
Proof. download_cases; intros E; try discriminate; now injection E. Qed.

Lemma verdict_success `{Host} (W : World) (outputDir : jsstring) (index : nat)
  (item : WorkItem) (a : Artifact.t) :
  verdict W outputDir index item = inl a ->
  exists fileUrl name,
    or_else (fileName item) (JStr (default_name index)) = JStr name
    /\ convertUrlToPdf (key W) (api W index) (url item) (JStr name)
       = Fulfilled (ConvSuccess fileUrl (JStr name))
    /\ outcome (downloadPdf (web W) (opening W) fileUrl (path_join outputDir name)
                  (fun _ => None))
       = Fulfilled (path_join outputDir name)
    /\ Artifact.index a = index.
Proof.
  unfold verdict.
  destruct (or_else (fileName item) (JStr (default_name index)))
    as [| b | x | name | l | ms] eqn:En;
    destruct (convertUrlToPdf _ _ _ _) as [[fileUrl fn|error fn]|m|m|] eqn:Ec;
    try discriminate.
  destruct (outcome _) as [p|m|m|] eqn:Eo; try discriminate.
  intros [= <-]. exists fileUrl, name. repeat split.
  - rewrite Ec. now rewrite (convertUrlToPdf_fileName _ _ _ _ _ _ Ec).
  - rewrite Eo. f_equal. eapply downloadPdf_fulfilled, Eo.
Qed.

(** C3, at the failing input.  The conversion of the item succeeds and
    its download fails -- the artifact has moved to a relative address, at
    which the response callback throws --, yet the item is recorded in
    neither list: the process ends with the item unclassified. *)
Theorem processUrls_failed_download_unrecorded :
  convertUrlToPdf (H := Samples.host) (key Samples.moved_nearby)
    (api Samples.moved_nearby 1) (url (Samples.page 1)) (JStr (js "PDF_001.pdf"))
  = Fulfilled (ConvSuccess (JStr Samples.artifact_url) (JStr (js "PDF_001.pdf")))
  /\ outcome (downloadPdf (H := Samples.host) (web Samples.moved_nearby)
                (opening Samples.moved_nearby) (JStr Samples.artifact_url)
                (js "out/PDF_001.pdf") Samples.empty_disk)
     = Uncaught (js "Invalid URL")
  /\ fst (processUrls (H := Samples.host) Samples.moved_nearby [Samples.page 1]
            (js "out") Samples.listener Samples.empty_disk)
     = Crashed (js "Invalid URL")
  /\ failed (results (snd (processUrls (H := Samples.host) Samples.moved_nearby
                             [Samples.page 1] (js "out") Samples.listener
                             Samples.empty_disk))) = []
  /\ success (results (snd (processUrls (H := Samples.host) Samples.moved_nearby
                              [Samples.page 1] (js "out") Samples.listener
                              Samples.empty_disk))) = [].
Proof. repeat split. Qed.

(** X26. With a callback that returns, in the result of a run that
    returns: an item whose conversion succeeded and whose download was
    rejected with message [m] has a record in [failed] that carries [m] as
    its error, and no record in [success]; and every record of [success]
    belongs to an item whose conversion succeeded and whose download was
    fulfilled. *)
Theorem processUrls_failed_download_is_failed `{Host} (W : World)
  (urls : list WorkItem) (outputDir : jsstring) (onProgress : option callback)
  (d : disk) (r : BatchResult) (st : state) :
  returns onProgress ->
  processUrls W urls outputDir onProgress d = (Returned r, st) ->
  (forall k item name fileUrl fn m,
      nth_error urls k = Some item ->
      or_else (fileName item) (JStr (default_name (k + 1))) = JStr name ->
      convertUrlToPdf (key W) (api W (k + 1)) (url item) (JStr name)
      = Fulfilled (ConvSuccess fileUrl fn) ->
      outcome (downloadPdf (web W) (opening W) fileUrl
                 (path_join outputDir name) d)
      = Rejected m ->
      In {| Failure.index := k + 1;
            Failure.url := url item;
            Failure.fileName := JStr name;
            Failure.error := JStr m;
            Failure.label := or_else (label item) (JStr []) |} (failed r)
      /\ forall a, In a (success r) -> Artifact.index a <> k + 1)
  /\ (forall a, In a (success r) ->
      exists item name fileUrl,
        nth_error urls (Artifact.index a - 1) = Some item
        /\ or_else (fileName item) (JStr (default_name (Artifact.index a)))
           = JStr name
        /\ convertUrlToPdf (key W) (api W (Artifact.index a)) (url item)
             (JStr name)
           = Fulfilled (ConvSuccess fileUrl (JStr name))
        /\ outcome (downloadPdf (web W) (opening W) fileUrl
                      (path_join outputDir name) d)
           = Fulfilled (path_join outputDir name)).
Proof.
  intros Hr Hret.
  pose proof (processUrls_returned W urls outputDir onProgress d r st Hret) as Hl.
  destruct (processUrls_runs W urls outputDir onProgress d Hr Hl)
    as (st' & Hrun & Hs & Hf & _ & _).
  rewrite Hret in Hrun. injection Hrun as -> ->.
  assert (Hsucc : forall a, In a (success (results st')) ->
            exists item, nth_error urls (Artifact.index a - 1) = Some item
                         /\ verdict W outputDir (Artifact.index a) item = inl a).
  { intros a Ha. rewrite Hs in Ha. apply In_lefts in Ha. unfold verdicts in Ha.
    apply in_map_iff in Ha as ([j item] & Hv & Hin). simpl in Hv.
    apply settled_order_In in Hin as [Hj Hn].
    pose proof (verdict_index_eq W outputDir j item) as Hi.
    rewrite Hv in Hi. simpl in Hi. subst j. eauto. }
  split.
  - intros k item name fileUrl fn m Hn En Ec Eo.
    assert (Hv : verdict W outputDir (k + 1) item
                 = inr {| Failure.index := k + 1;
                          Failure.url := url item;
                          Failure.fileName := JStr name;
                          Failure.error := JStr m;
                          Failure.label := or_else (label item) (JStr []) |}).
    { unfold verdict. rewrite En, Ec.
      rewrite (proj1 (downloadPdf_outcome_disk (web W) (opening W) fileUrl
                        (path_join outputDir name) (fun _ => None) d)), Eo.
      reflexivity. }
    split.
    + rewrite Hf. apply In_rights. rewrite <- Hv. unfold verdicts.
      apply in_map_iff. exists (k + 1, item). split; [reflexivity|].
      apply settled_order_In. split; [lia|].
      now replace (k + 1 - 1) with k by lia.
    + intros a Ha Hi. destruct (Hsucc a Ha) as (item' & Hn' & Hv').
      rewrite Hi in Hn', Hv'. replace (k + 1 - 1) with k in Hn' by lia.
      congruence.
  - intros a Ha. destruct (Hsucc a Ha) as (item & Hn & Hv).
    destruct (verdict_success W outputDir (Artifact.index a) item a Hv)
      as (fileUrl & name & En & Ec & Eo & _).
    exists item, name, fileUrl. repeat split; try assumption.
    now rewrite (proj1 (downloadPdf_outcome_disk (web W) (opening W) fileUrl
                          (path_join outputDir name) d (fun _ => None))).
Qed.

Lemma processUrls_failed_download_is_failed_witness :
  exists r st,
    processUrls (H := Samples.host) Samples.world Samples.twelve_pages (js "out")
      Samples.listener Samples.empty_disk = (Returned r, st)
    /\ In {| Failure.index := 7;
             Failure.url := Some (JStr (js "https://a.com/7"));
             Failure.fileName := JStr (js "PDF_007.pdf");
             Failure.error := JStr (js "HTTP 404");
             Failure.label := JStr [] |} (failed r)
    /\ (forall a, In a (success r) -> Artifact.index a <> 7).
Proof.
  destruct (processUrls_runs (H := Samples.host) Samples.world
              Samples.twelve_pages (js "out") Samples.listener Samples.empty_disk
              listener_returns world_steady) as (st & Hrun & _).
  destruct (processUrls_failed_download_is_failed (H := Samples.host) Samples.world
              Samples.twelve_pages (js "out") Samples.listener Samples.empty_disk
              (results st) st listener_returns Hrun)
    as (Hfail & _).
  exists (results st), st. split; [exact Hrun|].
  exact (Hfail 6 (Samples.page 7) (js "PDF_007.pdf")
           (JStr (js "https://cdn.example/gone.pdf")) (JStr (js "PDF_007.pdf"))
           (js "HTTP 404") eq_refl eq_refl eq_refl eq_refl).
Defined.

(** X27. With a callback that returns, a run returns exactly when every
    item settles: no response is cut before its end, no redirect lacks an
    address [get] accepts, and every path written to can be opened.  One
    item that does not settle keeps the whole run from returning. *)
Theorem processUrls_returns_iff_steady `{Host} (W : World)
  (urls : list WorkItem) (outputDir : jsstring) (onProgress : option callback)
  (d : disk) :
  returns onProgress ->
  (exists r st, processUrls W urls outputDir onProgress d = (Returned r, st))
  <-> steady W outputDir urls.
Proof.
  intros Hr. split.
  - intros (r & st & Hret).
    exact (processUrls_returned W urls outputDir onProgress d r st Hret).
  - intros Hl.
    destruct (processUrls_runs W urls outputDir onProgress d Hr Hl)
      as (st & Hrun & _).
    now exists (results st), st.
Qed.

Lemma processUrls_returns_iff_steady_witness :
  (exists r st,
      processUrls (H := Samples.host) Samples.world Samples.twelve_pages
        (js "out") Samples.listener Samples.empty_disk = (Returned r, st))
  /\ ~ steady (H := Samples.host) Samples.astray (js "out") [Samples.page 1].
Proof.
  split.
  - exact (proj2 (processUrls_returns_iff_steady (H := Samples.host)
                    Samples.world Samples.twelve_pages (js "out")
                    Samples.listener Samples.empty_disk listener_returns)
             world_steady).
  - intros Hs.
    destruct (proj2 (processUrls_returns_iff_steady (H := Samples.host)
                       Samples.astray [Samples.page 1] (js "out")
                       Samples.listener Samples.empty_disk listener_returns) Hs)
      as (r & st & Hrun).
    vm_compute in Hrun. discriminate Hrun.
Defined.

(** A callback that throws on a success event sends the item to the [catch]
    block after it was pushed to [success]: the run returns and the item is
    counted twice. *)
Example processUrls_throwing_callback :
  exists r st,
    processUrls (H := Samples.host) Samples.world [Samples.page 1] (js "out")
      Samples.touchy Samples.empty_disk = (Returned r, st)
    /\ map Artifact.index (success r) = [1]
    /\ map Failure.index (failed r) = [1]
    /\ total r = 1.
Proof. do 2 eexists. repeat split. Qed.

(** A response to the rendering service that is cut before its end leaves
    the item's promise pending: the batch never ends and the run waits for
    ever. *)
Example processUrls_cut_response :
  fst (processUrls (H := Samples.host)
         {| key := Some (js "sample-key");
            api := fun _ => ApiAborted;
            web := fun _ => HttpResponse 200 None (js "%PDF-1.7");
            opening := Samples.open_paths;
            finish := fun _ => 0 |}
         [Samples.page 1] (js "out") None Samples.empty_disk)
  = Stalled.
Proof. reflexivity. Qed.

(** A staging directory that is missing: the write stream of the first
    download cannot open its path and its ['error'] ends the process. *)
Example processUrls_missing_directory :
  fst (processUrls (H := Samples.host)
         {| key := Some (js "sample-key");
            api := fun _ => ApiResponse 200 Samples.file_url_text;
            web := fun _ => HttpResponse 200 None (js "%PDF-1.7");
            opening := fun p => Some (js "ENOENT: no such file or directory, open '"
                                      ++ p ++ js "'");
            finish := fun _ => 0 |}
         [Samples.page 1] (js "out") None Samples.empty_disk)
  = Crashed (js "ENOENT: no such file or directory, open 'out/PDF_001.pdf'").
Proof. reflexivity. Qed.

End RunClaims.

(** * Further properties *)

(** ** trim *)

Section Trim.

Lemma trimStart_head (s : jsstring) (c : N) (r : jsstring) :
  trimStart s = c :: r -> is_space c = false.
Proof.
  induction s as [|x s IH]; simpl; [discriminate|].
  destruct (is_space x) eqn:Ex; [exact IH|]. intros [= <- _]. exact Ex.
Qed.

Lemma trimStart_fixed (s : jsstring) :
  match s with [] => True | c :: _ => is_space c = false end ->
  trimStart s = s.
Proof. destruct s as [|c r]; simpl; [reflexivity|]. now intros ->. Qed.

Lemma trimStart_suffix (s : jsstring) :
  exists p, s = p ++ trimStart s.
Proof.
  induction s as [|x s [p IH]]; simpl; [now exists []|].
  destruct (is_space x); [|now exists []].
  exists (x :: p). simpl. now rewrite <- IH.
Qed.

Lemma trimStart_trimStart (s : jsstring) : trimStart (trimStart s) = trimStart s.
Proof.
  apply trimStart_fixed. destruct (trimStart s) eqn:E; [exact I|].
  eapply trimStart_head, E.
Qed.

(** Trimming twice is trimming once. *)
Lemma trim_trim (s : jsstring) : trim (trim s) = trim s.
Proof.
  unfold trim. set (t := trimStart s). set (r := trimStart (rev t)).
  assert (Hr : trimStart (rev r) = rev r).
  { apply trimStart_fixed. destruct (rev r) as [|c q] eqn:Eq; [exact I|].
    destruct (trimStart_suffix (rev t)) as [p Hp]. fold r in Hp.
    assert (Ht : t = rev r ++ rev p).
    { rewrite <- (rev_involutive t), Hp, rev_app_distr. reflexivity. }
    rewrite Eq in Ht. simpl in Ht. eapply trimStart_head. unfold t in Ht. exact Ht. }
  rewrite Hr, rev_involutive. unfold r. now rewrite trimStart_trimStart.
Qed.

End Trim.

(** ** Line terminators *)

Section Terminators.

Lemma split_crlf_run (run rest : jsstring) (in_run : bool) :
  run <> [] -> forallb is_crlf run = true ->
  split_crlf in_run (run ++ rest)
  = if in_run then split_crlf true rest else [] :: split_crlf true rest.
Proof.
  revert in_run. induction run as [|c run IH]; intros in_run Hne Hall;
    [congruence|].
  simpl in Hall. apply andb_true_iff in Hall as [Hc Hall]. simpl. rewrite Hc.
  destruct run as [|c' run'].
  - reflexivity.
  - rewrite (IH true) by (congruence || assumption). reflexivity.
Qed.

Lemma split_crlf_any_run (before run rest : jsstring) (in_run : bool) :
  run <> [] -> forallb is_crlf run = true ->
  split_crlf in_run (before ++ run ++ rest)
  = split_crlf in_run (before ++ 10%N :: rest).
Proof.
  intros Hne Hall. revert in_run.
  induction before as [|c before IH]; intros in_run.
  - simpl app. rewrite (split_crlf_run run rest in_run Hne Hall).
    simpl. reflexivity.
  - simpl. destruct (is_crlf c); [destruct in_run|]; now rewrite IH.
Qed.

End Terminators.

(** ** Default file names *)

Section DefaultNames.
Import PdfService Views.

Lemma digits_value_uint (d : Decimal.uint) (acc : nat) :
  digits_value (js (NilEmpty.string_of_uint d)) acc = Nat.of_uint_acc d acc.
Proof.
  revert acc. induction d; intros acc; simpl; try reflexivity;
    rewrite Nat.tail_mul_spec;
    match goal with
    | |- digits_value _ ?a = Nat.of_uint_acc _ ?b =>
        replace a with b by (cbn; lia)
    end; apply IHd.
Qed.

Lemma digits_value_String_of_nat (n : nat) :
  digits_value (String_of_nat n) 0 = n.
Proof.
  unfold String_of_nat. rewrite digits_value_uint.
  apply DecimalNat.Unsigned.of_to.
Qed.

Lemma digits_value_zeros (k : nat) (s : jsstring) :
  digits_value (repeat (N_of_ascii "0"%char) k ++ s) 0 = digits_value s 0.
Proof. induction k as [|k IH]; simpl; [reflexivity|exact IH]. Qed.

Lemma startsWith_app (p s : jsstring) : startsWith p (p ++ s) = true.
Proof.
  induction p as [|c p IH]; simpl; [reflexivity|].
  now rewrite N.eqb_refl, IH.
Qed.

(** X4. A default file name determines the position it was made from, so
    two positions never share a default name. *)
Theorem default_name_round_trip :
  (forall n, name_index (default_name n) = Some n)
  /\ (forall n m, default_name n = default_name m -> n = m).
Proof.
  assert (Hrt : forall n, name_index (default_name n) = Some n).
  { intros n. unfold name_index, default_name.
    set (pad := padStart0 3 (String_of_nat n)).
    rewrite startsWith_app.
    replace (rev (js "PDF_" ++ pad ++ js ".pdf"))
      with (rev (js ".pdf") ++ rev pad ++ rev (js "PDF_"))
      by (now rewrite !rev_app_distr, <- app_assoc).
    rewrite startsWith_app. simpl andb.
    change (js "PDF_") with [80; 68; 70; 95]%N.
    change (js ".pdf") with [46; 112; 100; 102]%N.
    cbn [app skipn].
    replace (List.length (80 :: 68 :: 70 :: 95 :: pad ++ [46; 112; 100; 102])%N - 8)
      with (List.length pad + 0)
      by (cbn [List.length]; rewrite length_app; simpl; lia).
    rewrite firstn_app_2. simpl firstn. rewrite app_nil_r.
    unfold pad, padStart0. rewrite digits_value_zeros.
    f_equal. apply digits_value_String_of_nat. }
  split; [exact Hrt|].
  intros n m E. pose proof (Hrt n) as Hn. rewrite E, Hrt in Hn. congruence.
Qed.

End DefaultNames.

(** ** parseUrls, further *)

Section ParseFurther.
Import PdfService Views Frontend.

Lemma countUrls_accepted (text : jsstring) :
  countUrls text = List.length (filter accepted (split_lines text)).
Proof.
  unfold countUrls. f_equal. apply filter_ext. intros line.
  unfold accepted, first_field.
  now destruct (split_on (N_of_ascii ","%char) line).
Qed.

Lemma parseUrls_text_length `{Host} (input format : jsstring) :
  str_eqb format (js "json") = false ->
  exists items,
    parseUrls input format = Normal items
    /\ List.length items = List.length (filter accepted (split_lines input)).
Proof.
  intros Hf. eexists. split; [now apply parseUrls_text|].
  rewrite <- (length_map url), collect_line_items_url, length_map.
  unfold nonblank_lines. now rewrite filter_accepted_nonblank.
Qed.

(** X1. The number of URLs the page shows for a text is the number of work
    items [parseUrls] makes of it in plain/delimited format. *)
Theorem countUrls_counts_parsed_items `{Host} (text format : jsstring) :
  str_eqb format (js "json") = false ->
  exists items,
    parseUrls text format = Normal items
    /\ countUrls text = List.length items.
Proof.
  intros Hf. destruct (parseUrls_text_length text format Hf) as (items & Hp & Hl).
  exists items. split; [exact Hp|]. now rewrite countUrls_accepted.
Qed.

Lemma countUrls_counts_parsed_items_witness :
  exists items,
    parseUrls (H := Samples.host)
      (js ("https://x.com, L, f.pdf" ++ Samples.lf ++ "not-a-url"
           ++ Samples.lf ++ "http://y.org")) (js "text") = Normal items
    /\ countUrls (js ("https://x.com, L, f.pdf" ++ Samples.lf ++ "not-a-url"
                      ++ Samples.lf ++ "http://y.org")) = List.length items.
Proof.
  exact (countUrls_counts_parsed_items (H := Samples.host)
           (js ("https://x.com, L, f.pdf" ++ Samples.lf ++ "not-a-url"
                ++ Samples.lf ++ "http://y.org")) (js "text") eq_refl).
Defined.

Lemma collect_In {A B : Type} (g : A -> nat -> list B) (l : list A) (idx : nat)
  (b : B) :
  In b (collect g idx l) -> exists a i, In a l /\ In b (g a i).
Proof.
  revert idx. induction l as [|a l IH]; intros idx; simpl; [tauto|].
  rewrite in_app_iff. intros [Hb|Hb].
  - exists a, idx. auto.
  - destruct (IH _ Hb) as (a' & i & Ha & Hg). exists a', i. auto.
Qed.

Lemma default_name_nonempty (n : nat) : default_name n <> [].
Proof. discriminate. Qed.

(** X2. Every work item of a plain/delimited parse has a url that is a
    string beginning with [http://] or [https://] and free of surrounding
    white space, a label that is a trimmed string, and a file name that is a
    non-empty string. *)
Theorem parseUrls_text_items_well_formed `{Host} (input format : jsstring) :
  str_eqb format (js "json") = false ->
  exists items,
    parseUrls input format = Normal items
    /\ forall item, In item items ->
         exists u l f,
           url item = Some (JStr u)
           /\ (startsWith (js "http://") u || startsWith (js "https://") u) = true
           /\ trim u = u
           /\ label item = Some (JStr l) /\ trim l = l
           /\ fileName item = Some (JStr f) /\ f <> [].
Proof.
  intros Hf. eexists. split; [now apply parseUrls_text|].
  intros item Hin. apply collect_In in Hin as (line & i & _ & Hin).
  unfold line_items in Hin. destruct (accepted line) eqn:Ea; [|destruct Hin].
  destruct Hin as [<- | []]. unfold line_item. simpl.
  do 3 eexists. split; [reflexivity|]. split; [exact Ea|].
  split; [apply trim_trim|]. split; [reflexivity|]. split; [|split; [reflexivity|]].
  - unfold field.
    destruct (nth_error (map trim (split_on (N_of_ascii ","%char) line)) 1)
      as [[|c s]|] eqn:En; try reflexivity.
    apply nth_error_In, in_map_iff in En as (x & <- & _). apply trim_trim.
  - unfold field.
    destruct (nth_error (map trim (split_on (N_of_ascii ","%char) line)) 2)
      as [[|c s]|]; try discriminate; apply default_name_nonempty.
Qed.

Lemma parseUrls_text_items_well_formed_witness :
  exists items,
    parseUrls (H := Samples.host)
      (js ("  https://x.com , L , " ++ Samples.lf ++ "not-a-url")) (js "csv")
    = Normal items
    /\ forall item, In item items ->
         exists u l f,
           url item = Some (JStr u)
           /\ (startsWith (js "http://") u || startsWith (js "https://") u) = true
           /\ trim u = u
           /\ label item = Some (JStr l) /\ trim l = l
           /\ fileName item = Some (JStr f) /\ f <> [].
Proof.
  exact (parseUrls_text_items_well_formed (H := Samples.host)
           (js ("  https://x.com , L , " ++ Samples.lf ++ "not-a-url")) (js "csv")
           eq_refl).
Defined.

(** X3. In plain/delimited format any non-empty run of carriage returns and
    line feeds separates two lines like a single line feed: CRLF, CR and LF
    files, with or without empty lines, parse alike. *)
Theorem parseUrls_text_line_terminators `{Host} (before run rest format : jsstring) :
  str_eqb format (js "json") = false ->
  run <> [] -> forallb is_crlf run = true ->
  parseUrls (before ++ run ++ rest) format
  = parseUrls (before ++ 10%N :: rest) format.
Proof.
  intros Hf Hne Hall. rewrite !parseUrls_text by assumption.
  unfold nonblank_lines, split_lines.
  now rewrite (split_crlf_any_run before run rest false Hne Hall).
Qed.

Lemma parseUrls_text_line_terminators_witness :
  parseUrls (H := Samples.host)
    (js "https://a.com" ++ [13; 10; 13; 10]%N ++ js "https://b.com") (js "text")
  = parseUrls (H := Samples.host)
      (js "https://a.com" ++ 10%N :: js "https://b.com") (js "text").
Proof.
  apply (parseUrls_text_line_terminators (H := Samples.host)
           (js "https://a.com") [13; 10; 13; 10]%N (js "https://b.com") (js "text")
           eq_refl); [discriminate | reflexivity].
Defined.

Lemma forallb_false {A : Type} (f : A -> bool) (l : list A) :
  forallb f l = false -> exists x, In x l /\ f x = false.
Proof.
  induction l as [|a l IH]; simpl; [discriminate|].
  destruct (f a) eqn:Ea; simpl.
  - intros E. destruct (IH E) as (x & Hx & Hf). exists x. auto.
  - intros _. exists a. auto.
Qed.

Lemma forEach_throws_null `{Host} (items : list json) (idx : nat)
  (urls : list WorkItem) (m : jsstring) :
  forEach json_element idx items urls = Throws m -> In JNull items.
Proof.
  intros E. destruct (forallb (fun e => negb (is_null e)) items) eqn:En.
  - rewrite forEach_elements in E by assumption. discriminate.
  - apply forallb_false in En as (x & Hx & Hn).
    destruct x; try discriminate. exact Hx.
Qed.

(** X5. In structured-list format the only error [parseUrls] raises is
    [Invalid JSON format]; it raises it when the input does not decode, and
    otherwise only when the decoded array holds a [null]. *)
Theorem parseUrls_json_only_error `{Host} (input : jsstring) :
  (forall m,
      parseUrls input (js "json") = Throws m ->
      m = js "Invalid JSON format"
      /\ ((exists e, JSON_parse input = Throws e)
          \/ exists elems, JSON_parse input = Normal (JArr elems) /\ In JNull elems))
  /\ (forall e,
        JSON_parse input = Throws e ->
        parseUrls input (js "json") = Throws (js "Invalid JSON format")).
Proof.
  split.
  - intros m. rewrite parseUrls_json.
    destruct (JSON_parse input) as [v|e] eqn:Ep; simpl.
    + destruct v as [| b | x | s | elems | ms]; try discriminate.
      destruct (forEach json_element 0 elems []) as [urls|m'] eqn:Ef;
        [discriminate|].
      intros [= <-]. split; [reflexivity|]. right. exists elems.
      split; [reflexivity|]. eapply forEach_throws_null, Ef.
    + intros [= <-]. split; [reflexivity|]. left. now exists e.
  - intros e Ep. rewrite parseUrls_json, Ep. reflexivity.
Qed.

(** X6. When the decoded array holds no [null], structured-list parsing
    yields exactly one item per usable element -- a string, or an object
    with a truthy url -- in order; so it never yields more items than the
    array has elements, which is the count the page shows for a [.json]
    file. *)
Theorem parseUrls_json_items_of_usable_elements `{Host} (input : jsstring)
  (elems : list json) :
  JSON_parse input = Normal (JArr elems) ->
  forallb (fun x => negb (is_null x)) elems = true ->
  exists items,
    parseUrls input (js "json") = Normal items
    /\ List.length items = List.length (filter usable elems)
    /\ List.length items <= detected (js "json") input.
Proof.
  intros Hp Hn. exists (collect element_items 0 elems).
  assert (Hlen : forall l idx,
            List.length (collect element_items idx l)
            = List.length (filter usable l)).
  { induction l as [|e l IH]; intros idx; simpl; [reflexivity|].
    rewrite length_app, IH. unfold element_items.
    destruct (usable e); reflexivity. }
  split; [|split].
  - rewrite parseUrls_json, Hp. simpl. now rewrite forEach_elements.
  - apply Hlen.
  - unfold detected. simpl. rewrite Hp, Hlen. apply filter_length_le.
Qed.

Lemma parseUrls_json_items_of_usable_elements_witness :
  exists items,
    parseUrls (H := Samples.host) Samples.with_gap_text (js "json") = Normal items
    /\ List.length items = 1
    /\ List.length items <= detected (H := Samples.host) (js "json")
                              Samples.with_gap_text.
Proof.
  exact (parseUrls_json_items_of_usable_elements (H := Samples.host)
           Samples.with_gap_text
           [JObj [(js "label", JStr (js "x"))]; JStr (js "https://a.com")]
           eq_refl eq_refl).
Defined.

End ParseFurther.

(** ** convertUrlToPdf, further *)

Section ConvertFurther.
Import PdfService Views.

Lemma or_else_truthy (a : jsval) (b : json) :
  truthy_json b = true -> truthy_json (or_else a b) = true.
Proof.
  intros Hb. unfold or_else. destruct a as [j|]; [|exact Hb].
  destruct (truthy_json j) eqn:Ej; [exact Ej | exact Hb].
Qed.

Lemma api_failure_reason `{Host} (response fileName : json) (o : ConversionOutcome) :
  api_failure response fileName = Normal o ->
  exists e, o = ConvFailure e fileName /\ truthy_json e = true.
Proof.
  unfold api_failure. destruct (get_prop response (js "Error")); simpl; [|discriminate].
  destruct (get_prop response (js "error")); simpl; [|discriminate].
  intros [= <-]. eexists. split; [reflexivity|]. now apply or_else_truthy.
Qed.

(** X7. Whatever the promise of [convertUrlToPdf] is fulfilled with carries
    the file name it was called with; a success carries a truthy artifact
    reference, and a failure carries a truthy reason unless the network
    error's own message is empty.  The promise is rejected only when the
    [Authorization] header refuses the API key, with that fault's message;
    it stays pending only when the response is cut before its end; and no
    exception escapes. *)
Theorem convertUrlToPdf_outcome_fields `{Host} (API_KEY : option jsstring)
  (ev : api_event) (url : jsval) (fileName : json) :
  match convertUrlToPdf API_KEY ev url fileName with
  | Fulfilled (ConvSuccess fileUrl fn) =>
      fn = fileName /\ truthy_json fileUrl = true
  | Fulfilled (ConvFailure error fn) =>
      fn = fileName /\ (truthy_json error = true \/ ev = ApiError [])
  | Rejected m =>
      exists f,
        header_fault (js "Authorization") API_KEY = Some f
        /\ m = engine_message f
  | Pending =>
      header_fault (js "Authorization") API_KEY = None /\ ev = ApiAborted
  | Uncaught _ => False
  end.
Proof.
  unfold convertUrlToPdf.
  destruct (header_fault (js "Authorization") API_KEY) as [f|];
    [exists f; auto|].
  destruct ev as [statusCode data | | m | ].
  - unfold on_end_try.
    destruct (JSON_parse data) as [response|m]; simpl;
      [|split; [reflexivity|left; reflexivity]].
    destruct (get_prop response (js "FileUrl")) as [fu|m]; simpl;
      [|split; [reflexivity|left; reflexivity]].
    assert (Hfail : match
                      match api_failure response fileName with
                      | Normal r => Fulfilled r
                      | Throws m =>
                          Fulfilled (ConvFailure (JStr (js "JSON parse error: " ++ m))
                                       fileName)
                      end
                    with
                    | Fulfilled (ConvSuccess fileUrl fn) =>
                        fn = fileName /\ truthy_json fileUrl = true
                    | Fulfilled (ConvFailure error fn) =>
                        fn = fileName
                        /\ (truthy_json error = true
                            \/ ApiResponse statusCode data = ApiError [])
                    | Rejected m =>
                        exists f, @None engine_fault = Some f /\ m = engine_message f
                    | Pending =>
                        @None engine_fault = None
                        /\ ApiResponse statusCode data = ApiAborted
                    | Uncaught _ => False
                    end).
    { destruct (api_failure response fileName) as [o|m] eqn:Ea.
      - destruct (api_failure_reason _ _ _ Ea) as (e & -> & He).
        split; [reflexivity|left; exact He].
      - split; [reflexivity|left; reflexivity]. }
    destruct fu as [fileUrl|]; [|exact Hfail].
    destruct (truthy_json fileUrl) eqn:Et; [|exact Hfail].
    split; [reflexivity|exact Et].
  - split; reflexivity.
  - split; [reflexivity|]. destruct m; [now right | now left].
  - split; [reflexivity|left; reflexivity].
Qed.

End ConvertFurther.

(** ** downloadPdf, further *)

Section DownloadFurther.
Import PdfService Views.

Lemma str_eqb_neq (a b : jsstring) : a <> b -> str_eqb a b = false.
Proof.
  intros Hne. unfold str_eqb. destruct (list_eq_dec N.eq_dec a b); congruence.
Qed.

Lemma disk_write_other (p q : jsstring) (content : list N) (d : disk) :
  q <> p -> disk_write p content d q = d q.
Proof. intros Hne. unfold disk_write. now rewrite str_eqb_neq. Qed.

Lemma disk_unlink_other (p q : jsstring) (d : disk) :
  q <> p -> disk_unlink p d q = d q.
Proof. intros Hne. unfold disk_unlink. now rewrite str_eqb_neq. Qed.

Lemma disk_write_same (p : jsstring) (content : list N) (d : disk) :
  disk_write p content d p = Some content.
Proof. unfold disk_write. now rewrite str_eqb_refl. Qed.

Lemma disk_unlink_same (p : jsstring) (d : disk) : disk_unlink p d p = None.
Proof. unfold disk_unlink. now rewrite str_eqb_refl. Qed.

(** X8. A download touches no file of the staging directory but the one at
    [localPath], however it ends. *)
Theorem downloadPdf_touches_only_localPath `{Host} (net : network)
  (open_error : opener) (pdfUrl : json) (localPath q : jsstring) (d : disk) :
  q <> localPath ->
  written (downloadPdf net open_error pdfUrl localPath d) q = d q.
Proof.
  intros Hq. download_cases;
    rewrite ?disk_write_other, ?disk_unlink_other, ?disk_write_other
      by assumption; reflexivity.
Qed.

Lemma downloadPdf_touches_only_localPath_witness :
  written (downloadPdf (H := Samples.host) Samples.moved_and_gone
             Samples.open_paths
             (JStr Samples.artifact_url) (js "out/a.pdf")
             (disk_write (js "out/b.pdf") (js "%PDF-1.7") Samples.empty_disk))
    (js "out/b.pdf")
  = Some (js "%PDF-1.7").
Proof.
  rewrite (downloadPdf_touches_only_localPath (H := Samples.host)
             Samples.moved_and_gone Samples.open_paths
             (JStr Samples.artifact_url)
             (js "out/a.pdf") (js "out/b.pdf")
             (disk_write (js "out/b.pdf") (js "%PDF-1.7") Samples.empty_disk)).
  - reflexivity.
  - discriminate.
Defined.

(** X9. What a download of a string URL leaves at [localPath] follows from
    how it ends.  On a path that can be opened: fulfilled, it resolves to
    [localPath] and the file holds the body of the response to the last URL
    requested; rejected after a request, there is no file; rejected before
    any request -- [get] refused the URL --, the empty file the stream
    created stays; when the response callback throws, that empty file stays
    too; pending, the file holds the part of the body that arrived.  On a
    path that cannot be opened the file is as it was and the stream's error
    awaits the process. *)
Theorem downloadPdf_file_follows_outcome `{Host} (net : network)
  (open_error : opener) (u : jsstring) (localPath : jsstring) (d : disk) :
  let r := downloadPdf net open_error (JStr u) localPath d in
  match open_error localPath with
  | Some e => fault r = Some e /\ written r localPath = d localPath
  | None =>
      fault r = None
      /\ match outcome r with
         | Fulfilled p =>
             p = localPath
             /\ exists statusCode location body,
                  net (last (requested r) u) = HttpResponse statusCode location body
                  /\ written r localPath = Some body
         | Rejected m =>
             match requested r with
             | [] => net u = HttpRefused m /\ written r localPath = Some []
             | _ => written r localPath = None
             end
         | Uncaught m => written r localPath = Some []
         | Pending =>
             exists statusCode location received,
               net (last (requested r) u) = HttpAborted statusCode location received
               /\ written r localPath = Some received
         end
  end.
Proof.
  cbv zeta. unfold downloadPdf.
  destruct (open_error localPath) as [e|].
  { destruct (net u); split; reflexivity. }
  unfold on_response, follow, piped, unlinked, escaped.
  destruct (net u) as [st loc body | st loc body | m | | m] eqn:En; simpl;
    try (destruct ((st =? 301)%N || (st =? 302)%N);
         [destruct loc as [t|];
          [destruct (net t) as [st2 loc2 body2 | st2 loc2 body2 | m2 | | m2] eqn:Et|]
         |destruct (st =? 200)%N]);
    simpl; (split; [reflexivity|]);
    rewrite ?disk_unlink_same, ?disk_write_same; auto;
    try (split; [reflexivity|]);
    try (do 3 eexists; split; [eassumption|reflexivity]).
Qed.

(** X10. A download requests at most two URLs.  It requests none exactly
    when its promise is rejected in the executor: [pdfUrl] is not a string,
    or [get] refuses it.  Otherwise it requests [pdfUrl], and after it one
    more URL only when that is the [Location] of a 301 or 302 answer to the
    first request, [get] accepts it and the path could be opened. *)
Theorem downloadPdf_requests `{Host} (net : network) (open_error : opener)
  (pdfUrl : json) (localPath : jsstring) (d : disk) :
  match requested (downloadPdf net open_error pdfUrl localPath d) with
  | [] =>
      exists m,
        outcome (downloadPdf net open_error pdfUrl localPath d) = Rejected m
        /\ ((forall u, pdfUrl <> JStr u)
            \/ exists u, pdfUrl = JStr u /\ net u = HttpRefused m)
  | [u] => pdfUrl = JStr u /\ forall m, net u <> HttpRefused m
  | [u; target] =>
      pdfUrl = JStr u
      /\ open_error localPath = None
      /\ (forall m, net target <> HttpRefused m)
      /\ exists statusCode body,
           (net u = HttpResponse statusCode (Some target) body
            \/ net u = HttpAborted statusCode (Some target) body)
           /\ (statusCode = 301%N \/ statusCode = 302%N)
  | _ => False
  end.
Proof.
  unfold downloadPdf.
  destruct pdfUrl as [| b | x | u | l | ms]; simpl;
    try (eexists; split; [reflexivity | left; discriminate]).
  assert (Hfirst : forall r : Download,
             requested r = [u] -> (forall m, net u <> HttpRefused m) ->
             match requested r with
             | [] =>
                 exists m,
                   outcome r = Rejected m
                   /\ ((forall u0, JStr u <> JStr u0)
                       \/ exists u0, JStr u = JStr u0 /\ net u0 = HttpRefused m)
             | [u0] => JStr u = JStr u0 /\ forall m, net u0 <> HttpRefused m
             | [u0; target] =>
                 JStr u = JStr u0
                 /\ open_error localPath = None
                 /\ (forall m, net target <> HttpRefused m)
                 /\ exists statusCode body,
                      (net u0 = HttpResponse statusCode (Some target) body
                       \/ net u0 = HttpAborted statusCode (Some target) body)
                      /\ (statusCode = 301%N \/ statusCode = 302%N)
             | _ => False
             end).
  { intros r -> Hn. auto. }
  assert (Hhop : forall statusCode location body complete created,
             (net u = HttpResponse statusCode location body
              \/ net u = HttpAborted statusCode location body) ->
             open_error localPath = None ->
             match requested (on_response net u localPath statusCode location body
                                complete created) with
             | [] => False
             | [u0] => JStr u = JStr u0 /\ forall m, net u0 <> HttpRefused m
             | [u0; target] =>
                 JStr u = JStr u0
                 /\ open_error localPath = None
                 /\ (forall m, net target <> HttpRefused m)
                 /\ exists statusCode body,
                      (net u0 = HttpResponse statusCode (Some target) body
                       \/ net u0 = HttpAborted statusCode (Some target) body)
                      /\ (statusCode = 301%N \/ statusCode = 302%N)
             | _ => False
             end).
  { intros st loc body complete created Hn Ho.
    assert (Hacc : forall m, net u <> HttpRefused m).
    { intros m. destruct Hn as [-> | ->]; discriminate. }
    unfold on_response, follow, piped, unlinked, escaped.
    destruct ((st =? 301)%N || (st =? 302)%N) eqn:Er.
    - assert (Hst : st = 301%N \/ st = 302%N).
      { apply orb_true_iff in Er as [E|E]; apply N.eqb_eq in E; auto. }
      destruct loc as [t|]; simpl; [|auto].
      destruct (net t) eqn:Et; simpl; auto;
        (split; [reflexivity|]); (split; [exact Ho|]);
        (split; [intros m; congruence|]); exists st, body; auto.
    - destruct (st =? 200)%N; simpl; auto. }
  destruct (open_error localPath) as [e|] eqn:Eo.
  - destruct (net u) eqn:En; simpl;
      try (split; [reflexivity | intros m'; congruence]).
    eexists. split; [reflexivity|]. right. exists u. auto.
  - destruct (net u) as [st loc body | st loc body | m | | m] eqn:En;
      try (simpl; split; [reflexivity | intros m'; congruence]).
    + pose proof (Hhop st loc body true (disk_write localPath [] d)
                    (or_introl eq_refl) eq_refl) as Hh.
      destruct (requested _) as [|? [|? [|]]]; auto. destruct Hh.
    + pose proof (Hhop st loc body false (disk_write localPath [] d)
                    (or_intror eq_refl) eq_refl) as Hh.
      destruct (requested _) as [|? [|? [|]]]; auto. destruct Hh.
    + simpl. eexists. split; [reflexivity|]. right. exists u. auto.
Qed.

End DownloadFurther.

(** ** processUrls: what the records and the callback carry *)

Section RunRecords.
Import PdfService Views.

Lemma verdict_fields `{Host} (W : World) (outputDir : jsstring) (index : nat)
  (item : WorkItem) :
  match verdict W outputDir index item with
  | inl a =>
      Artifact.index a = index
      /\ Artifact.url a = url item
      /\ Artifact.fileName a = or_else (fileName item) (JStr (default_name index))
      /\ (exists name, Artifact.fileName a = JStr name
                       /\ Artifact.localPath a = path_join outputDir name)
      /\ Artifact.label a = or_else (label item) (JStr [])
  | inr f =>
      Failure.index f = index
      /\ Failure.url f = url item
      /\ Failure.fileName f = or_else (fileName item) (JStr (default_name index))
      /\ Failure.label f = or_else (label item) (JStr [])
  end.
Proof.
  unfold verdict.
  destruct (convertUrlToPdf _ _ _ _) as [[fileUrl fn|error fn]|m|m|]; simpl; auto.
  destruct (or_else (fileName item) (JStr (default_name index))) eqn:En;
    simpl; auto.
  destruct (outcome _); simpl; auto.
  repeat split; auto. now exists s.
Qed.

Lemma verdicts_In `{Host} (W : World) (urls : list WorkItem) (outputDir : jsstring)
  (v : Artifact.t + Failure.t) :
  In v (verdicts W urls outputDir) ->
  exists item,
    nth_error urls (verdict_index v - 1) = Some item
    /\ 1 <= verdict_index v
    /\ v = verdict W outputDir (verdict_index v) item.
Proof.
  unfold verdicts. intros Hin. apply in_map_iff in Hin as ([j item] & <- & Hin).
  simpl. apply settled_order_In in Hin as [Hj Hn].
  rewrite verdict_index_eq. eauto.
Qed.

(** X11. With a callback that returns, every record of the result of a run
    that returns carries the index of an item of the input, that item's url,
    its file name or the default name made from the index, and its label or
    the empty string; a success record's [localPath] is [outputDir] joined
    with that file name. *)
Theorem processUrls_records_carry_items `{Host} (W : World)
  (urls : list WorkItem) (outputDir : jsstring) (onProgress : option callback)
  (d : disk) (r : BatchResult) (st : state) :
  returns onProgress ->
  processUrls W urls outputDir onProgress d = (Returned r, st) ->
  (forall a, In a (success r) ->
      exists item name,
        nth_error urls (Artifact.index a - 1) = Some item
        /\ 1 <= Artifact.index a
        /\ Artifact.url a = url item
        /\ or_else (fileName item) (JStr (default_name (Artifact.index a)))
           = JStr name
        /\ Artifact.fileName a = JStr name
        /\ Artifact.localPath a = path_join outputDir name
        /\ Artifact.label a = or_else (label item) (JStr []))
  /\ (forall f, In f (failed r) ->
      exists item,
        nth_error urls (Failure.index f - 1) = Some item
        /\ 1 <= Failure.index f
        /\ Failure.url f = url item
        /\ Failure.fileName f
           = or_else (fileName item) (JStr (default_name (Failure.index f)))
        /\ Failure.label f = or_else (label item) (JStr [])).
Proof.
  intros Hr Hret.
  pose proof (processUrls_returned W urls outputDir onProgress d r st Hret) as Hl.
  destruct (processUrls_runs W urls outputDir onProgress d Hr Hl)
    as (st' & Hrun & Hs & Hf & _ & _).
  rewrite Hret in Hrun. injection Hrun as -> ->. split.
  - intros a Ha. rewrite Hs in Ha. apply In_lefts, verdicts_In in Ha.
    destruct Ha as (item & Hn & H1 & Hv). simpl in *.
    pose proof (verdict_fields W outputDir (Artifact.index a) item) as Hfields.
    rewrite <- Hv in Hfields.
    destruct Hfields as (_ & Hu & Hfn & (name & Hnm & Hp) & Hlb).
    exists item, name. repeat split; try assumption. congruence.
  - intros f Hin. rewrite Hf in Hin. apply In_rights, verdicts_In in Hin.
    destruct Hin as (item & Hn & H1 & Hv). simpl in *.
    pose proof (verdict_fields W outputDir (Failure.index f) item) as Hfields.
    rewrite <- Hv in Hfields.
    destruct Hfields as (_ & Hu & Hfn & Hlb).
    exists item. repeat split; assumption.
Qed.

Lemma processUrls_records_carry_items_witness :
  exists r st,
    processUrls (H := Samples.host) Samples.world Samples.twelve_pages (js "out")
      Samples.listener Samples.empty_disk = (Returned r, st)
    /\ (forall a, In a (success r) ->
        exists item name,
          nth_error Samples.twelve_pages (Artifact.index a - 1) = Some item
          /\ 1 <= Artifact.index a
          /\ Artifact.url a = url item
          /\ or_else (fileName item) (JStr (default_name (Artifact.index a)))
             = JStr name
          /\ Artifact.fileName a = JStr name
          /\ Artifact.localPath a = @path_join Samples.host (js "out") name
          /\ Artifact.label a = or_else (label item) (JStr []))
    /\ (forall f, In f (failed r) ->
        exists item,
          nth_error Samples.twelve_pages (Failure.index f - 1) = Some item
          /\ 1 <= Failure.index f
          /\ Failure.url f = url item
          /\ Failure.fileName f
             = or_else (fileName item) (JStr (default_name (Failure.index f)))
          /\ Failure.label f = or_else (label item) (JStr [])).
Proof.
  destruct (processUrls_runs (H := Samples.host) Samples.world
              Samples.twelve_pages (js "out") Samples.listener Samples.empty_disk
              listener_returns world_steady) as (st & Hrun & _).
  exists (results st), st. split; [exact Hrun|].
  exact (processUrls_records_carry_items (H := Samples.host) Samples.world
           Samples.twelve_pages (js "out") Samples.listener Samples.empty_disk
           (results st) st listener_returns Hrun).
Defined.

End RunRecords.

Section RunCalls.
Import PdfService Views.
Context `{Host}.
Variable W : World.
Variable urls : list WorkItem.
Variable outputDir : jsstring.
Variable onProgress : option callback.
Hypothesis Hreturns : returns onProgress.
Hypothesis Hsteady : steady W outputDir urls.

Lemma calls_app (l1 l2 : list event) : calls (l1 ++ l2) = calls l1 ++ calls l2.
Proof. apply flat_map_app. Qed.

Lemma emit_calls (p : progress) (st : state) :
  calls (log (snd (emit onProgress p st)))
  = calls (log st) ++ heard onProgress [p].
Proof.
  unfold emit, heard. destruct onProgress as [f|].
  - destruct (f p); simpl; now rewrite calls_app.
  - simpl. now rewrite app_nil_r.
Qed.

Lemma on_catch_calls (index : nat) (name : json) (item : WorkItem)
  (m : jsstring) (st : state) :
  calls (log (snd (on_catch onProgress index name item m st)))
  = calls (log st)
    ++ heard onProgress [ItemFailed index name (url item) (JStr m)].
Proof.
  unfold on_catch.
  match goal with |- context [emit _ ?p ?s] =>
    pose proof (emit_calls p s) as He; destruct (emit onProgress p s) as [[u|m'] st']
  end; simpl in *; exact He.
Qed.

Lemma process_item_calls (i idx : nat) (item : WorkItem) (st : state) :
  settles W outputDir (i + idx + 1) item = true ->
  calls (log (snd (process_item W outputDir onProgress i idx item st)))
  = calls (log st)
    ++ heard onProgress [item_event (verdict W outputDir (i + idx + 1) item)].
Proof.
  unfold process_item, verdict, settles.
  set (index := i + idx + 1).
  set (name := or_else (fileName item) (JStr (default_name index))).
  destruct (convertUrlToPdf (key W) (api W index) (url item) name)
    as [[fileUrl fn|error fn]|m|m|]; try discriminate.
  - destruct name as [| b | x | n | l | ms] eqn:En;
      try (intros _; apply on_catch_calls).
    destruct (downloadPdf_outcome_disk (web W) (opening W) fileUrl
                (path_join outputDir n) (fun _ => None) (files st)) as [-> ->].
    destruct (fault (downloadPdf (web W) (opening W) fileUrl
                       (path_join outputDir n) (files st))); [discriminate|].
    destruct (outcome (downloadPdf (web W) (opening W) fileUrl
                         (path_join outputDir n) (files st)))
      as [p | m | m |] eqn:Eo; try discriminate; intros _.
    + match goal with |- context [emit _ ?p ?s] =>
        destruct (emit_returns onProgress Hreturns p s) as (st' & Hem & _);
        pose proof (emit_calls p s) as Hc; rewrite Hem in *
      end.
      simpl in *. exact Hc.
    + rewrite on_catch_calls. reflexivity.
  - intros _.
    match goal with |- context [emit _ ?p ?s] =>
      destruct (emit_returns onProgress Hreturns p s) as (st' & Hem & _);
      pose proof (emit_calls p s) as Hc; rewrite Hem in *
    end.
    simpl in *. exact Hc.
  - intros _. apply on_catch_calls.
Qed.

Lemma settle_all_calls (i : nat) (order : list (nat * WorkItem)) :
  (forall e, In e order -> settles W outputDir (i + fst e + 1) (snd e) = true) ->
  forall st,
    calls (log (snd (settle_all W outputDir onProgress i order None false st)))
    = calls (log st)
      ++ heard onProgress
           (map (fun e => item_event (verdict W outputDir (i + fst e + 1) (snd e)))
              order).
Proof.
  induction order as [|[idx item] rest IH]; intros Hs st; simpl.
  - unfold heard. destruct onProgress; now rewrite app_nil_r.
  - pose proof (process_item_calls i idx item st
                  (Hs (idx, item) (or_introl eq_refl))) as Hc.
    destruct (process_item_adds W outputDir onProgress Hreturns i idx item st
                (Hs (idx, item) (or_introl eq_refl)))
      as (st1 & Hp & _).
    rewrite Hp in *. simpl in Hc.
    rewrite (IH (fun e He => Hs e (or_intror He))). simpl. rewrite calls_app, Hc.
    simpl. rewrite app_nil_r, <- app_assoc. f_equal.
    unfold heard. destruct onProgress; reflexivity.
Qed.

Lemma requests_calls (i : nat) (es : list (nat * WorkItem)) :
  forall st,
    calls (log (fold_left (fun s e => record (Request (i + fst e + 1)) s) es st))
    = calls (log st).
Proof.
  induction es as [|e es IH]; intros st; simpl; [reflexivity|].
  rewrite IH. simpl. rewrite calls_app. simpl. now rewrite app_nil_r.
Qed.

(** The calls of the batch that begins at [i]. *)
Lemma batches_calls :
  forall fuel i st,
    i < List.length urls + batchSize ->
    List.length urls + batchSize <= i + batchSize * fuel ->
    calls (log (snd (batches W urls outputDir onProgress fuel i st)))
    = calls (log st)
      ++ heard onProgress
           (flat_map
              (fun j =>
                 BatchStart (j / batchSize + 1)
                   (ceil_div (List.length urls) batchSize) j (List.length urls)
                 :: map item_event (batch_verdicts W urls outputDir j))
              (starts_from (List.length urls) i)).
Proof.
  induction fuel as [|fuel IH]; intros i st Hi Hfuel.
  - exfalso. lia.
  - simpl. destruct (i <? List.length urls) eqn:Elt.
    + apply Nat.ltb_lt in Elt.
      match goal with |- context [emit _ ?p ?s] =>
        destruct (emit_returns onProgress Hreturns p s) as (st1 & Hem & _);
        pose proof (emit_calls p s) as Hc1; rewrite Hem in *
      end.
      simpl in Hc1.
      match goal with |- context [settle_all _ _ _ _ ?o _ _ ?s] =>
        destruct (settle_all_adds W outputDir onProgress Hreturns i o
                    (batch_settles W urls outputDir Hsteady i) s)
          as (st3 & Hse & _);
        pose proof (settle_all_calls i o (batch_settles W urls outputDir Hsteady i) s)
          as Hc3;
        rewrite Hse in *
      end.
      simpl in Hc3. rewrite requests_calls in Hc3.
      rewrite IH by (unfold batchSize in *; lia).
      rewrite (starts_from_step _ _ Elt). simpl flat_map.
      rewrite <- batch_verdicts_eq, !map_map.
      assert (Hsl : calls (log (if i + batchSize <? List.length urls
                                then record (Sleep delayBetweenBatches) st3
                                else st3))
                    = calls (log st3)).
      { destruct (i + batchSize <? List.length urls); [|reflexivity].
        simpl. rewrite calls_app. simpl. now rewrite app_nil_r. }
      rewrite Hsl, Hc3, Hc1. rewrite <- !app_assoc. f_equal.
      unfold heard. destruct onProgress; [|reflexivity].
      simpl. reflexivity.
    + apply Nat.ltb_ge in Elt. rewrite (starts_from_done _ _ Elt). simpl.
      unfold heard. destruct onProgress; now rewrite app_nil_r.
Qed.

End RunCalls.

Section RunCallsClaims.
Import PdfService Views.

Lemma success_calls_events (vs : list (Artifact.t + Failure.t)) :
  success_calls (map item_event vs)
  = map (fun a => (Artifact.index a, Artifact.fileName a, Artifact.url a)) (lefts vs).
Proof.
  induction vs as [|[a|f] vs IH]; simpl; [reflexivity| |]; now rewrite IH.
Qed.

Lemma failed_calls_events (vs : list (Artifact.t + Failure.t)) :
  failed_calls (map item_event vs)
  = map (fun f => (Failure.index f, Failure.fileName f, Failure.url f,
                   Failure.error f)) (rights vs).
Proof.
  induction vs as [|[a|f] vs IH]; simpl; [reflexivity| |]; now rewrite IH.
Qed.

Lemma batch_calls_events (vs : list (Artifact.t + Failure.t)) :
  batch_calls (map item_event vs) = [].
Proof. induction vs as [|[a|f] vs IH]; simpl; auto. Qed.

Lemma success_calls_app (p q : list progress) :
  success_calls (p ++ q) = success_calls p ++ success_calls q.
Proof. apply flat_map_app. Qed.

Lemma failed_calls_app (p q : list progress) :
  failed_calls (p ++ q) = failed_calls p ++ failed_calls q.
Proof. apply flat_map_app. Qed.

Lemma batch_calls_app (p q : list progress) :
  batch_calls (p ++ q) = batch_calls p ++ batch_calls q.
Proof. apply flat_map_app. Qed.

Lemma run_calls_projections `{Host} (W : World) (urls : list WorkItem)
  (outputDir : jsstring) (l : list nat) :
  let ps :=
    flat_map
      (fun j =>
         BatchStart (j / batchSize + 1) (ceil_div (List.length urls) batchSize)
           j (List.length urls)
         :: map item_event (batch_verdicts W urls outputDir j)) l in
  let vs := flat_map (batch_verdicts W urls outputDir) l in
  success_calls ps
  = map (fun a => (Artifact.index a, Artifact.fileName a, Artifact.url a)) (lefts vs)
  /\ failed_calls ps
     = map (fun f => (Failure.index f, Failure.fileName f, Failure.url f,
                      Failure.error f)) (rights vs)
  /\ batch_calls ps
     = map (fun j => (j / batchSize + 1, ceil_div (List.length urls) batchSize,
                      j, List.length urls)) l
  /\ List.length ps = List.length l + List.length vs.
Proof.
  cbv zeta. induction l as [|j l (IHs & IHf & IHb & IHl)].
  - simpl. auto.
  - cbn [flat_map].
    set (bs := BatchStart (j / batchSize + 1)
                 (ceil_div (List.length urls) batchSize) j (List.length urls)).
    set (evs := map item_event (batch_verdicts W urls outputDir j)).
    change (bs :: evs ++ ?rest) with ([bs] ++ evs ++ rest).
    rewrite !success_calls_app, !failed_calls_app, !batch_calls_app, !length_app.
    rewrite IHs, IHf, IHb, IHl.
    change (success_calls (bs :: evs)) with (success_calls evs).
    change (failed_calls (bs :: evs)) with (failed_calls evs).
    change (batch_calls (bs :: evs)) with (batch_calls [bs] ++ batch_calls evs).
    unfold evs.
    rewrite success_calls_events, failed_calls_events, batch_calls_events.
    rewrite lefts_app, rights_app, !map_app, ?length_app, ?length_map.
    repeat split; try reflexivity. simpl. rewrite ?length_app, ?length_map. lia.
Qed.

(** X12. When a run with a callback that returns has returned, the callback
    has heard one batch event per batch -- its number, the number of batches,
    the items processed before it and the number of items -- and one item
    event per record: the success events are, in order, the records of
    [success], the failed events the records of [failed] with their errors.
    It was called N + ceil(N / 5) times. *)
Theorem processUrls_calls_match_records `{Host} (W : World)
  (urls : list WorkItem) (outputDir : jsstring) (f : callback) (d : disk)
  (r : BatchResult) (st : state) :
  returns (Some f) ->
  processUrls W urls outputDir (Some f) d = (Returned r, st) ->
  success_calls (calls (log st))
  = map (fun a => (Artifact.index a, Artifact.fileName a, Artifact.url a))
      (success r)
  /\ failed_calls (calls (log st))
     = map (fun x => (Failure.index x, Failure.fileName x, Failure.url x,
                      Failure.error x)) (failed r)
  /\ batch_calls (calls (log st))
     = map (fun k => (k + 1, ceil_div (List.length urls) 5, 5 * k,
                      List.length urls))
         (seq 0 (ceil_div (List.length urls) 5))
  /\ List.length (calls (log st))
     = List.length urls + ceil_div (List.length urls) 5.
Proof.
  intros Hr Hret.
  pose proof (processUrls_returned W urls outputDir (Some f) d r st Hret) as Hl.
  destruct (processUrls_runs W urls outputDir (Some f) d Hr Hl)
    as (st' & Hrun & Hs & Hf & _ & _).
  assert (E : (Returned r, st) = (Returned (results st'), st'))
    by (rewrite <- Hret; exact Hrun).
  injection E as -> ->. clear Hret.
  pose proof (batches_calls W urls outputDir (Some f) Hr Hl
                (S (List.length urls)) 0
                {| results := {| success := []; failed := [];
                                 total := List.length urls |};
                   files := d; log := []; lingering := [] |}) as Hc.
  unfold processUrls in Hrun. rewrite Hrun in Hc.
  cbn [snd log] in Hc. change (calls []) with (@nil progress) in Hc.
  cbn [app heard] in Hc.
  rewrite Hc by (unfold batchSize; lia).
  destruct (run_calls_projections W urls outputDir
              (starts_from (List.length urls) 0)) as (Ps & Pf & Pb & Pl).
  assert (Hv : flat_map (batch_verdicts W urls outputDir)
                 (starts_from (List.length urls) 0)
               = verdicts W urls outputDir).
  { unfold verdicts, settled_order, starts, batch_verdicts.
    now rewrite <- flat_map_map. }
  rewrite Hv in *. split; [|split; [|split]].
  - rewrite Ps, Hs. reflexivity.
  - rewrite Pf, Hf. reflexivity.
  - rewrite Pb. unfold starts_from. rewrite map_map, Nat.sub_0_r.
    apply map_ext. intros k. unfold batchSize.
    rewrite Nat.add_0_l, (Nat.mul_comm 5 k), Nat.div_mul by lia. reflexivity.
  - rewrite Pl. unfold starts_from. rewrite length_map, length_seq, Nat.sub_0_r.
    assert (Hn : List.length (verdicts W urls outputDir) = List.length urls).
    { rewrite <- (lefts_rights_length (verdicts W urls outputDir)).
      unfold verdicts. rewrite lefts_rights_length, length_map.
      rewrite (Permutation_length (settled_order_perm W urls)).
      rewrite length_combine, length_seq. lia. }
    rewrite Hn. unfold batchSize. lia.
Qed.

Lemma processUrls_calls_match_records_witness :
  exists r st,
    processUrls (H := Samples.host) Samples.world Samples.twelve_pages (js "out")
      (Some (fun _ => None)) Samples.empty_disk = (Returned r, st)
    /\ success_calls (calls (log st))
       = map (fun a => (Artifact.index a, Artifact.fileName a, Artifact.url a))
           (success r)
    /\ failed_calls (calls (log st))
       = map (fun x => (Failure.index x, Failure.fileName x, Failure.url x,
                        Failure.error x)) (failed r)
    /\ batch_calls (calls (log st))
       = [(1, 3, 0, 12); (2, 3, 5, 12); (3, 3, 10, 12)]
    /\ List.length (calls (log st)) = 15.
Proof.
  destruct (processUrls_runs (H := Samples.host) Samples.world
              Samples.twelve_pages (js "out") (Some (fun _ => None))
              Samples.empty_disk listener_returns world_steady)
    as (st & Hrun & _).
  exists (results st), st. split; [exact Hrun|].
  exact (processUrls_calls_match_records (H := Samples.host) Samples.world
           Samples.twelve_pages (js "out") (fun _ => None) Samples.empty_disk
           (results st) st listener_returns Hrun).
Defined.

End RunCallsClaims.

(** ** processUrls: the staging directory *)

Section Staging.
Import PdfService Views.
Context `{Host}.
Variable W : World.
Variable urls : list WorkItem.
Variable outputDir : jsstring.
Variable onProgress : option callback.

Lemma written_elsewhere (net : network) (open_error : opener) (pdfUrl : json)
  (localPath q : jsstring) (d : disk) :
  q <> localPath ->
  written (downloadPdf net open_error pdfUrl localPath d) q = d q.
Proof.
  intros Hq. download_cases;
    rewrite ?disk_write_other, ?disk_unlink_other, ?disk_write_other
      by assumption; reflexivity.
Qed.

Lemma written_fulfilled (net : network) (open_error : opener) (pdfUrl : json)
  (localPath p : jsstring) (d : disk) :
  outcome (downloadPdf net open_error pdfUrl localPath d) = Fulfilled p ->
  written (downloadPdf net open_error pdfUrl localPath d) localPath <> None.
Proof.
  download_cases; try discriminate; intros _; now rewrite disk_write_same.
Qed.

Lemma emit_files (p : progress) (st : state) :
  files (snd (emit onProgress p st)) = files st.
Proof.
  unfold emit. destruct onProgress as [f|]; [|reflexivity].
  destruct (f p); reflexivity.
Qed.

Lemma on_catch_files (index : nat) (name : json) (item : WorkItem)
  (m : jsstring) (st : state) :
  files (snd (on_catch onProgress index name item m st)) = files st.
Proof.
  unfold on_catch.
  match goal with |- context [emit _ ?p ?s] =>
    pose proof (emit_files p s) as He; destruct (emit onProgress p s) as [[u|m'] st']
  end; simpl in *; exact He.
Qed.

(** An item touches no path but its own target. *)
Lemma process_item_frame (i idx : nat) (item : WorkItem) (st : state)
  (q : jsstring) :
  ~ In q (item_targets outputDir (i + idx + 1, item)) ->
  files (snd (process_item W outputDir onProgress i idx item st)) q = files st q.
Proof.
  unfold process_item, item_targets. simpl fst. simpl snd.
  set (index := i + idx + 1).
  set (name := or_else (fileName item) (JStr (default_name index))).
  intros Hq.
  destruct (convertUrlToPdf (key W) (api W index) (url item) name)
    as [[fileUrl fn|error fn]|m|m|]; try reflexivity.
  - destruct name as [| b | x | n | l | ms] eqn:En;
      try (now rewrite on_catch_files).
    assert (Hne : q <> path_join outputDir n) by (intros ->; apply Hq; now left).
    match goal with
    | |- files (snd (match fault ?d with None => ?after | Some e => _ end)) q = _ =>
        assert (Hafter : files (snd after) q = files st q);
        [|destruct (fault d); exact Hafter]
    end.
    destruct (outcome (downloadPdf (web W) (opening W) fileUrl
                         (path_join outputDir n) (files st)))
      as [p | m | m |].
    + match goal with |- context [emit _ ?p ?s] =>
        pose proof (emit_files p s) as He;
        destruct (emit onProgress p s) as [[u|m'] st']
      end; simpl in *.
      * rewrite He. now apply written_elsewhere.
      * rewrite on_catch_files, He. now apply written_elsewhere.
    + rewrite on_catch_files. simpl. now apply written_elsewhere.
    + simpl. now apply written_elsewhere.
    + simpl. now apply written_elsewhere.
  - match goal with |- context [emit _ ?p ?s] =>
      pose proof (emit_files p s) as He;
      destruct (emit onProgress p s) as [[u|m'] st']
    end; simpl in *.
    + now rewrite He.
    + now rewrite on_catch_files, He.
  - now rewrite on_catch_files.
Qed.

Lemma settle_all_frame (i : nat) (order : list (nat * WorkItem)) (q : jsstring) :
  (forall e, In e order -> ~ In q (item_targets outputDir (i + fst e + 1, snd e))) ->
  forall rejection waiting st,
    files (snd (settle_all W outputDir onProgress i order rejection waiting st)) q
    = files st q.
Proof.
  induction order as [|[idx item] rest IH]; intros Hq rejection waiting st; simpl.
  - destruct rejection; [|destruct waiting]; reflexivity.
  - pose proof (process_item_frame i idx item st q (Hq (idx, item) (or_introl eq_refl)))
      as Hp.
    destruct (process_item W outputDir onProgress i idx item st) as [[u|m|m|] st1];
      simpl in Hp.
    + rewrite IH by (intros e He; apply Hq; now right). exact Hp.
    + rewrite IH by (intros e He; apply Hq; now right). exact Hp.
    + exact Hp.
    + rewrite IH by (intros e He; apply Hq; now right). exact Hp.
Qed.

Lemma requests_files (i : nat) (es : list (nat * WorkItem)) :
  forall st,
    files (fold_left (fun s e => record (Request (i + fst e + 1)) s) es st)
    = files st.
Proof.
  induction es as [|e es IH]; intros st; simpl; [reflexivity|]. now rewrite IH.
Qed.

Lemma slice_numbered_In (i j : nat) (x : WorkItem) :
  In (j, x) (combine (batch_indices (List.length urls) i)
               (slice i (i + batchSize) urls)) ->
  In (j, x) (combine (seq 1 (List.length urls)) urls).
Proof.
  unfold batch_indices. rewrite <- (slice_length urls i).
  rewrite !In_combine_seq. unfold slice.
  replace (i + batchSize - i) with batchSize by lia.
  intros [Hj Hn]. rewrite nth_error_firstn in Hn.
  destruct (j - (i + 1) <? batchSize); [|discriminate].
  rewrite nth_error_skipn in Hn. split; [lia|].
  now replace (j - 1) with (i + (j - (i + 1))) by lia.
Qed.

Lemma batch_entry_In (i : nat) (e : nat * WorkItem) :
  In e (sort_by (fun e => finish W (i + fst e + 1))
          (entries (slice i (i + batchSize) urls))) ->
  In (i + fst e + 1, snd e) (combine (seq 1 (List.length urls)) urls).
Proof.
  intros He. apply (Permutation_in _ (sort_by_perm _ _)) in He.
  apply (slice_numbered_In i). rewrite <- entries_numbered.
  apply in_map_iff. now exists e.
Qed.

Lemma batches_frame (q : jsstring) :
  ~ In q (targets outputDir urls) ->
  forall fuel i st,
    files (snd (batches W urls outputDir onProgress fuel i st)) q = files st q.
Proof.
  intros Hq. induction fuel as [|fuel IH]; intros i st; simpl; [reflexivity|].
  destruct (i <? List.length urls); [|reflexivity].
  match goal with |- context [emit _ ?p ?s] =>
    pose proof (emit_files p s) as He; destruct (emit onProgress p s) as [[u|m] st1]
  end; simpl in He; [|simpl; now rewrite He].
  match goal with |- context [settle_all _ _ _ _ ?o None false ?s] =>
    pose proof (settle_all_frame i o q) as Hs;
    specialize (fun Hin => Hs Hin None false s);
    destruct (settle_all W outputDir onProgress i o None false s) as [[v|m|m|] st3]
  end; simpl in Hs; rewrite requests_files, He in Hs.
  - rewrite IH.
    assert (Hsleep : files (if i + batchSize <? List.length urls
                            then record (Sleep delayBetweenBatches) st3 else st3)
                     = files st3)
      by (destruct (i + batchSize <? List.length urls); reflexivity).
    rewrite Hsleep. apply Hs. intros e Hin Ht. apply Hq.
    unfold targets. apply in_flat_map. eexists. split; [|exact Ht].
    now apply batch_entry_In.
  - simpl. apply Hs. intros e Hin Ht. apply Hq.
    unfold targets. apply in_flat_map. eexists. split; [|exact Ht].
    now apply batch_entry_In.
  - simpl. apply Hs. intros e Hin Ht. apply Hq.
    unfold targets. apply in_flat_map. eexists. split; [|exact Ht].
    now apply batch_entry_In.
  - simpl. apply Hs. intros e Hin Ht. apply Hq.
    unfold targets. apply in_flat_map. eexists. split; [|exact Ht].
    now apply batch_entry_In.
Qed.

End Staging.

Section StagingClaims.
Import PdfService Views.

(** X13. However a run ends -- returned, rejected, crashed or waiting for
    ever -- it has changed no file of the staging directory but those at
    [outputDir] joined with the file name, given or default, of one of its
    items. *)
Theorem processUrls_writes_only_targets `{Host} (W : World)
  (urls : list WorkItem) (outputDir : jsstring) (onProgress : option callback)
  (d : disk) (q : jsstring) :
  ~ In q (targets outputDir urls) ->
  files (snd (processUrls W urls outputDir onProgress d)) q = d q.
Proof.
  intros Hq. unfold processUrls.
  now rewrite (batches_frame W urls outputDir onProgress q Hq).
Qed.

Lemma processUrls_writes_only_targets_witness :
  files (snd (processUrls (H := Samples.host) Samples.world Samples.twelve_pages
                (js "out") Samples.listener
                (disk_write (js "out/notes.txt") (js "keep") Samples.empty_disk)))
    (js "out/notes.txt")
  = Some (js "keep").
Proof.
  rewrite (processUrls_writes_only_targets (H := Samples.host) Samples.world
             Samples.twelve_pages (js "out") Samples.listener
             (disk_write (js "out/notes.txt") (js "keep") Samples.empty_disk)
             (js "out/notes.txt")).
  - reflexivity.
  - vm_compute. intuition discriminate.
Defined.

End StagingClaims.

Section Staged.
Import PdfService Views.
Context `{Host}.
Variable W : World.
Variable urls : list WorkItem.
Variable outputDir : jsstring.
Variable onProgress : option callback.
Hypothesis Hreturns : returns onProgress.
Hypothesis Hsteady : steady W outputDir urls.

Lemma verdict_target (index : nat) (item : WorkItem) (a : Artifact.t) :
  verdict W outputDir index item = inl a ->
  item_targets outputDir (index, item) = [Artifact.localPath a].
Proof.
  unfold verdict, item_targets. simpl fst. simpl snd.
  destruct (or_else (fileName item) (JStr (default_name index)))
    as [| b | x | n | l | ms];
    destruct (convertUrlToPdf _ _ _ _) as [[fileUrl fn|error fn]|m|m|];
    try discriminate.
  destruct (outcome _); try discriminate. intros [= <-]. reflexivity.
Qed.

Lemma process_item_staged (i idx : nat) (item : WorkItem) (st : state)
  (a : Artifact.t) :
  verdict W outputDir (i + idx + 1) item = inl a ->
  files (snd (process_item W outputDir onProgress i idx item st))
    (Artifact.localPath a) <> None.
Proof.
  unfold process_item, verdict.
  set (index := i + idx + 1).
  set (name := or_else (fileName item) (JStr (default_name index))).
  destruct (convertUrlToPdf (key W) (api W index) (url item) name)
    as [[fileUrl fn|error fn]|m|m|]; try discriminate.
  destruct name as [| b | x | n | l | ms]; try discriminate.
  rewrite (proj1 (downloadPdf_outcome_disk (web W) (opening W) fileUrl
                    (path_join outputDir n) (fun _ => None) (files st))).
  destruct (outcome (downloadPdf (web W) (opening W) fileUrl
                       (path_join outputDir n) (files st)))
    as [p | m | m |] eqn:Eo; try discriminate.
  intros [= <-]. simpl Artifact.localPath.
  match goal with
  | |- files (snd (match fault ?d with None => ?after | Some e => _ end)) ?q <> _ =>
      assert (Hafter : files (snd after) q <> None);
      [|destruct (fault d); exact Hafter]
  end.
  match goal with |- context [emit _ ?p ?s] =>
    destruct (emit_returns onProgress Hreturns p s) as (st' & Hem & _);
    pose proof (emit_files onProgress p s) as He; rewrite Hem in *
  end.
  simpl in *. rewrite He. eapply written_fulfilled, Eo.
Qed.

Lemma settle_all_staged (i : nat) (order : list (nat * WorkItem)) :
  (forall e, In e order -> settles W outputDir (i + fst e + 1) (snd e) = true) ->
  forall st rest,
    NoDup (flat_map (fun e => item_targets outputDir (i + fst e + 1, snd e)) order
           ++ rest) ->
    staged st
      (flat_map (fun e => item_targets outputDir (i + fst e + 1, snd e)) order
       ++ rest) ->
    staged (snd (settle_all W outputDir onProgress i order None false st)) rest.
Proof.
  induction order as [|[idx item] rest' IH]; intros Hall st rest Hnd Hst.
  - exact Hst.
  - simpl.
    destruct (process_item_adds W outputDir onProgress Hreturns i idx item st
                (Hall (idx, item) (or_introl eq_refl)))
      as (st1 & Hp & Hs & _).
    pose proof (process_item_frame W outputDir onProgress i idx item st) as Hfr.
    pose proof (process_item_staged i idx item st) as Hnew.
    rewrite Hp in *. simpl snd in *.
    apply IH.
    + intros e He. apply Hall. now right.
    + simpl in Hnd. rewrite <- app_assoc in Hnd.
      eapply NoDup_app_remove_l, Hnd.
    + simpl in Hnd, Hst. rewrite <- app_assoc in Hnd, Hst.
      intros a Ha. simpl in Ha. rewrite Hs in Ha. apply in_app_iff in Ha as [Ha|Ha].
      * destruct (Hst a Ha) as [Hfile Hout]. split.
        -- simpl. rewrite Hfr; [exact Hfile|].
           intros Hin. apply Hout. apply in_app_iff. now left.
        -- intros Hin. apply Hout. apply in_app_iff. now right.
      * destruct (verdict W outputDir (i + idx + 1) item) as [a'|f] eqn:Ev;
          [|destruct Ha].
        destruct Ha as [<- | []]. split.
        -- simpl. now apply Hnew.
        -- rewrite (verdict_target _ _ _ Ev) in Hnd. simpl in Hnd.
           now apply NoDup_cons_iff in Hnd as [Hnot _].
Qed.

Lemma flat_map_of_map {A B C : Type} (f : A -> B) (g : B -> list C) (l : list A) :
  flat_map g (map f l) = flat_map (fun a => g (f a)) l.
Proof. induction l as [|a l IH]; simpl; [reflexivity|]. now rewrite IH. Qed.

Lemma batch_targets_eq (i : nat) :
  flat_map (fun e => item_targets outputDir (i + fst e + 1, snd e))
    (sort_by (fun e => finish W (i + fst e + 1))
       (entries (slice i (i + batchSize) urls)))
  = flat_map (item_targets outputDir) (batch_settled W urls i).
Proof.
  unfold batch_settled. rewrite <- entries_numbered.
  rewrite <- (sort_by_map (fun e : nat * WorkItem => (i + fst e + 1, snd e))
                (fun e => finish W (fst e))).
  now rewrite flat_map_of_map.
Qed.

Lemma batches_staged :
  forall fuel i st,
    i < List.length urls + batchSize ->
    List.length urls + batchSize <= i + batchSize * fuel ->
    NoDup (flat_map (item_targets outputDir)
             (flat_map (batch_settled W urls) (starts_from (List.length urls) i))) ->
    staged st
      (flat_map (item_targets outputDir)
         (flat_map (batch_settled W urls) (starts_from (List.length urls) i))) ->
    staged (snd (batches W urls outputDir onProgress fuel i st)) [].
Proof.
  induction fuel as [|fuel IH]; intros i st Hi Hfuel Hnd Hst.
  - exfalso. lia.
  - simpl. destruct (i <? List.length urls) eqn:Elt.
    + apply Nat.ltb_lt in Elt.
      rewrite (starts_from_step _ _ Elt) in Hnd, Hst.
      simpl flat_map in Hnd, Hst. rewrite flat_map_app in Hnd, Hst.
      rewrite <- batch_targets_eq in Hnd, Hst.
      match goal with |- context [emit _ ?p ?s] =>
        destruct (emit_returns onProgress Hreturns p s) as (st1 & Hem & Ha1);
        pose proof (emit_files onProgress p s) as Hf1; rewrite Hem in *
      end.
      simpl in Hf1.
      match goal with |- context [settle_all _ _ _ _ ?o None false ?s] =>
        destruct (settle_all_adds W outputDir onProgress Hreturns i o
                    (batch_settles W urls outputDir Hsteady i) s)
          as (st3 & Hse & _);
        pose proof (settle_all_staged i o
                      (batch_settles W urls outputDir Hsteady i) s _ Hnd) as Hs3;
        rewrite Hse in *
      end.
      simpl snd in Hs3.
      apply IH.
      * lia.
      * unfold batchSize in *. lia.
      * eapply NoDup_app_remove_l, Hnd.
      * assert (Hst3 : staged st3
                  (flat_map (item_targets outputDir)
                     (flat_map (batch_settled W urls)
                        (starts_from (List.length urls) (i + batchSize))))).
        { apply Hs3. intros a Ha.
          destruct Ha1 as (Hs1 & _).
          assert (success (results
                    (fold_left (fun s e => record (Request (i + fst e + 1)) s)
                       (entries (slice i (i + batchSize) urls)) st1))
                  = success (results st)) as Hsame.
          { destruct (requests_adds i (entries (slice i (i + batchSize) urls)) st1)
              as (Hrs & _).
            rewrite Hrs, Hs1. simpl. now rewrite !app_nil_r. }
          rewrite Hsame in Ha. rewrite requests_files, Hf1. now apply Hst. }
        destruct (i + batchSize <? List.length urls); exact Hst3.
    + intros a Ha. destruct (Hst a Ha) as [Hfile _]. split; [exact Hfile|].
      intros [].
Qed.

End Staged.

Section StagedClaims.
Import PdfService Views.

Lemma flat_map_perm_list {A B : Type} (f : A -> list B) (l l' : list A) :
  Permutation l l' -> Permutation (flat_map f l) (flat_map f l').
Proof.
  induction 1; simpl.
  - constructor.
  - now apply Permutation_app_head.
  - rewrite !app_assoc. apply Permutation_app_tail, Permutation_app_comm.
  - etransitivity; eassumption.
Qed.

(** X14. With a callback that returns, if the paths the items are
    downloaded to are pairwise distinct, then when the run returns the file
    of every record of [success] is in the staging directory at the record's
    [localPath], unless the download left its first request open: a
    redirected download, whose file the timer or an error of that request
    may yet remove. *)
Theorem processUrls_stages_every_artifact `{Host} (W : World)
  (urls : list WorkItem) (outputDir : jsstring) (onProgress : option callback)
  (d : disk) (r : BatchResult) (st : state) :
  returns onProgress ->
  NoDup (targets outputDir urls) ->
  processUrls W urls outputDir onProgress d = (Returned r, st) ->
  forall a, In a (success r) ->
            ~ In (Artifact.localPath a) (lingering st) ->
            files st (Artifact.localPath a) <> None.
Proof.
  intros Hr Hnd Hret.
  pose proof (processUrls_returned W urls outputDir onProgress d r st Hret) as Hl.
  pose proof (batches_staged W urls outputDir onProgress Hr Hl
                (S (List.length urls)) 0
                {| results := {| success := []; failed := [];
                                 total := List.length urls |};
                   files := d; log := []; lingering := [] |}) as Hst.
  assert (Hres : r = results st).
  { destruct (processUrls_runs W urls outputDir onProgress d Hr Hl)
      as (st' & Hrun & _).
    rewrite Hret in Hrun. now injection Hrun as -> ->. }
  unfold processUrls in Hret. rewrite Hret in Hst. simpl snd in Hst.
  intros a Ha _. rewrite Hres in Ha. apply Hst; try assumption.
  - unfold batchSize. lia.
  - unfold batchSize. lia.
  - eapply Permutation_NoDup; [|exact Hnd]. unfold targets. symmetry.
    apply flat_map_perm_list. apply (settled_order_perm W urls).
  - intros a' [].
Qed.

Lemma processUrls_stages_every_artifact_witness :
  exists r st,
    processUrls (H := Samples.host) Samples.world Samples.twelve_pages (js "out")
      Samples.listener Samples.empty_disk = (Returned r, st)
    /\ lingering st = [js "out/PDF_007.pdf"]
    /\ map Artifact.localPath (success r)
       = map (fun k => js "out/" ++ default_name k) [5; 4; 2; 1; 10; 9; 8; 6; 12; 11]
    /\ forall a, In a (success r) ->
                 ~ In (Artifact.localPath a) (lingering st) ->
                 files st (Artifact.localPath a) <> None.
Proof.
  destruct (processUrls_runs (H := Samples.host) Samples.world
              Samples.twelve_pages (js "out") Samples.listener Samples.empty_disk
              listener_returns world_steady) as (st & Hrun & _).
  exists (results st), st. split; [exact Hrun|].
  assert (Est : st = snd (processUrls (H := Samples.host) Samples.world
                            Samples.twelve_pages (js "out") Samples.listener
                            Samples.empty_disk)) by now rewrite Hrun.
  split; [rewrite Est; reflexivity|]. split; [rewrite Est; reflexivity|].
  apply (processUrls_stages_every_artifact (H := Samples.host) Samples.world
           Samples.twelve_pages (js "out") Samples.listener Samples.empty_disk
           (results st) st listener_returns); [|exact Hrun].
  vm_compute.
  repeat (apply NoDup_cons;
          [let Hin := fresh in
           intros Hin; repeat (destruct Hin as [Hin|Hin]; [discriminate Hin|]);
           exact Hin|]).
  apply NoDup_nil.
Defined.

End StagedClaims.

(** ** initializeDrive *)

Section DriveInit.
Import PdfService DriveClient.

(** X15. [initializeDrive] keeps the client it built: once a call has
    succeeded, every later call returns that client whatever the
    environment and the files have become; a call that fails leaves no
    client behind, so that the next call starts afresh. *)
Theorem initializeDrive_builds_once `{Host} (M : Machine)
  (driveClient : option Client) :
  (forall client after,
      initializeDrive M driveClient = (Normal client, after) ->
      after = Some client
      /\ forall M', initializeDrive M' after = (Normal client, after))
  /\ (forall m after,
        initializeDrive M driveClient = (Throws m, after) ->
        driveClient = None /\ after = None).
Proof.
  unfold initializeDrive. split.
  - intros client after. destruct driveClient as [c|].
    + intros [= <- <-]. split; [reflexivity|]. reflexivity.
    + destruct (build_client M) as [c|m]; [|discriminate].
      intros [= <- <-]. split; reflexivity.
  - intros m after. destruct driveClient as [c|]; [discriminate|].
    destruct (build_client M) as [c|m']; [discriminate|].
    intros [= _ <-]. split; reflexivity.
Qed.

Lemma initializeDrive_builds_once_witness :
  exists client,
    initializeDrive (H := Fixtures.host) Fixtures.machine None
    = (Normal client, Some client)
    /\ auth client
       = OAuth2 (Some (JStr (js "id"))) (Some (JStr (js "s")))
           (Some (JStr (js "http://localhost"))) Fixtures.token
    /\ initializeDrive (H := Fixtures.host) Fixtures.bare_machine (Some client)
       = (Normal client, Some client)
    /\ initializeDrive (H := Fixtures.host) Fixtures.bare_machine None
       = (Throws (js "Google credentials file not found at: /etc/creds.json"), None).
Proof.
  eexists. split; [reflexivity|]. split; [reflexivity|]. split.
  - exact (proj2 (proj1 (initializeDrive_builds_once (H := Fixtures.host)
                           Fixtures.machine None) _ _ eq_refl)
             Fixtures.bare_machine).
  - reflexivity.
Defined.

End DriveInit.

(** ** uploadPdfsToSharedFolder, further *)

Section DriveFurther.
Import PdfService GoogleDriveService Views.

(** X16. The delivery by upload fails exactly when the folder cannot be
    created or cannot be shared, and then reports that error's message; an
    initialisation that fails is the folder creation's failure.  No upload
    error ever becomes the delivery's error. *)
Theorem uploadPdfsToSharedFolder_failure (G : Drive) (pdfFiles : list Artifact.t)
  (folderName recipientEmail : jsstring) :
  (forall m,
      uploadPdfsToSharedFolder G pdfFiles folderName recipientEmail = NotShared m
      <-> createFolder G folderName = Throws m
          \/ exists folder,
               createFolder G folderName = Normal folder
               /\ shareWithEmail G (id folder) recipientEmail (js "reader")
                  = Throws m)
  /\ (forall m,
        initializeDrive G = Throws m ->
        uploadPdfsToSharedFolder G pdfFiles folderName recipientEmail
        = NotShared m).
Proof.
  split.
  - intros m. unfold uploadPdfsToSharedFolder.
    destruct (createFolder G folderName) as [folder|m'] eqn:Ec.
    + destruct (shareWithEmail G (id folder) recipientEmail (js "reader"))
        as [link|m''] eqn:Es.
      * split; [discriminate|].
        intros [E | (folder' & [= <-] & E)]; [discriminate|]. congruence.
      * split.
        -- intros [= <-]. right. exists folder. auto.
        -- intros [E | (folder' & [= <-] & E)]; [discriminate|]. congruence.
    + split.
      * intros [= <-]. now left.
      * intros [[= <-] | (folder' & E & _)]; [reflexivity|discriminate].
  - intros m Hi. unfold uploadPdfsToSharedFolder, createFolder. now rewrite Hi.
Qed.

End DriveFurther.

(** ** The mail service, further *)

Section MailFurther.
Import PdfService EmailService Views.

Lemma sanitize_unit (c : N) :
  let c' := if is_alnum c then c else N_of_ascii "_"%char in
  (is_alnum c' || N.eqb c' 95)%bool = true
  /\ (if is_alnum c' then c' else N_of_ascii "_"%char) = c'.
Proof.
  cbv zeta. destruct (is_alnum c) eqn:E.
  - rewrite E. auto.
  - split; reflexivity.
Qed.

(** X17. The bundle's file name is made of the folder name with every code
    unit that is not an ASCII letter or digit replaced by an underscore,
    one for one, followed by [.zip]: sanitising keeps the length, is
    idempotent, and leaves no slash or backslash in the name. *)
Theorem zipFileName_is_safe (folderName : jsstring) :
  List.length (sanitize folderName) = List.length folderName
  /\ Forall (fun c => (is_alnum c || N.eqb c 95)%bool = true) (sanitize folderName)
  /\ sanitize (sanitize folderName) = sanitize folderName
  /\ ~ In 47%N (zipFileName_of folderName)
  /\ ~ In 92%N (zipFileName_of folderName).
Proof.
  assert (Hall : Forall (fun c => (is_alnum c || N.eqb c 95)%bool = true)
                   (sanitize folderName)).
  { unfold sanitize. apply Forall_forall. intros c Hc.
    apply in_map_iff in Hc as (x & <- & _). apply (sanitize_unit x). }
  split; [apply length_map|]. split; [exact Hall|]. split; [|split].
  - unfold sanitize. rewrite map_map. apply map_ext. intros c.
    apply (sanitize_unit c).
  - unfold zipFileName_of. rewrite in_app_iff. intros [Hin|Hin].
    + rewrite Forall_forall in Hall. apply Hall in Hin. discriminate.
    + simpl in Hin. intuition discriminate.
  - unfold zipFileName_of. rewrite in_app_iff. intros [Hin|Hin].
    + rewrite Forall_forall in Hall. apply Hall in Hin. discriminate.
    + simpl in Hin. intuition discriminate.
Qed.

Lemma failed_row_throws `{Host} (item : Failure.t) :
  (exists m, failed_row item = Throws m) <-> not_string (Failure.url item) = true.
Proof.
  unfold failed_row, not_string.
  destruct (Failure.url item) as [[| b | x | s | l | ms]|]; simpl;
    split; try reflexivity; try discriminate;
    try (intros _; eexists; reflexivity).
  intros [m Hm]. discriminate.
Qed.

Lemma failed_rows_spec `{Host} (items : list Failure.t) :
  match failed_rows items with
  | Normal rows =>
      existsb (fun item => not_string (Failure.url item)) items = false
      /\ map (fun r => fst (fst r)) rows = map Failure.index items
      /\ map snd rows = map Failure.error items
      /\ Forall2 (fun r item =>
                    exists u, Failure.url item = Some (JStr u)
                              /\ snd (fst r) = firstn 50 u) rows items
  | Throws _ => existsb (fun item => not_string (Failure.url item)) items = true
  end.
Proof.
  induction items as [|item items IH]; simpl.
  - repeat split. constructor.
  - unfold failed_row at 1.
    destruct (Failure.url item) as [[| b | x | s | l | ms]|] eqn:Eu; simpl;
      try reflexivity.
    destruct (failed_rows items) as [rows|m]; simpl; [|exact IH].
    destruct IH as (He & Hi & Her & Hf). repeat split; try assumption.
    + now rewrite Hi.
    + now rewrite Her.
    + constructor; [|exact Hf]. exists s. auto.
Qed.


Section Send.
Context `{Host}.
Variable M : Mailer.

Lemma on_catch_fulfils (p m : jsstring) (st : state) :
  exists st1,
    on_catch p m st = (Fulfilled (NotSent m), st1)
    /\ outbox st1 = outbox st
    /\ files st1 p = None
    /\ forall q, q <> p -> files st1 q = files st q.
Proof.
  unfold on_catch, unlinkSync. destruct (files st p) eqn:E.
  - eexists. split; [reflexivity|]. simpl. split; [reflexivity|].
    split; [apply disk_unlink_same|]. intros q Hq. now apply disk_unlink_other.
  - exists st. auto.
Qed.

Lemma unlinkSync_frame (p q : jsstring) (st : state) :
  q <> p -> files (snd (unlinkSync p st)) q = files st q.
Proof.
  intros Hq. unfold unlinkSync. destruct (files st p); simpl; [|reflexivity].
  now apply disk_unlink_other.
Qed.

Lemma createZipFromPdfs_state (pdfFiles : list Artifact.t) (p : jsstring)
  (indexContent : jsval) (st : state) :
  let r := createZipFromPdfs M pdfFiles p indexContent st in
  outbox (snd r) = outbox st
  /\ (forall q, q <> p -> files (snd r) q = files st q)
  /\ match fst r with
     | Fulfilled _ => files (snd r) p <> None
     | Rejected _ => files (snd r) p <> None
     | Uncaught _ => snd r = st
     | Pending => False
     end.
Proof.
  cbv zeta. unfold createZipFromPdfs.
  destruct (archiver M _ _ _) as [size bytes | m | m]; simpl;
    (split; [reflexivity|]);
    (split; [intros q Hq; rewrite ?disk_write_other by exact Hq; reflexivity|]);
    rewrite ?disk_write_same; try discriminate; reflexivity.
Qed.

Lemma sendEmailWithZip_state (recipientEmail subject : jsstring)
  (htmlBody : EmailHtml) (zipPath zipFileName : jsstring) (st : state) :
  let r := sendEmailWithZip M recipientEmail subject htmlBody zipPath zipFileName st in
  files (snd r) = files st
  /\ (outbox (snd r) = outbox st
      \/ exists fromEmail,
           outbox (snd r)
           = outbox st
             ++ [ {| from := fromEmail; to := recipientEmail; subject := subject;
                     html := htmlBody; attachment_filename := zipFileName;
                     attachment_path := zipPath |} ])
  /\ (forall messageId response,
        fst r = Normal (Sent messageId response) ->
        exists fromEmail,
          outbox (snd r)
          = outbox st
            ++ [ {| from := fromEmail; to := recipientEmail; subject := subject;
                    html := htmlBody; attachment_filename := zipFileName;
                    attachment_path := zipPath |} ]).
Proof.
  cbv zeta. unfold sendEmailWithZip.
  destruct (bind (initializeEmail M) (fun _ => sender M)) as [fromEmail|m]; simpl.
  - destruct (sendMail M _) as [[messageId response]|m]; simpl;
      (split; [reflexivity|]); (split; [right; eexists; reflexivity|]).
    + intros mi rs _. eexists. reflexivity.
    + discriminate.
  - split; [reflexivity|]. split; [now left|]. discriminate.
Qed.

End Send.
End MailFurther.

Section MailRun.
Import PdfService EmailService Views.
Context `{Host}.
Variable M : Mailer.
Variables (pdfFiles : list Artifact.t) (recipientEmail folderName : jsstring).
Variables (results : BatchResult) (indexContent : jsval).

Lemma sendPdfsViaEmail_runs (st : state) :
  let r := sendPdfsViaEmail M pdfFiles recipientEmail folderName results
             indexContent st in
  match ensure_tempDir M with
  | Throws m => r = (Rejected m, st)
  | Normal _ =>
      (exists e,
          archiver M (zipPath_of M folderName) (zip_entries pdfFiles (files st))
            (if truthy indexContent then indexContent else undefined)
          = ZipOutputError e
          /\ r = (Uncaught e, st))
      \/ exists d,
        fst r = Fulfilled d
        /\ (forall q, q <> zipPath_of M folderName ->
                      files (snd r) q = files st q)
        /\ (outbox (snd r) = outbox st
            \/ exists fromEmail htmlBody,
                 generateEmailHtml results folderName = Normal htmlBody
                 /\ sender M = Normal fromEmail
                 /\ outbox (snd r)
                    = outbox st
                      ++ [composed M recipientEmail folderName fromEmail htmlBody])
        /\ (delivery_success d = true ->
            exists fromEmail htmlBody messageId response,
              d = Sent messageId response
              /\ sendMail M (composed M recipientEmail folderName fromEmail htmlBody)
                 = Normal (messageId, response)
              /\ outbox (snd r)
                 = outbox st
                   ++ [composed M recipientEmail folderName fromEmail htmlBody])
  end.
Proof.
  cbv zeta. unfold sendPdfsViaEmail.
  destruct (ensure_tempDir M) as [u|m]; [|reflexivity].
  set (p := zipPath_of M folderName).
  assert (Hcatch : forall m st1,
             (forall q, q <> p -> files st1 q = files st q) ->
             outbox st1 = outbox st ->
             exists d,
               fst (on_catch p m st1) = Fulfilled d
               /\ (forall q, q <> p -> files (snd (on_catch p m st1)) q = files st q)
               /\ (outbox (snd (on_catch p m st1)) = outbox st
                   \/ exists fromEmail htmlBody,
                        generateEmailHtml results folderName = Normal htmlBody
                        /\ sender M = Normal fromEmail
                        /\ outbox (snd (on_catch p m st1))
                           = outbox st
                             ++ [composed M recipientEmail folderName fromEmail
                                   htmlBody])
               /\ (delivery_success d = true ->
                   exists fromEmail htmlBody messageId response,
                     d = Sent messageId response
                     /\ sendMail M (composed M recipientEmail folderName fromEmail
                                      htmlBody)
                        = Normal (messageId, response)
                     /\ outbox (snd (on_catch p m st1))
                        = outbox st
                          ++ [composed M recipientEmail folderName fromEmail
                                htmlBody])).
  { intros m st1 Hf Ho.
    destruct (on_catch_fulfils p m st1) as (st2 & -> & Ho1 & _ & Hf1).
    exists (NotSent m). simpl. split; [reflexivity|]. split.
    - intros q Hq. rewrite (Hf1 q Hq). now apply Hf.
    - split; [left; congruence|]. discriminate. }
  pose proof (createZipFromPdfs_state M pdfFiles p indexContent st) as Hz.
  cbv zeta in Hz.
  assert (Hcrash : forall e st1,
             createZipFromPdfs M pdfFiles p indexContent st = (Uncaught e, st1) ->
             archiver M p (zip_entries pdfFiles (files st))
               (if truthy indexContent then indexContent else undefined)
             = ZipOutputError e).
  { intros e st1. unfold createZipFromPdfs.
    destruct (archiver M p _ _); try discriminate. now intros [= <- _]. }
  destruct (createZipFromPdfs M pdfFiles p indexContent st)
    as [[size|m|e|] st1] eqn:Ez; simpl in Hz.
  2:{ right. destruct Hz as (Ho & Hf & _). now apply Hcatch. }
  2:{ left. exists e. split; [exact (Hcrash e st1 eq_refl)|].
      destruct Hz as (_ & _ & Hst). simpl in Hst. now rewrite Hst. }
  2:{ destruct Hz as (_ & _ & []). }
  right. destruct Hz as (Ho & Hf & Hp).
  destruct (maxSize <? size)%N.
  - destruct (files st1 p) as [content|] eqn:Ep; [|congruence].
    rewrite (unlinkSync_present p st1 content Ep).
    exists (NotSent (too_large_message size)). simpl.
    split; [reflexivity|]. split.
    + intros q Hq. rewrite disk_unlink_other by exact Hq. now apply Hf.
    + split; [left; congruence|]. discriminate.
  - destruct (generateEmailHtml results folderName) as [htmlBody|m] eqn:Eh.
    2:{ now apply Hcatch. }
    unfold sendEmailWithZip.
    destruct (bind (initializeEmail M) (fun _ => sender M)) as [fromEmail|m] eqn:Eb.
    2:{ now apply Hcatch. }
    assert (Hfrom : sender M = Normal fromEmail).
    { destruct (initializeEmail M); simpl in Eb; [exact Eb|discriminate]. }
    fold (zipFileName_of folderName).
    change {| from := fromEmail; to := recipientEmail;
              subject := js "Your PDFs are Ready: " ++ folderName;
              html := htmlBody;
              attachment_filename := zipFileName_of folderName;
              attachment_path := p |}
      with (composed M recipientEmail folderName fromEmail htmlBody).
    destruct (sendMail M _) as [[messageId response]|m] eqn:Em.
    + match goal with
      | |- context [unlinkSync p ?s] =>
          rewrite (unlinkSync_present p s (match files st1 p with
                                           | Some c => c | None => [] end))
            by (simpl; destruct (files st1 p); [reflexivity|congruence])
      end.
      exists (Sent messageId response). simpl. split; [reflexivity|]. split.
      * intros q Hq. rewrite disk_unlink_other by exact Hq. now apply Hf.
      * split.
        -- right. exists fromEmail, htmlBody. rewrite Ho. auto.
        -- intros _. exists fromEmail, htmlBody, messageId, response.
           rewrite Ho. auto.
    + match goal with
      | |- context [unlinkSync p ?s] =>
          rewrite (unlinkSync_present p s (match files st1 p with
                                           | Some c => c | None => [] end))
            by (simpl; destruct (files st1 p); [reflexivity|congruence])
      end.
      exists (NotSent m). simpl. split; [reflexivity|]. split.
      * intros q Hq. rewrite disk_unlink_other by exact Hq. now apply Hf.
      * split; [|discriminate].
        right. exists fromEmail, htmlBody. rewrite Ho. auto.
Qed.

End MailRun.

Section MailRunClaims.
Import PdfService EmailService Views.

(** X19. However delivery by mail ends -- resolved, rejected, or with the
    process ended by the output stream's error --, no file other than the
    bundle's own path has been created, changed or removed.  When the temp
    directory cannot be provided the promise is rejected with that error,
    and when the bundle's path cannot be opened the process receives the
    stream's error: either way no file has changed and no message has been
    handed to the transport. *)
Theorem sendPdfsViaEmail_touches_only_bundle `{Host} (M : Mailer)
  (pdfFiles : list Artifact.t) (recipientEmail folderName : jsstring)
  (results : BatchResult) (indexContent : jsval) (st : state) :
  let r := sendPdfsViaEmail M pdfFiles recipientEmail folderName results
             indexContent st in
  (forall q, q <> zipPath_of M folderName -> files (snd r) q = files st q)
  /\ (forall m, ensure_tempDir M = Throws m -> r = (Rejected m, st))
  /\ (forall u e,
        ensure_tempDir M = Normal u ->
        archiver M (zipPath_of M folderName) (zip_entries pdfFiles (files st))
          (if truthy indexContent then indexContent else undefined)
        = ZipOutputError e ->
        r = (Uncaught e, st)).
Proof.
  cbv zeta.
  pose proof (sendPdfsViaEmail_runs M pdfFiles recipientEmail folderName results
                indexContent st) as Hr. cbv zeta in Hr.
  destruct (ensure_tempDir M) as [u|m].
  - destruct Hr as [(e & He & ->) | (d & Hd & Hf & _)].
    + split; [reflexivity|]. split; [discriminate|].
      intros _ e' _ He'. congruence.
    + split; [exact Hf|]. split; [discriminate|].
      intros _ e _ He. unfold sendPdfsViaEmail, createZipFromPdfs in Hd.
      revert Hd. destruct (ensure_tempDir M); [|discriminate].
      rewrite He. discriminate.
  - rewrite Hr. split; [reflexivity|]. split; [now intros m' [= <-]|].
    discriminate.
Qed.

(** X20. Delivery by mail hands at most one message to the transport: the
    one addressed to the recipient, with the subject made from the folder
    name, the generated body, and the bundle attached under its sanitised
    name.  A result with [success: true] is the transport's answer to
    exactly that message. *)
Theorem sendPdfsViaEmail_sends_at_most_one `{Host} (M : Mailer)
  (pdfFiles : list Artifact.t) (recipientEmail folderName : jsstring)
  (results : BatchResult) (indexContent : jsval) (st : state) :
  let r := sendPdfsViaEmail M pdfFiles recipientEmail folderName results
             indexContent st in
  (outbox (snd r) = outbox st
   \/ exists fromEmail htmlBody,
        generateEmailHtml results folderName = Normal htmlBody
        /\ sender M = Normal fromEmail
        /\ outbox (snd r)
           = outbox st ++ [composed M recipientEmail folderName fromEmail htmlBody])
  /\ (forall d,
        fst r = Fulfilled d -> delivery_success d = true ->
        exists fromEmail htmlBody messageId response,
          d = Sent messageId response
          /\ sendMail M (composed M recipientEmail folderName fromEmail htmlBody)
             = Normal (messageId, response)
          /\ outbox (snd r)
             = outbox st
               ++ [composed M recipientEmail folderName fromEmail htmlBody]).
Proof.
  cbv zeta.
  pose proof (sendPdfsViaEmail_runs M pdfFiles recipientEmail folderName results
                indexContent st) as Hr. cbv zeta in Hr.
  destruct (ensure_tempDir M) as [u|m].
  - destruct Hr as [(e & _ & ->) | (d & Hd & _ & Ho & Hs)].
    + split; [now left | discriminate].
    + split; [exact Ho|].
      intros d' Hd'. rewrite Hd in Hd'. injection Hd' as <-. exact Hs.
  - rewrite Hr. split; [now left|]. discriminate.
Qed.

(** X21. A failed record whose url is not a string -- a number or an object
    taken from a JSON element's [url] -- makes the report impossible to
    build: however delivery by mail then ends, nothing has been handed to
    the transport, and if it resolves, it resolves to [success: false]. *)
Theorem sendPdfsViaEmail_needs_string_urls `{Host} (M : Mailer)
  (pdfFiles : list Artifact.t) (recipientEmail folderName : jsstring)
  (results : BatchResult) (indexContent : jsval) (st : state) :
  existsb (fun item => not_string (Failure.url item)) (failed results) = true ->
  let r := sendPdfsViaEmail M pdfFiles recipientEmail folderName results
             indexContent st in
  outbox (snd r) = outbox st
  /\ forall d, fst r = Fulfilled d -> delivery_success d = false.
Proof.
  intros Hu. cbv zeta.
  pose proof (sendPdfsViaEmail_runs M pdfFiles recipientEmail folderName results
                indexContent st) as Hr. cbv zeta in Hr.
  destruct (ensure_tempDir M) as [u|m];
    [|rewrite Hr; split; [reflexivity|discriminate]].
  destruct Hr as [(e & _ & ->) | (d & Hd & _ & Ho & Hs)];
    [split; [reflexivity|discriminate]|].
  pose proof (failed_rows_spec (failed results)) as Hrows.
  assert (Hg : forall htmlBody,
             generateEmailHtml results folderName <> Normal htmlBody).
  { intros htmlBody. unfold generateEmailHtml.
    destruct (failed_rows (failed results)) as [rows|m]; [|discriminate].
    destruct Hrows as (He & _). congruence. }
  assert (Hout : outbox (snd (sendPdfsViaEmail M pdfFiles recipientEmail folderName
                                results indexContent st)) = outbox st).
  { destruct Ho as [Ho | (f' & h' & Hh & _)]; [exact Ho|now apply Hg in Hh]. }
  split; [exact Hout|].
  intros d' Hd'. rewrite Hd in Hd'. injection Hd' as <-.
  destruct (delivery_success d) eqn:Ed; [|reflexivity].
  destruct (Hs eq_refl) as (fromEmail & htmlBody & mi & rs & _ & _ & Hsent).
  rewrite Hout in Hsent. apply (f_equal (@List.length _)) in Hsent.
  rewrite length_app in Hsent. simpl in Hsent. lia.
Qed.

Lemma sendPdfsViaEmail_needs_string_urls_witness :
  existsb (fun item => not_string (Failure.url item))
    (failed Fixtures.one_failed) = true
  /\ fst (sendPdfsViaEmail (H := Samples.host) (Samples.mailer 1000) []
            (js "user@example.com") (js "My Batch!") Fixtures.one_failed
            undefined Samples.fresh)
     = Fulfilled (NotSent (js "item.url.substring is not a function"))
  /\ outbox (snd (sendPdfsViaEmail (H := Samples.host) (Samples.mailer 1000)
                    [] (js "user@example.com") (js "My Batch!")
                    Fixtures.one_failed undefined Samples.fresh))
     = outbox Samples.fresh
  /\ forall d,
       fst (sendPdfsViaEmail (H := Samples.host) (Samples.mailer 1000) []
              (js "user@example.com") (js "My Batch!") Fixtures.one_failed
              undefined Samples.fresh) = Fulfilled d ->
       delivery_success d = false.
Proof.
  split; [reflexivity|]. split; [vm_compute; reflexivity|].
  exact (sendPdfsViaEmail_needs_string_urls (H := Samples.host)
           (Samples.mailer 1000) [] (js "user@example.com") (js "My Batch!")
           Fixtures.one_failed undefined Samples.fresh eq_refl).
Defined.

End MailRunClaims.

(** ** The page's polling *)

Section Polling.
Import PdfService Frontend Views.
Context `{Host}.
Variable P : Page.

Lemma poll_S (fuel attempts : nat) (seen : list action) :
  poll P (S fuel) attempts seen
  = match poll_try P attempts seen with
    | (Normal Again, seen1) => poll P fuel (S attempts) seen1
    | (Normal Done, seen1) => Some seen1
    | (Throws m, seen1) => Some (seen1 ++ [Error (JStr m)])
    end.
Proof. reflexivity. Qed.

(** One call of [poll]: what it appends to the log. *)
Lemma poll_try_steps (attempts : nat) (seen : list action) :
  exists more,
    snd (poll_try P attempts seen) = seen ++ more
    /\ match fst (poll_try P attempts seen) with
       | Normal Again =>
           attempts < maxAttempts
           /\ filter is_paced more = [Fetch attempts; Wait pollInterval]
           /\ existsb is_shown more = false
       | Normal Done =>
           exists body a,
             more = body ++ [a] /\ is_shown a = true
             /\ filter is_paced body = [Fetch attempts]
             /\ existsb is_shown body = false
       | Throws _ =>
           filter is_paced more = [Fetch attempts]
           /\ existsb is_shown more = false
       end.
Proof.
  unfold poll_try.
  destruct (status_response P attempts) as [job|m]; simpl.
  2:{ exists [Fetch attempts]. auto. }
  destruct (updateProgress P job) as [u|m]; simpl.
  2:{ exists [Fetch attempts]. auto. }
  destruct (get_prop job (js "status")) as [status|m]; simpl.
  2:{ exists [Fetch attempts; Update job]. rewrite <- app_assoc. auto. }
  destruct (DriveClient.is_string (js "completed") status).
  { destruct (showSuccess P job) as [u'|m]; simpl.
    - exists [Fetch attempts; Update job; Success job].
      rewrite <- !app_assoc. split; [reflexivity|].
      exists [Fetch attempts; Update job], (Success job). repeat split.
    - exists [Fetch attempts; Update job]. rewrite <- app_assoc. auto. }
  destruct (DriveClient.is_string (js "failed") status).
  { destruct (get_prop job (js "error")) as [error|m]; simpl.
    - eexists [Fetch attempts; Update job; Error _].
      rewrite <- !app_assoc. split; [reflexivity|].
      eexists [Fetch attempts; Update job], (Error _). repeat split.
    - exists [Fetch attempts; Update job]. rewrite <- app_assoc. auto. }
  destruct (attempts <? maxAttempts) eqn:El; simpl.
  - exists [Fetch attempts; Update job; Wait pollInterval].
    rewrite <- !app_assoc. split; [reflexivity|].
    apply Nat.ltb_lt in El. auto.
  - eexists [Fetch attempts; Update job; Error _].
    rewrite <- !app_assoc. split; [reflexivity|].
    eexists [Fetch attempts; Update job], (Error _). repeat split.
Qed.

Lemma poll_ends (fuel attempts : nat) (seen : list action) :
  0 < fuel -> maxAttempts < attempts + fuel ->
  exists n body a,
    poll P fuel attempts seen = Some (seen ++ body ++ [a])
    /\ is_shown a = true
    /\ existsb is_shown body = false
    /\ filter is_paced body = paced attempts n
    /\ n <= maxAttempts - attempts.
Proof.
  revert attempts seen. induction fuel as [|fuel IH]; intros attempts seen H0 Hf;
    [inversion H0|].
  rewrite poll_S.
  destruct (poll_try_steps attempts seen) as (more & Hs & Hc).
  destruct (poll_try P attempts seen) as [[[|]|m] seen1];
    cbn [fst snd] in Hs, Hc; subst seen1.
  - destruct Hc as (Hlt & Hw & Hsh).
    destruct (IH (S attempts) (seen ++ more))
      as (n & body & a & E & Ha & Hb & Hbf & Hn); [lia|lia|].
    exists (S n), (more ++ body), a. rewrite E, <- !app_assoc.
    split; [reflexivity|]. split; [exact Ha|]. split.
    + now rewrite existsb_app, Hsh, Hb.
    + split; [|lia]. rewrite filter_app, Hw, Hbf. unfold paced. simpl.
      now rewrite Nat.add_succ_r.
  - destruct Hc as (body & a & -> & Ha & Hbf & Hb).
    exists 0, body, a. unfold paced. rewrite Nat.add_0_r.
    repeat split; auto. lia.
  - destruct Hc as (Hw & Hsh).
    exists 0, more, (Error (JStr m)). rewrite <- app_assoc.
    unfold paced. rewrite Nat.add_0_r. repeat split; auto. lia.
Qed.

Lemma poll_times_out (d attempts : nat) (seen : list action) :
  pending P -> attempts + d = maxAttempts ->
  exists body,
    poll P (S d) attempts seen
    = Some (seen ++ body ++ [Error (JStr (js "Conversion timed out"))])
    /\ filter is_paced body = paced attempts d
    /\ existsb is_shown body = false.
Proof.
  intros Hp. revert attempts seen. induction d as [|d IH]; intros attempts seen Hd;
    rewrite poll_S; unfold poll_try;
    destruct (Hp attempts ltac:(lia)) as (job & status & -> & -> & -> & -> & ->).
  - replace (attempts <? maxAttempts) with false
      by (symmetry; apply Nat.ltb_ge; lia).
    exists [Fetch attempts; Update job]. rewrite <- !app_assoc.
    unfold paced. rewrite Nat.add_0_r. auto.
  - replace (attempts <? maxAttempts) with true
      by (symmetry; apply Nat.ltb_lt; lia).
    destruct (IH (S attempts) (((seen ++ [Fetch attempts]) ++ [Update job])
                                 ++ [Wait pollInterval]))
      as (body & E & Hbf & Hb); [lia|].
    exists ([Fetch attempts; Update job; Wait pollInterval] ++ body).
    rewrite E, <- !app_assoc. split; [reflexivity|].
    rewrite filter_app, Hbf, existsb_app, Hb. unfold paced. simpl.
    rewrite Nat.add_succ_r. auto.
Qed.

End Polling.

Section PollingClaims.
Import PdfService Frontend Views.

Lemma filter_within {A : Type} (f g : A -> bool) (l : list A) :
  (forall a, f a = true -> g a = true) -> filter f (filter g l) = filter f l.
Proof.
  intros Hfg. induction l as [|a l IH]; simpl; [reflexivity|].
  destruct (g a) eqn:Eg; simpl; rewrite IH; [reflexivity|].
  destruct (f a) eqn:Ef; [|reflexivity]. apply Hfg in Ef. congruence.
Qed.

(** X22. Whatever the status endpoint answers and whatever the rendering
    does, polling ends: the page fetches the status at attempts 0, 1, ..., n
    for some n of at most 300, waits 2000 ms after each fetch but the last
    and at no other time, and then shows exactly one final message -- the
    success or one error -- as the last thing it does. *)
Theorem pollJobStatus_ends `{Host} (P : Page) :
  exists n body a,
    pollJobStatus P = Some (body ++ [a])
    /\ is_shown a = true
    /\ existsb is_shown body = false
    /\ filter is_paced body = paced 0 n
    /\ n <= maxAttempts.
Proof.
  unfold pollJobStatus.
  destruct (poll_ends P (S maxAttempts) 0 []) as (n & body & a & E & Hrest);
    [lia|lia|].
  exists n, body, a. rewrite E, Nat.sub_0_r in *. split; [reflexivity|exact Hrest].
Qed.

(** X23. While the job neither completes nor fails, the page keeps polling:
    it fetches the status 301 times, with a wait of 2000 ms after each of
    the first 300 (ten minutes), and then shows [Conversion timed out]. *)
Theorem pollJobStatus_times_out `{Host} (P : Page) :
  pending P ->
  exists body,
    pollJobStatus P
    = Some (body ++ [Error (JStr (js "Conversion timed out"))])
    /\ filter is_paced body = paced 0 300
    /\ List.length (filter is_fetch body) = 301
    /\ List.length (filter is_wait body) = 300
    /\ existsb is_shown body = false.
Proof.
  intros Hp. unfold pollJobStatus.
  destruct (poll_times_out P maxAttempts 0 [] Hp eq_refl) as (body & E & Hb & Hs).
  exists body. rewrite E. split; [reflexivity|]. split; [exact Hb|].
  rewrite <- (filter_within is_fetch is_paced body),
          <- (filter_within is_wait is_paced body), Hb
    by (now intros [k|j|j|e|ms]).
  split; [vm_compute; reflexivity|]. split; [vm_compute; reflexivity|exact Hs].
Qed.

Lemma pollJobStatus_times_out_witness :
  pending (H := Samples.host) Fixtures.waiting_page
  /\ exists body,
       pollJobStatus (H := Samples.host) Fixtures.waiting_page
       = Some (body ++ [Error (JStr (js "Conversion timed out"))])
       /\ filter is_paced body = paced 0 300
       /\ List.length (filter is_fetch body) = 301
       /\ List.length (filter is_wait body) = 300
       /\ existsb is_shown body = false.
Proof.
  assert (Hp : pending (H := Samples.host) Fixtures.waiting_page).
  { intros k _. exists Fixtures.processing_job, (Some (JStr (js "processing"))).
    repeat split; reflexivity. }
  split; [exact Hp|].
  exact (pollJobStatus_times_out (H := Samples.host) Fixtures.waiting_page Hp).
Defined.

End PollingClaims.
